(** * Swoosh signaling server: room registry, relay and usage counters

    A shallow embedding of the signaling server ([server.js]) and of its
    analytics module ([utils/analytics.js], [models/Analytics.js]).

    Definitions:
    - [Clock]       the two readings the analytics code takes from [Date];
    - [Async]       asynchronous store programs: every [await] on the
                    document store is a suspension point, [try]/[catch] is a
                    handler;
    - [Analytics]   the collections, the store calls and the tracking
                    functions;
    - [Server]      the in-memory registries, the broadcast adapter and the
                    socket event handlers;
    - [Concurrent]  interleaved execution of several pending store programs;
    - [Scheduling]  the handlers stopped at their await, the event loop and the
                    clock read where the code reads it;
    - [Endpoints]   the active-rooms report;
    - [Cors]        the origin checks of the two CORS policies;
    - [Transfers]   transfer sessions, the transfer events and the summary;
    - [Legacy]      the earlier version of the server, with counted rooms.

    Properties:
    - [Containment]   the tracking functions cannot end by throwing;
    - [ServerFacts]   what every handler returns, changes and emits;
    - [RoomLifecycle] occupancy, dismissal, leaving and teardown, handler
                      after handler;
    - [Relay]         who receives a relayed payload;
    - [Persistence]   the server does not depend on the store;
    - [Counters]      daily and hourly counters under concurrent calls;
    - [Closure]       room closures tracked one after the other;
    - [Suspension]    events and answers of the store that arrive while a
                      handler is suspended at its await;
    - [RoomIds]       the shape of generated room ids;
    - [Tallies]       events, counters and buckets under sequential calls;
    - [RoomsMore]     the report, refused joins, joining and leaving again;
    - [Ledger]        counters against events in the states the server reaches;
    - [OneByOne]      the same with the clock moving on while a handler waits;
    - [CorsFacts]     which origins the policies allow;
    - [TransferFacts] what the transfer events and the summary record and report;
    - [LegacyFacts]   the capacity of rooms in the earlier version.

    Maps and sets of the source ([Map], [Set], documents keyed by a unique
    field) are finite maps and finite sets. *)

From stdpp Require Import gmap strings list fin_maps fin_sets pretty.
From Stdlib Require Import ZArith Lia.

Set Default Proof Using "Type".
#[local] Set Warnings "-clear-no-such-hyp".

(* ===================================================================== *)
(** ** Clock *)
(* ===================================================================== *)

Module Clock.
Local Open Scope Z_scope.

(** Instants are milliseconds since the epoch, as [Date] holds them. *)
Definition msPerHour : Z := 3600000.
Definition msPerDay : Z := 24 * msPerHour.

(** [d.setHours(0, 0, 0, 0)]: midnight of the day of [t] (the server's
    zone is taken with a fixed offset, folded into the epoch). *)
Definition startOfDay (t : Z) : Z := t - t mod msPerDay.

(** [d.getHours()]. *)
Definition getHours (t : Z) : Z := (t mod msPerDay) / msPerHour.

End Clock.

(* ===================================================================== *)
(** ** Asynchronous store programs *)
(* ===================================================================== *)

Module Async.

(** What an awaited promise settles to. *)
Inductive reply (X : Type) : Type :=
  | Resolved (x : X)
  | Rejected (e : string).
Arguments Resolved {X} x.
Arguments Rejected {X} e.

Section Prog.
(** [req X] is the type of store calls answering with an [X]. *)
Context {req : Type → Type}.

(** An [async] function body: it returns, throws, or is suspended on a
    store call with the rest of the body as continuation. *)
Inductive prog (A : Type) : Type :=
  | Ret (a : A)
  | Throw (e : string)
  | Call {X : Type} (q : req X) (k : reply X → prog A).
Arguments Ret {A} a.
Arguments Throw {A} e.
Arguments Call {A X} q k.

Fixpoint bind {A B} (p : prog A) (f : A → prog B) : prog B :=
  match p with
  | Ret a => f a
  | Throw e => Throw e
  | Call q k => Call q (λ r, bind (k r) f)
  end.

(** [await q]: a rejected promise throws at the point of the await. *)
Definition await {X} (q : req X) : prog X :=
  Call q (λ r, match r with Resolved x => Ret x | Rejected e => Throw e end).

(** [try { p } catch (error) { h error }]. *)
Fixpoint try_catch {A} (p : prog A) (h : string → prog A) : prog A :=
  match p with
  | Ret a => Ret a
  | Throw e => h e
  | Call q k => Call q (λ r, try_catch (k r) h)
  end.

End Prog.

Arguments prog : clear implicits.
Arguments Ret {req A} a.
Arguments Throw {req A} e.
Arguments Call {req A X} q k.
End Async.

Export Async.

(** The programs form a monad; the sequencing notations [x ← p; q] and
    [p ;; q] are the library's. *)
Global Instance prog_ret {req} : MRet (prog req) := λ A a, Ret a.
Global Instance prog_bind {req} : MBind (prog req) := λ A B f p, bind p f.

(* ===================================================================== *)
(** ** The analytics module *)
(* ===================================================================== *)

Module Analytics.
Import Clock.
Local Open Scope Z_scope.

(** *** Collections (models/Analytics.js) *)

Record RoomEvent := {
  ev_roomId : string;
  ev_eventType : string;          (* 'created' | 'joined' | 'user_left' | 'closed' *)
  ev_userId : string;
  ev_timestamp : Z;               (* default: Date.now *)
  ev_userCount : nat }.

(** One element of [hourlyBreakdown]. *)
Record HourlyEntry := {
  he_hour : Z;
  he_connections : Z;
  he_roomsCreated : Z;
  he_transfers : Z }.

(** One document per day; [ds_date] carries a unique index and
    [ds_version] is the version key [__v] of the document. The top-level
    counters ([roomsCreated], [roomsCompleted], [totalConnections], ...)
    are addressed by field name; a counter never written reads as its schema
    default 0. *)
Record DailyStats := {
  ds_date : Z;
  ds_version : nat;
  ds_counters : gmap string Z;
  ds_hourlyBreakdown : list HourlyEntry }.

(** The [metadata] objects the server passes to [logError]. *)
Record Metadata := {
  md_roomId : option string;
  md_userId : option string;
  md_occupancy : option nat }.

Record ErrorLog := {
  el_errorType : string;
  el_errorMessage : string;
  el_metadata : Metadata;
  el_roomId : option string;
  el_userId : option string;
  el_timestamp : Z }.

Record TransferSession := {
  ts_id : nat;                    (* _id *)
  ts_roomId : string;
  ts_sessionId : string;
  ts_status : string;
  ts_startTime : Z;
  ts_signalingEventsCount : gmap string Z }.

Record store := {
  roomEvents : list RoomEvent;
  dailyStats : gmap Z DailyStats;        (* keyed by the unique [date] *)
  errorLogs : list ErrorLog;
  transferSessions : list TransferSession }.

Definition emptyStore : store :=
  {| roomEvents := []; dailyStats := ∅; errorLogs := []; transferSessions := [] |}.

(** [doc[field]] on an hourly entry. *)
Definition entry_get (h : HourlyEntry) (field : string) : option Z :=
  if String.eqb field "hour" then Some (he_hour h)
  else if String.eqb field "connections" then Some (he_connections h)
  else if String.eqb field "roomsCreated" then Some (he_roomsCreated h)
  else if String.eqb field "transfers" then Some (he_transfers h)
  else None.

(** [doc[field] = v] on an hourly entry (a path outside the schema is not
    stored). *)
Definition entry_set (h : HourlyEntry) (field : string) (v : Z) : HourlyEntry :=
  if String.eqb field "hour" then
    {| he_hour := v; he_connections := he_connections h;
       he_roomsCreated := he_roomsCreated h; he_transfers := he_transfers h |}
  else if String.eqb field "connections" then
    {| he_hour := he_hour h; he_connections := v;
       he_roomsCreated := he_roomsCreated h; he_transfers := he_transfers h |}
  else if String.eqb field "roomsCreated" then
    {| he_hour := he_hour h; he_connections := he_connections h;
       he_roomsCreated := v; he_transfers := he_transfers h |}
  else if String.eqb field "transfers" then
    {| he_hour := he_hour h; he_connections := he_connections h;
       he_roomsCreated := he_roomsCreated h; he_transfers := v |}
  else h.

(** [x || 0] on a number that may be undefined. *)
Definition or0 (x : option Z) : Z := default 0 x.

(** What [save()] writes for a document whose [hourlyBreakdown] was changed in
    memory: the pushed element, or the new value of the one path assigned.
    A push also increments the version key of the stored document; an
    assignment inside the array is written only if the stored version is the
    one that was read, and leaves it as it is. *)
Inductive modification :=
  | ModPush (h : HourlyEntry)
  | ModSet (index : nat) (field : string) (v : Z).

Definition applyModification (m : modification) (l : list HourlyEntry)
  : list HourlyEntry :=
  match m with
  | ModPush h => l ++ [h]
  | ModSet i field v =>
      match l !! i with
      | Some h => <[i := entry_set h field v]> l
      | None => l
      end
  end.

(** *** The store calls the module awaits *)

Inductive req : Type → Type :=
  | RoomEvent_create (e : RoomEvent) : req unit
  (* RoomEvent.exists({ roomId, eventType, timestamp: { $gte: since } }) *)
  | RoomEvent_exists (roomId eventType : string) (since : Z) : req bool
  (* DailyStats.updateOne({ date }, { $inc: { [field]: amount },
       $setOnInsert: { date } }, { upsert: true }) *)
  | DailyStats_updateOne (date : Z) (field : string) (amount : Z) : req unit
  | DailyStats_findOne (date : Z) : req (option DailyStats)
  (* DailyStats.create({ date, hourlyBreakdown: [] }) *)
  | DailyStats_create (date : Z) : req DailyStats
  (* stats.save() *)
  | DailyStats_save (date : Z) (version : nat) (m : modification) : req unit
  | ErrorLog_create (e : ErrorLog) : req unit
  (* TransferSession.findOne({ roomId, status: { $in: ['initiated',
       'transferring'] } }).sort({ startTime: -1 }) *)
  | TransferSession_findOne (roomId : string) : req (option TransferSession)
  (* TransferSession.updateOne({ _id }, { $inc: { [field]: amount } }) *)
  | TransferSession_updateOne (id : nat) (field : string) (amount : Z) : req unit.

Definition counter (d : DailyStats) (field : string) : Z :=
  or0 (ds_counters d !! field).

Definition incCounter (field : string) (amount : Z) (d : DailyStats) : DailyStats :=
  {| ds_date := ds_date d; ds_version := ds_version d;
     ds_counters := <[field := counter d field + amount]> (ds_counters d);
     ds_hourlyBreakdown := ds_hourlyBreakdown d |}.

Definition newDailyStats (date : Z) : DailyStats :=
  {| ds_date := date; ds_version := 0; ds_counters := ∅; ds_hourlyBreakdown := [] |}.

Definition isActive (roomId : string) (s : TransferSession) : bool :=
  String.eqb (ts_roomId s) roomId
  && (String.eqb (ts_status s) "initiated" || String.eqb (ts_status s) "transferring").

(** The first element with the greatest [startTime]. *)
Fixpoint latest (l : list TransferSession) : option TransferSession :=
  match l with
  | [] => None
  | s :: l' =>
      match latest l' with
      | Some s' => if ts_startTime s <? ts_startTime s' then Some s' else Some s
      | None => Some s
      end
  end.

Definition incSignal (id : nat) (field : string) (amount : Z) (s : TransferSession)
  : TransferSession :=
  if Nat.eqb (ts_id s) id then
    {| ts_id := ts_id s; ts_roomId := ts_roomId s; ts_sessionId := ts_sessionId s;
       ts_status := ts_status s; ts_startTime := ts_startTime s;
       ts_signalingEventsCount :=
         <[field := or0 (ts_signalingEventsCount s !! field) + amount]>
           (ts_signalingEventsCount s) |}
  else s.

Definition withRoomEvents (st : store) (l : list RoomEvent) : store :=
  {| roomEvents := l; dailyStats := dailyStats st;
     errorLogs := errorLogs st; transferSessions := transferSessions st |}.
Definition withDailyStats (st : store) (m : gmap Z DailyStats) : store :=
  {| roomEvents := roomEvents st; dailyStats := m;
     errorLogs := errorLogs st; transferSessions := transferSessions st |}.
Definition withErrorLogs (st : store) (l : list ErrorLog) : store :=
  {| roomEvents := roomEvents st; dailyStats := dailyStats st;
     errorLogs := l; transferSessions := transferSessions st |}.
Definition withTransferSessions (st : store) (l : list TransferSession) : store :=
  {| roomEvents := roomEvents st; dailyStats := dailyStats st;
     errorLogs := errorLogs st; transferSessions := l |}.

(** One store call, executed atomically by a store that is reachable. A
    second document for a [date] already present violates the unique index. *)
Definition exec {X} (q : req X) (st : store) : reply X * store :=
  match q in req X return reply X * store with
  | RoomEvent_create e => (Resolved (), withRoomEvents st (roomEvents st ++ [e]))
  | RoomEvent_exists roomId eventType since =>
      (Resolved (existsb (λ e, String.eqb (ev_roomId e) roomId
                                && String.eqb (ev_eventType e) eventType
                                && (since <=? ev_timestamp e)) (roomEvents st)), st)
  | DailyStats_updateOne date field amount =>
      let d := default (newDailyStats date) (dailyStats st !! date) in
      (Resolved (), withDailyStats st (<[date := incCounter field amount d]> (dailyStats st)))
  | DailyStats_findOne date => (Resolved (dailyStats st !! date), st)
  | DailyStats_create date =>
      match dailyStats st !! date with
      | Some _ => (Rejected "E11000 duplicate key error", st)
      | None => (Resolved (newDailyStats date),
                 withDailyStats st (<[date := newDailyStats date]> (dailyStats st)))
      end
  | DailyStats_save date version m =>
      match dailyStats st !! date with
      | Some d =>
          let written v :=
            withDailyStats st
              (<[date := {| ds_date := ds_date d; ds_version := v;
                            ds_counters := ds_counters d;
                            ds_hourlyBreakdown :=
                              applyModification m (ds_hourlyBreakdown d) |}]>
                 (dailyStats st)) in
          match m with
          | ModPush _ => (Resolved (), written (S (ds_version d)))
          | ModSet _ _ _ =>
              if Nat.eqb (ds_version d) version then (Resolved (), written (ds_version d))
              else (Rejected "VersionError", st)
          end
      | None => (Rejected "DocumentNotFoundError", st)
      end
  | ErrorLog_create e => (Resolved (), withErrorLogs st (errorLogs st ++ [e]))
  | TransferSession_findOne roomId =>
      (Resolved (latest (filter (λ s, isActive roomId s = true) (transferSessions st))), st)
  | TransferSession_updateOne id field amount =>
      (Resolved (), withTransferSessions st (incSignal id field amount <$> transferSessions st))
  end.

(** Sequential execution of a program: each call is answered before the
    next statement runs. [faults] says, call by call, whether the store is
    unreachable for that call ([true]: the promise is rejected and nothing is
    written); past its end the store is reachable. *)
Fixpoint run {A} (p : prog req A) (st : store) (faults : list bool)
  : reply A * store * list bool :=
  match p with
  | Ret a => (Resolved a, st, faults)
  | Throw e => (Rejected e, st, faults)
  | Call q k =>
      match faults with
      | true :: faults' => run (k (Rejected "MongoNetworkError")) st faults'
      | false :: faults' => let '(r, st') := exec q st in run (k r) st' faults'
      | [] => let '(r, st') := exec q st in run (k r) st' []
      end
  end.

(** [console.error(...)]: the log is not part of the state. *)
Definition console_error (where_ : string) (error : string) : prog req unit := Ret ().

(** *** Tracking functions (utils/analytics.js)

    Every function reads the clock when it starts; [now] is that reading,
    and the functions it calls and the documents it creates read the same
    instant. *)

Definition incrementDailyStat (now : Z) (field : string) (amount : Z) : prog req unit :=
  try_catch
    (let today := startOfDay now in
     await (DailyStats_updateOne today field amount))
    (console_error "[Analytics Error] incrementDailyStat:").

Definition incrementHourlyStat (now : Z) (field : string) (amount : Z) : prog req unit :=
  try_catch
    (let today := startOfDay now in
     let currentHour := getHours now in
     found ← await (DailyStats_findOne today);
     stats ← match found with
             | Some stats => Ret stats
             | None => await (DailyStats_create today)
             end;
     match list_find (λ h, he_hour h = currentHour) (ds_hourlyBreakdown stats) with
     | None =>
         await (DailyStats_save (ds_date stats) (ds_version stats) (ModPush
           {| he_hour := currentHour;
              he_connections := if String.eqb field "connections" then amount else 0;
              he_roomsCreated := if String.eqb field "roomsCreated" then amount else 0;
              he_transfers := if String.eqb field "transfers" then amount else 0 |}))
     | Some (hourIndex, h) =>
         await (DailyStats_save (ds_date stats) (ds_version stats)
                  (ModSet hourIndex field (or0 (entry_get h field) + amount)))
     end)
    (console_error "[Analytics Error] incrementHourlyStat:").

Definition trackRoomCreated (now : Z) (roomId userId : string) : prog req unit :=
  try_catch
    (await (RoomEvent_create
              {| ev_roomId := roomId; ev_eventType := "created"; ev_userId := userId;
                 ev_timestamp := now; ev_userCount := 1 |});;
     incrementDailyStat now "roomsCreated" 1;;
     incrementHourlyStat now "roomsCreated" 1)
    (console_error "[Analytics Error] trackRoomCreated:").

Definition trackRoomJoined (now : Z) (roomId userId : string) (userCount : nat)
  : prog req unit :=
  try_catch
    (await (RoomEvent_create
              {| ev_roomId := roomId; ev_eventType := "joined"; ev_userId := userId;
                 ev_timestamp := now; ev_userCount := userCount |});;
     incrementDailyStat now "totalConnections" 1;;
     incrementHourlyStat now "connections" 1)
    (console_error "[Analytics Error] trackRoomJoined:").

Definition trackRoomClosed (now : Z) (roomId : string) : prog req unit :=
  try_catch
    (let today := startOfDay now in
     alreadyClosed ← await (RoomEvent_exists roomId "closed" today);
     if (alreadyClosed : bool) then Ret ()
     else
       await (RoomEvent_create
                {| ev_roomId := roomId; ev_eventType := "closed"; ev_userId := "system";
                   ev_timestamp := now; ev_userCount := 0 |});;
       incrementDailyStat now "roomsCompleted" 1)
    (console_error "[Analytics Error] trackRoomClosed:").

Definition trackUserLeft (now : Z) (roomId userId : string) (remainingUsers : nat)
  : prog req unit :=
  try_catch
    (await (RoomEvent_create
              {| ev_roomId := roomId; ev_eventType := "user_left"; ev_userId := userId;
                 ev_timestamp := now; ev_userCount := remainingUsers |});;
     if Nat.eqb remainingUsers 0 then trackRoomClosed now roomId else Ret ())
    (console_error "[Analytics Error] trackUserLeft:").

Definition trackSignalingEvent (roomId eventType : string) : prog req unit :=
  try_catch
    (session ← await (TransferSession_findOne roomId);
     match session with
     | Some session =>
         let updateField := "signalingEventsCount." +:+ eventType +:+ "s" in
         await (TransferSession_updateOne (ts_id session) updateField 1)
     | None => Ret ()
     end)
    (console_error "[Analytics Error] trackSignalingEvent:").

Definition logError (now : Z) (errorType errorMessage : string) (metadata : Metadata)
  : prog req unit :=
  try_catch
    (await (ErrorLog_create
              {| el_errorType := errorType; el_errorMessage := errorMessage;
                 el_metadata := metadata; el_roomId := md_roomId metadata;
                 el_userId := md_userId metadata; el_timestamp := now |}))
    (console_error "[Analytics Error] logError:").

End Analytics.

(* ===================================================================== *)
(** ** The signaling server (server.js) *)
(* ===================================================================== *)

Module Server.
Import Analytics.

Definition MAX_ROOM_CAPACITY : nat := 2.
Definition ROOM_ID_LENGTH : nat := 6.

(** *** Messages sent to clients *)

Inductive message :=
  | room_created (roomId : string) (occupancy capacity : nat)
  | room_joined (roomId : string) (occupancy capacity : nat) (isFull : bool)
  | user_joined (userId : string) (occupancy capacity : nat) (isFull : bool)
  | user_left (userId : string) (occupancy capacity : nat)
  | room_full (roomId : string) (occupancy : nat) (capacity : option nat) (text : string)
  | room_dismissed (roomId reason : string)
  | room_left (roomId text : string)
  | error (code text : string)
  | offer (offer : string)
  | answer (answer : string)
  | ice_candidate (candidate : string).

(** One [emit]: the sockets it reaches and what it carries. *)
Record emission := { recipients : gset string; payload : message }.

(** *** State

    [roomUsers] and [userRoomMap] are the two registries of the source;
    [rooms] is the broadcast adapter's table (room name to subscribed
    sockets) that [socket.join], [socket.leave] and the [to(...)] emitters
    work on; [db], [faults] and [clock] are the document store, its
    availability and the time; [outbox] collects what was emitted. *)
Record world := {
  roomUsers : gmap string (gset string);
  userRoomMap : gmap string string;
  rooms : gmap string (gset string);
  db : store;
  faults : list bool;
  clock : Z;
  outbox : list emission }.

Definition initial (st : store) (fs : list bool) (t : Z) : world :=
  {| roomUsers := ∅; userRoomMap := ∅; rooms := ∅;
     db := st; faults := fs; clock := t; outbox := [] |}.

Definition withRoomUsers (w : world) (m : gmap string (gset string)) : world :=
  {| roomUsers := m; userRoomMap := userRoomMap w; rooms := rooms w;
     db := db w; faults := faults w; clock := clock w; outbox := outbox w |}.
Definition withUserRoomMap (w : world) (m : gmap string string) : world :=
  {| roomUsers := roomUsers w; userRoomMap := m; rooms := rooms w;
     db := db w; faults := faults w; clock := clock w; outbox := outbox w |}.
Definition withRooms (w : world) (m : gmap string (gset string)) : world :=
  {| roomUsers := roomUsers w; userRoomMap := userRoomMap w; rooms := m;
     db := db w; faults := faults w; clock := clock w; outbox := outbox w |}.
Definition withDb (w : world) (st : store) (fs : list bool) : world :=
  {| roomUsers := roomUsers w; userRoomMap := userRoomMap w; rooms := rooms w;
     db := st; faults := fs; clock := clock w; outbox := outbox w |}.
Definition withClock (w : world) (t : Z) : world :=
  {| roomUsers := roomUsers w; userRoomMap := userRoomMap w; rooms := rooms w;
     db := db w; faults := faults w; clock := t; outbox := outbox w |}.
Definition withOutbox (w : world) (l : list emission) : world :=
  {| roomUsers := roomUsers w; userRoomMap := userRoomMap w; rooms := rooms w;
     db := db w; faults := faults w; clock := clock w; outbox := l |}.

(** *** Handler bodies: state, exceptions *)

Definition handler (A : Type) : Type := world → reply A * world.

Definition hret {A} (a : A) : handler A := λ w, (Resolved a, w).
Definition hbind {A B} (h : handler A) (f : A → handler B) : handler B :=
  λ w, match h w with
       | (Resolved a, w') => f a w'
       | (Rejected e, w') => (Rejected e, w')
       end.

#[global] Instance handler_ret : MRet handler := @hret.
#[global] Instance handler_bind : MBind handler := λ A B f h, hbind h f.

(** [await p()]: the program runs against the store. *)
Definition awaitP {A} (p : Z → prog req A) : handler A :=
  λ w, let '(r, st, fs) := run (p (clock w)) (db w) (faults w) in (r, withDb w st fs).

(** [Map] and [Set] operations on the registries. *)
Definition roomUsers_has (roomId : string) : handler bool :=
  λ w, (Resolved (bool_decide (is_Some (roomUsers w !! roomId))), w).
Definition roomUsers_get (roomId : string) : handler (option (gset string)) :=
  λ w, (Resolved (roomUsers w !! roomId), w).
Definition roomUsers_set (roomId : string) (s : gset string) : handler unit :=
  λ w, (Resolved (), withRoomUsers w (<[roomId := s]> (roomUsers w))).
Definition roomUsers_delete (roomId : string) : handler unit :=
  λ w, (Resolved (), withRoomUsers w (delete roomId (roomUsers w))).

(** [roomUsers.get(roomId).add(id)], [.delete(id)] and [.size] on the set
    object stored under [roomId]; a method call on [undefined] throws. *)
Definition roomUserSet_add (roomId id : string) : handler unit :=
  λ w, match roomUsers w !! roomId with
       | Some s => (Resolved (), withRoomUsers w (<[roomId := {[id]} ∪ s]> (roomUsers w)))
       | None => (Rejected "TypeError", w)
       end.
Definition roomUserSet_delete (roomId id : string) : handler unit :=
  λ w, match roomUsers w !! roomId with
       | Some s => (Resolved (), withRoomUsers w (<[roomId := s ∖ {[id]}]> (roomUsers w)))
       | None => (Rejected "TypeError", w)
       end.
Definition roomUserSet_size (roomId : string) : handler nat :=
  λ w, match roomUsers w !! roomId with
       | Some s => (Resolved (size s), w)
       | None => (Rejected "TypeError", w)
       end.

Definition userRoomMap_get (id : string) : handler (option string) :=
  λ w, (Resolved (userRoomMap w !! id), w).
Definition userRoomMap_set (id roomId : string) : handler unit :=
  λ w, (Resolved (), withUserRoomMap w (<[id := roomId]> (userRoomMap w))).
Definition userRoomMap_delete (id : string) : handler unit :=
  λ w, (Resolved (), withUserRoomMap w (delete id (userRoomMap w))).

(** The broadcast adapter. *)
Definition subscribers (w : world) (room : string) : gset string :=
  default ∅ (rooms w !! room).

Definition socket_join (id room : string) : handler unit :=
  λ w, (Resolved (), withRooms w (<[room := {[id]} ∪ subscribers w room]> (rooms w))).
Definition socket_leave (id room : string) : handler unit :=
  λ w, (Resolved (), withRooms w (<[room := subscribers w room ∖ {[id]}]> (rooms w))).
(** On teardown the socket leaves every room. *)
Definition socket_leaveAll (id : string) : handler unit :=
  λ w, (Resolved (), withRooms w ((λ s, s ∖ {[id]}) <$> rooms w)).

Definition emit (to : gset string) (m : message) : handler unit :=
  λ w, (Resolved (), withOutbox w (outbox w ++ [{| recipients := to; payload := m |}])).
(** [socket.emit(...)] *)
Definition socket_emit (id : string) (m : message) : handler unit :=
  emit {[id]} m.
(** [socket.to(room).emit(...)]: everyone in the room but the sender. *)
Definition socket_to_emit (id room : string) (m : message) : handler unit :=
  λ w, emit (subscribers w room ∖ {[id]}) m w.
(** [io.to(room).emit(...)] *)
Definition io_to_emit (room : string) (m : message) : handler unit :=
  λ w, emit (subscribers w room) m w.

(** A string used as a condition. *)
Definition truthy (s : string) : bool := negb (String.eqb s "").

(** *** Helpers of the source *)

Definition chars : string := "ABCDEFGHIJKLMNOPQRSTUVWXYZ0123456789".

Definition charAt (s : string) (n : nat) : string :=
  match String.get n s with
  | Some a => String a EmptyString
  | None => EmptyString
  end.

(** The loop of [generateRoomId], [n] iterations left at index [i]. The
    random source is [rnd]: draw [i] stands for the value of
    [Math.floor(Math.random() * chars.length)] in iteration [i], an index
    below [chars.length]. *)
Fixpoint generateRoomId_from (n i : nat) (rnd : nat → nat) (result : string) : string :=
  match n with
  | O => result
  | S n' =>
      generateRoomId_from n' (S i) rnd
        (result +:+ charAt chars (rnd i mod String.length chars))
  end.

Definition generateRoomId (rnd : nat → nat) : string :=
  generateRoomId_from ROOM_ID_LENGTH 0 rnd "".

Definition getRoomOccupancy (roomId : string) : handler nat :=
  λ w, (Resolved (from_option size 0 (roomUsers w !! roomId)), w).

Definition isRoomFull (roomId : string) : handler bool :=
  occupancy ← getRoomOccupancy roomId;
  mret (Nat.ltb MAX_ROOM_CAPACITY occupancy).

Definition roomExists (roomId : string) : handler bool :=
  roomUsers_has roomId.

Definition deleteRoom (roomId : string) : handler unit :=
  has ← roomUsers_has roomId;
  if (has : bool) then
    io_to_emit roomId (room_dismissed roomId "Room closed");;
    roomUsers_delete roomId
  else mret ().

(** *** Socket event handlers

    [id] is [socket.id] of the socket the handler is registered on. A handler
    runs from its first statement to its last before the next event is
    taken: an [await] inside a handler waits for the store and lets no other
    handler in. *)

Definition create_room (id : string) (rnd : nat → nat) : handler unit :=
  let roomId := generateRoomId rnd in
  roomUsers_set roomId {[id]};;
  userRoomMap_set id roomId;;
  socket_join id roomId;;
  awaitP (λ now, trackRoomCreated now roomId id);;
  socket_emit id (room_created roomId 1 MAX_ROOM_CAPACITY).

Definition join_room (id roomId : string) : handler unit :=
  found ← roomExists roomId;
  if negb found then
    socket_emit id (error "ROOM_NOT_FOUND" "Room ID not found or has been dismissed.");;
    awaitP (λ now, logError now "room_not_found" "Room ID not found"
              {| md_roomId := Some roomId; md_userId := Some id; md_occupancy := None |})
  else
    currentOccupancy ← getRoomOccupancy roomId;
    full ← isRoomFull roomId;
    if (full : bool) then
      socket_emit id
        (room_full roomId currentOccupancy (Some MAX_ROOM_CAPACITY)
           ("Room is full (" +:+ pretty currentOccupancy +:+ "/"
              +:+ pretty MAX_ROOM_CAPACITY +:+ " users). Cannot join."));;
      socket_emit id
        (error "ROOM_FULL"
           ("Room is full (" +:+ pretty currentOccupancy +:+ "/"
              +:+ pretty MAX_ROOM_CAPACITY +:+ " users)."));;
      awaitP (λ now, logError now "room_full" "Room is full"
                {| md_roomId := Some roomId; md_userId := Some id;
                   md_occupancy := Some currentOccupancy |})
    else
      roomUserSet_add roomId id;;
      userRoomMap_set id roomId;;
      socket_join id roomId;;
      newOccupancy ← getRoomOccupancy roomId;
      awaitP (λ now, trackRoomJoined now roomId id newOccupancy);;
      isFull ← isRoomFull roomId;
      socket_to_emit id roomId
        (user_joined id newOccupancy MAX_ROOM_CAPACITY isFull);;
      isFull ← isRoomFull roomId;
      socket_emit id
        (room_joined roomId newOccupancy MAX_ROOM_CAPACITY isFull);;
      nowFull ← isRoomFull roomId;
      if (nowFull : bool) then
        io_to_emit roomId
          (room_full roomId newOccupancy None "Room is now full. No more users can join.")
      else mret ().

Definition leave_room (id : string) : handler unit :=
  roomId ← userRoomMap_get id;
  match roomId with
  | Some roomId =>
      has ← roomUsers_has roomId;
      if truthy roomId && has then
        roomUserSet_delete roomId id;;
        userRoomMap_delete id;;
        socket_leave id roomId;;
        remainingOccupancy ← roomUserSet_size roomId;
        awaitP (λ now, trackUserLeft now roomId id remainingOccupancy);;
        (if Nat.eqb remainingOccupancy 0 then deleteRoom roomId
         else socket_to_emit id roomId
                (user_left id remainingOccupancy MAX_ROOM_CAPACITY));;
        socket_emit id (room_left roomId "Successfully left the room")
      else mret ()
  | None => mret ()
  end.

(** The three relay handlers; [offer], [answer] and [candidate] are the
    payloads as received. *)
Definition on_offer (id : string) (offer_ roomId : string) : handler unit :=
  awaitP (λ _, trackSignalingEvent roomId "offer");;
  socket_to_emit id roomId (offer offer_).

Definition on_answer (id : string) (answer_ roomId : string) : handler unit :=
  awaitP (λ _, trackSignalingEvent roomId "answer");;
  socket_to_emit id roomId (answer answer_).

Definition on_ice_candidate (id : string) (candidate roomId : string) : handler unit :=
  awaitP (λ _, trackSignalingEvent roomId "iceCandidate");;
  socket_to_emit id roomId (ice_candidate candidate).

(** The ["disconnecting"] handler up to its first [await]: the registry
    updates. It answers with the room and the occupancy left when the branch
    was taken. *)
Definition disconnecting_begin (id : string) : handler (option (string * nat)) :=
  roomId ← userRoomMap_get id;
  match roomId with
  | Some roomId =>
      has ← roomUsers_has roomId;
      if truthy roomId && has then
        roomUserSet_delete roomId id;;
        userRoomMap_delete id;;
        remainingOccupancy ← roomUserSet_size roomId;
        mret (Some (roomId, remainingOccupancy))
      else mret None
  | None => mret None
  end.

(** The ["disconnecting"] handler from its [await] on. *)
Definition disconnecting_resume (id roomId : string) (remainingOccupancy : nat)
  : handler unit :=
  awaitP (λ now, trackUserLeft now roomId id remainingOccupancy);;
  if Nat.eqb remainingOccupancy 0 then deleteRoom roomId
  else socket_to_emit id roomId
         (user_left id remainingOccupancy MAX_ROOM_CAPACITY).

(** The ["disconnect"] handler. *)
Definition disconnect (id : string) : handler unit :=
  roomId ← userRoomMap_get id;
  match roomId with
  | Some roomId =>
      if truthy roomId then
        userRoomMap_delete id;;
        roomUserSet ← roomUsers_get roomId;
        match roomUserSet with
        | Some _ => roomUserSet_delete roomId id
        | None => mret ()
        end
      else mret ()
  | None => mret ()
  end.

(** Transport teardown of a socket, in the order the transport library
    fires it: ["disconnecting"] runs up to its first [await], the socket
    leaves all its rooms, ["disconnect"] runs, and the suspended
    ["disconnecting"] handler resumes. *)
Definition teardown (id : string) : handler unit :=
  pending ← disconnecting_begin id;
  socket_leaveAll id;;
  disconnect id;;
  match pending with
  | Some (roomId, remainingOccupancy) =>
      disconnecting_resume id roomId remainingOccupancy
  | None => mret ()
  end.

(** Time passes. *)
Definition tick (dt : nat) : handler unit :=
  λ w, (Resolved (), withClock w (clock w + Z.of_nat dt)%Z).

(** A new connection: the socket is subscribed to the room of its own id. *)
Definition connection (id : string) : handler unit :=
  socket_join id id.

(** *** Events and runs *)

Inductive event :=
  | Connection (id : string)
  | Create_room (id : string) (rnd : nat → nat)
  | Join_room (id roomId : string)
  | Leave_room (id : string)
  | Offer (id payload roomId : string)
  | Answer (id payload roomId : string)
  | Ice_candidate (id payload roomId : string)
  | Disconnect (id : string)
  | Tick (dt : nat).

Definition handle (e : event) : handler unit :=
  match e with
  | Connection id => connection id
  | Create_room id rnd => create_room id rnd
  | Join_room id roomId => join_room id roomId
  | Leave_room id => leave_room id
  | Offer id payload roomId => on_offer id payload roomId
  | Answer id payload roomId => on_answer id payload roomId
  | Ice_candidate id payload roomId => on_ice_candidate id payload roomId
  | Disconnect id => teardown id
  | Tick dt => tick dt
  end.

(** The world after an event, whatever the handler settled to. *)
Definition step (e : event) (w : world) : world := (handle e w).2.

(** What one event emits, in order. *)
Definition emitted (e : event) (w : world) : list emission :=
  outbox (step e (withOutbox w [])).

Definition runEvents (es : list event) (w : world) : world :=
  foldl (λ w e, step e w) w es.

Definition occupancy (w : world) (roomId : string) : nat :=
  from_option size 0 (roomUsers w !! roomId).

Definition members (w : world) (roomId : string) : gset string :=
  default ∅ (roomUsers w !! roomId).

End Server.

(* ===================================================================== *)
(** ** Concurrent calls on the store *)
(* ===================================================================== *)

Module Concurrent.
Import Clock Analytics.
Local Open Scope Z_scope.

(** Calls in flight. The store serves one call of one of them at a time;
    a schedule names, step by step, whose next call is served. *)
Definition advance (p : prog req unit) (st : store) : prog req unit * store :=
  match p with
  | Call q k => let '(r, st') := exec q st in (k r, st')
  | _ => (p, st)
  end.

Fixpoint interleave (schedule : list nat) (ps : list (prog req unit)) (st : store)
  : list (prog req unit) * store :=
  match schedule with
  | [] => (ps, st)
  | i :: schedule' =>
      match ps !! i with
      | Some p =>
          let '(p', st') := advance p st in
          interleave schedule' (<[i := p']> ps) st'
      | None => interleave schedule' ps st
      end
  end.

Definition settled (p : prog req unit) : bool :=
  match p with
  | Call _ _ => false
  | _ => true
  end.

(** Every call of the pool has run to its end. *)
Definition allSettled (ps : list (prog req unit)) : bool := forallb settled ps.

(** The stored value of a top-level counter of a day. *)
Definition dailyValue (st : store) (day : Z) (field : string) : Z :=
  from_option (λ d, counter d field) 0 (dailyStats st !! day).

(** The stored value of a counter of the bucket of an hour of a day, as the
    code finds the bucket. *)
Definition hourlyValue (st : store) (day hour : Z) (field : string) : Z :=
  match dailyStats st !! day with
  | Some d =>
      match list_find (λ h, he_hour h = hour) (ds_hourlyBreakdown d) with
      | Some (_, h) => or0 (entry_get h field)
      | None => 0
      end
  | None => 0
  end.

End Concurrent.

(* ===================================================================== *)
(** ** Handlers suspended at their await (server.js, utils/analytics.js) *)
(* ===================================================================== *)

Module Scheduling.
Import Clock Analytics Server.
Local Open Scope Z_scope.

(** *** utils/analytics.js, with the clock read where the code reads it

    [Date_now] is [new Date()] and [Date.now], also as the schema default
    of a timestamp; it is answered on the spot. [Store q] is a call on the
    document store, awaited. *)

Inductive treq : Type → Type :=
  | Date_now : treq Z
  | Store {X} (q : req X) : treq X.

Definition date : prog treq Z := await Date_now.

(** A function of [Analytics] that takes one reading of the clock, or
    none, run on the store from here. *)
Fixpoint onStore {A} (p : prog req A) : prog treq A :=
  match p with
  | Ret a => Ret a
  | Throw e => Throw e
  | Call q k => Call (Store q) (λ r, onStore (k r))
  end.

Definition tconsole_error (where_ : string) (error : string) : prog treq unit := Ret ().

(** [new Date()] is the first statement of the function. *)
Definition incrementDailyStat (field : string) (amount : Z) : prog treq unit :=
  today ← date;
  onStore (Analytics.incrementDailyStat today field amount).

(** [new Date()] is the first statement of the function. *)
Definition incrementHourlyStat (field : string) (amount : Z) : prog treq unit :=
  now ← date;
  onStore (Analytics.incrementHourlyStat now field amount).

(** The timestamp of the record is the schema default. *)
Definition logError (errorType errorMessage : string) (metadata : Metadata)
  : prog treq unit :=
  timestamp ← date;
  onStore (Analytics.logError timestamp errorType errorMessage metadata).

Definition trackSignalingEvent (roomId eventType : string) : prog treq unit :=
  onStore (Analytics.trackSignalingEvent roomId eventType).

Definition trackRoomCreated (roomId userId : string) : prog treq unit :=
  try_catch
    (timestamp ← date;
     await (Store (RoomEvent_create
              {| ev_roomId := roomId; ev_eventType := "created"; ev_userId := userId;
                 ev_timestamp := timestamp; ev_userCount := 1 |}));;
     incrementDailyStat "roomsCreated" 1;;
     incrementHourlyStat "roomsCreated" 1)
    (tconsole_error "[Analytics Error] trackRoomCreated:").

Definition trackRoomJoined (roomId userId : string) (userCount : nat) : prog treq unit :=
  try_catch
    (timestamp ← date;
     await (Store (RoomEvent_create
              {| ev_roomId := roomId; ev_eventType := "joined"; ev_userId := userId;
                 ev_timestamp := timestamp; ev_userCount := userCount |}));;
     incrementDailyStat "totalConnections" 1;;
     incrementHourlyStat "connections" 1)
    (tconsole_error "[Analytics Error] trackRoomJoined:").

Definition trackRoomClosed (roomId : string) : prog treq unit :=
  try_catch
    (today ← date;
     let today := startOfDay today in
     alreadyClosed ← await (Store (RoomEvent_exists roomId "closed" today));
     if (alreadyClosed : bool) then Ret ()
     else
       timestamp ← date;
       await (Store (RoomEvent_create
                {| ev_roomId := roomId; ev_eventType := "closed"; ev_userId := "system";
                   ev_timestamp := timestamp; ev_userCount := 0 |}));;
       incrementDailyStat "roomsCompleted" 1)
    (tconsole_error "[Analytics Error] trackRoomClosed:").

Definition trackUserLeft (roomId userId : string) (remainingUsers : nat)
  : prog treq unit :=
  try_catch
    (timestamp ← date;
     await (Store (RoomEvent_create
              {| ev_roomId := roomId; ev_eventType := "user_left"; ev_userId := userId;
                 ev_timestamp := timestamp; ev_userCount := remainingUsers |}));;
     if Nat.eqb remainingUsers 0 then trackRoomClosed roomId else Ret ())
    (tconsole_error "[Analytics Error] trackUserLeft:").

(** *** server.js: the handlers, stopped at their await

    A handler runs up to its [await] when its event arrives. It is then
    suspended: [awaited] is the call it waits for and [rest] the statements
    after the [await], which run when the call has settled. *)

Record suspended := { awaited : prog treq unit; rest : handler unit }.

(** [await p; k] as the last statements of a handler. *)
Definition await_then (p : prog treq unit) (k : handler unit) : handler (option suspended) :=
  mret (Some {| awaited := p; rest := k |}).

(** The handler returns without an [await]. *)
Definition returns : handler (option suspended) := mret None.

Definition create_room (id : string) (rnd : nat → nat) : handler (option suspended) :=
  let roomId := generateRoomId rnd in
  roomUsers_set roomId {[id]};;
  userRoomMap_set id roomId;;
  socket_join id roomId;;
  await_then (trackRoomCreated roomId id)
    (socket_emit id (room_created roomId 1 MAX_ROOM_CAPACITY)).

Definition join_room (id roomId : string) : handler (option suspended) :=
  found ← roomExists roomId;
  if negb found then
    socket_emit id (error "ROOM_NOT_FOUND" "Room ID not found or has been dismissed.");;
    await_then
      (logError "room_not_found" "Room ID not found"
         {| md_roomId := Some roomId; md_userId := Some id; md_occupancy := None |})
      (mret ())
  else
    currentOccupancy ← getRoomOccupancy roomId;
    full ← isRoomFull roomId;
    if (full : bool) then
      socket_emit id
        (room_full roomId currentOccupancy (Some MAX_ROOM_CAPACITY)
           ("Room is full (" +:+ pretty currentOccupancy +:+ "/"
              +:+ pretty MAX_ROOM_CAPACITY +:+ " users). Cannot join."));;
      socket_emit id
        (error "ROOM_FULL"
           ("Room is full (" +:+ pretty currentOccupancy +:+ "/"
              +:+ pretty MAX_ROOM_CAPACITY +:+ " users)."));;
      await_then
        (logError "room_full" "Room is full"
           {| md_roomId := Some roomId; md_userId := Some id;
              md_occupancy := Some currentOccupancy |})
        (mret ())
    else
      roomUserSet_add roomId id;;
      userRoomMap_set id roomId;;
      socket_join id roomId;;
      newOccupancy ← getRoomOccupancy roomId;
      await_then (trackRoomJoined roomId id newOccupancy)
        (isFull ← isRoomFull roomId;
         socket_to_emit id roomId
           (user_joined id newOccupancy MAX_ROOM_CAPACITY isFull);;
         isFull ← isRoomFull roomId;
         socket_emit id
           (room_joined roomId newOccupancy MAX_ROOM_CAPACITY isFull);;
         nowFull ← isRoomFull roomId;
         if (nowFull : bool) then
           io_to_emit roomId
             (room_full roomId newOccupancy None "Room is now full. No more users can join.")
         else mret ()).

Definition leave_room (id : string) : handler (option suspended) :=
  roomId ← userRoomMap_get id;
  match roomId with
  | Some roomId =>
      has ← roomUsers_has roomId;
      if truthy roomId && has then
        roomUserSet_delete roomId id;;
        userRoomMap_delete id;;
        socket_leave id roomId;;
        remainingOccupancy ← roomUserSet_size roomId;
        await_then (trackUserLeft roomId id remainingOccupancy)
          ((if Nat.eqb remainingOccupancy 0 then deleteRoom roomId
            else socket_to_emit id roomId
                   (user_left id remainingOccupancy MAX_ROOM_CAPACITY));;
           socket_emit id (room_left roomId "Successfully left the room"))
      else returns
  | None => returns
  end.

Definition on_offer (id : string) (offer_ roomId : string) : handler (option suspended) :=
  await_then (trackSignalingEvent roomId "offer")
    (socket_to_emit id roomId (offer offer_)).

Definition on_answer (id : string) (answer_ roomId : string) : handler (option suspended) :=
  await_then (trackSignalingEvent roomId "answer")
    (socket_to_emit id roomId (answer answer_)).

Definition on_ice_candidate (id : string) (candidate roomId : string)
  : handler (option suspended) :=
  await_then (trackSignalingEvent roomId "iceCandidate")
    (socket_to_emit id roomId (ice_candidate candidate)).

(** The ["disconnecting"] handler. *)
Definition disconnecting (id : string) : handler (option suspended) :=
  roomId ← userRoomMap_get id;
  match roomId with
  | Some roomId =>
      has ← roomUsers_has roomId;
      if truthy roomId && has then
        roomUserSet_delete roomId id;;
        userRoomMap_delete id;;
        remainingOccupancy ← roomUserSet_size roomId;
        await_then (trackUserLeft roomId id remainingOccupancy)
          (if Nat.eqb remainingOccupancy 0 then deleteRoom roomId
           else socket_to_emit id roomId
                  (user_left id remainingOccupancy MAX_ROOM_CAPACITY))
      else returns
  | None => returns
  end.

(** Transport teardown of a socket: ["disconnecting"] runs up to its
    [await], the socket leaves all its rooms and ["disconnect"] runs, all in
    one go; the ["disconnecting"] handler is left suspended. *)
Definition teardown (id : string) : handler (option suspended) :=
  pending ← disconnecting id;
  socket_leaveAll id;;
  disconnect id;;
  mret pending.

(** What the arrival of an event runs. *)
Definition start (e : event) : handler (option suspended) :=
  match e with
  | Connection id => connection id;; returns
  | Create_room id rnd => create_room id rnd
  | Join_room id roomId => join_room id roomId
  | Leave_room id => leave_room id
  | Offer id payload roomId => on_offer id payload roomId
  | Answer id payload roomId => on_answer id payload roomId
  | Ice_candidate id payload roomId => on_ice_candidate id payload roomId
  | Disconnect id => teardown id
  | Tick dt => tick dt;; returns
  end.

(** *** The event loop

    [state] holds the registries, the adapter, the store and the clock;
    [inFlight] holds the suspended handlers in the order in which they were
    suspended, [None] for one that has returned since. *)

Record system := { state : world; inFlight : list (option suspended) }.

Definition boot (w : world) : system := {| state := w; inFlight := [] |}.

(** The answer to a reading of the clock, and none for a call on the
    store. *)
Definition reading {X} (q : treq X) (t : Z) : option (reply X) :=
  match q in treq X return option (reply X) with
  | Date_now => Some (Resolved t)
  | Store _ => None
  end.

(** The call runs on, at time [t], up to its next call on the store. *)
Fixpoint upToStore (t : Z) (p : prog treq unit) : prog treq unit :=
  match p with
  | Call q k =>
      match reading q t with
      | Some r => upToStore t (k r)
      | None => p
      end
  | _ => p
  end.

Definition answer {X} (q : treq X) (t : Z) (st : store) : reply X * store :=
  match q in treq X return reply X * store with
  | Date_now => (Resolved t, st)
  | Store q => exec q st
  end.

(** A handler whose awaited call stands at [p]: when the call has returned
    the rest of the handler runs, in the same turn of the loop; when it has
    thrown the handler ends there; otherwise the handler stays suspended. *)
Definition continue_ (h : suspended) (p : prog treq unit) (w : world)
  : option suspended * world :=
  match p with
  | Ret _ => (None, (rest h w).2)
  | Throw _ => (None, w)
  | Call _ _ => (Some {| awaited := p; rest := rest h |}, w)
  end.

(** An event arrives: its handler runs up to its [await], and the awaited
    call up to its first call on the store. *)
Definition deliver (e : event) (s : system) : system :=
  match start e (state s) with
  | (Resolved (Some h), w) =>
      let '(h', w') := continue_ h (upToStore (clock w) (awaited h)) w in
      {| state := w'; inFlight := inFlight s ++ [h'] |}
  | (_, w) => {| state := w; inFlight := inFlight s |}
  end.

(** The store answers the call that the [i]-th suspended handler is
    waiting on, or fails to, as [faults] has it; the awaited function runs on
    to its next call on the store, or to its end and then the handler to
    its own. *)
Definition serve (i : nat) (s : system) : system :=
  match inFlight s !! i with
  | Some (Some h) =>
      match awaited h with
      | Call q k =>
          let w := state s in
          let '(r, st, fs) :=
            match faults w with
            | true :: fs => (Rejected "MongoNetworkError", db w, fs)
            | false :: fs => let '(r, st) := answer q (clock w) (db w) in (r, st, fs)
            | [] => let '(r, st) := answer q (clock w) (db w) in (r, st, [])
            end in
          let '(h', w') := continue_ h (upToStore (clock w) (k r)) (withDb w st fs) in
          {| state := w'; inFlight := <[i := h']> (inFlight s) |}
      | _ => s
      end
  | _ => s
  end.

(** One turn of the loop: an event is taken, or an answer of the store. *)
Inductive turn :=
  | Deliver (e : event)
  | Serve (i : nat).

Definition play (s : system) (m : turn) : system :=
  match m with
  | Deliver e => deliver e s
  | Serve i => serve i s
  end.

Definition schedule (ms : list turn) (s : system) : system := foldl play s ms.

(** A handler that is served answer after answer until it returns. *)
Definition serveOut (n : nat) (i : nat) : list turn := replicate n (Serve i).

(** *** One handler at a time

    An event is handled to its end before the next is taken. The clock
    moves on while the handler waits: [ticks] holds the milliseconds that
    pass before each answer of the store, none once the list has run out. *)

(** The awaited call, from time [t] on: what it settles to, the store, the
    failures and the time it leaves, and the ticks not used. *)
Fixpoint runTicking {A} (p : prog treq A) (ticks : list nat) (st : store)
    (fs : list bool) (t : Z) : reply A * store * list bool * Z * list nat :=
  match p with
  | Ret a => (Resolved a, st, fs, t, ticks)
  | Throw e => (Rejected e, st, fs, t, ticks)
  | Call q k =>
      match reading q t with
      | Some r => runTicking (k r) ticks st fs t
      | None =>
          let t' := t + Z.of_nat (hd 0%nat ticks) in
          match fs with
          | true :: fs' =>
              runTicking (k (Rejected "MongoNetworkError")) (tl ticks) st fs' t'
          | false :: fs' =>
              let '(r, st') := answer q t' st in runTicking (k r) (tl ticks) st' fs' t'
          | [] =>
              let '(r, st') := answer q t' st in runTicking (k r) (tl ticks) st' [] t'
          end
      end
  end.

Definition handleTicking (e : event) (ticks : list nat) : handler unit :=
  λ w, match start e w with
       | (Resolved (Some h), w1) =>
           let '(r, st, fs, t, _) :=
             runTicking (awaited h) ticks (db w1) (faults w1) (clock w1) in
           let w2 := withClock (withDb w1 st fs) t in
           match r with
           | Resolved _ => rest h w2
           | Rejected e => (Rejected e, w2)
           end
       | (Resolved None, w1) => (Resolved (), w1)
       | (Rejected e, w1) => (Rejected e, w1)
       end.

(** The world after an event and the ticks of its handler. *)
Definition stepTicking (et : event * list nat) (w : world) : world :=
  (handleTicking et.1 et.2 w).2.

Definition runOneByOne (es : list (event * list nat)) (w : world) : world :=
  foldl (λ w et, stepTicking et w) w es.

(** No midnight passes while a handler of the run waits: the clock shows
    the same day when the event arrives and after the last tick of its
    handler. *)
Fixpoint noMidnightWaiting (es : list (event * list nat)) (w : world) : Prop :=
  match es with
  | [] => True
  | et :: es' =>
      startOfDay (clock w + Z.of_nat (sum_list et.2)) = startOfDay (clock w)
      ∧ noMidnightWaiting es' (stepTicking et w)
  end.

End Scheduling.

(* ===================================================================== *)
(** ** The HTTP endpoints (server.js) *)
(* ===================================================================== *)

Module Endpoints.
Import Server.

(** One element of [rooms] in the answer of [/api/analytics/active-rooms]. *)
Record RoomReport := {
  rr_id : string;
  rr_userCount : nat;
  rr_capacity : nat;
  rr_isFull : bool }.

Record ActiveRooms := {
  totalActiveRooms : nat;
  ar_rooms : list RoomReport }.

(** The handler of [/api/analytics/active-rooms]. The entries of the map
    are listed in the order of the map's keys, not in the order of
    insertion. *)
Definition activeRooms (w : world) : ActiveRooms :=
  {| totalActiveRooms := size (roomUsers w);
     ar_rooms :=
       (λ '(roomId, userSet),
          {| rr_id := roomId;
             rr_userCount := size userSet;
             rr_capacity := MAX_ROOM_CAPACITY;
             rr_isFull := Nat.leb MAX_ROOM_CAPACITY (size userSet) |})
       <$> map_to_list (roomUsers w) |}.

End Endpoints.

(* ===================================================================== *)
(** ** The CORS policies (server.js) *)
(* ===================================================================== *)

Module Cors.
Import Server.

(** The character [/]. *)
Definition slash : Ascii.ascii := Ascii.ascii_of_nat 47.

(** [s.replace(/\/$/, '')]: a slash that ends the string is removed. *)
Fixpoint stripTrailingSlash (s : string) : string :=
  match s with
  | EmptyString => EmptyString
  | String a s' =>
      match s' with
      | EmptyString => if Ascii.eqb a slash then EmptyString else s
      | _ => String a (stripTrailingSlash s')
      end
  end.

(** [rawAllowedOrigins] when [ALLOWED_ORIGINS] is not set. *)
Definition defaultAllowedOrigins : list string :=
  [ "https://swoosh-transfer.vercel.app"; "http://localhost:5173"; "http://localhost:3000" ].

(** [allowedOrigins], from [rawAllowedOrigins] as read from the environment
    (split at the commas and trimmed) or defaulted. *)
Definition allowedOrigins (rawAllowedOrigins : list string) : list string :=
  stripTrailingSlash <$> rawAllowedOrigins.

(** The [origin] function of the main policy. [origin] is the request's
    [Origin] header, [None] when it has none; [callback(null, true)] is
    [Resolved true], [callback(new Error(m))] is [Rejected m]. *)
Definition corsOrigin (rawAllowedOrigins : list string) (origin : option string)
  : reply bool :=
  match origin with
  | None => Rejected "Origin header required"
  | Some origin =>
      if negb (truthy origin) then Rejected "Origin header required"
      else
        let normalizedOrigin := stripTrailingSlash origin in
        if bool_decide (normalizedOrigin ∈ allowedOrigins rawAllowedOrigins)
        then Resolved true
        else Rejected "Not allowed by CORS"
  end.

(** The [origin] option of the policy of [/ping]. [pingAllowedOrigins] is
    [None] for ['*'] ([PING_ALLOWED_ORIGINS] not set), and the list read from
    the environment otherwise. *)
Definition pingCorsOrigin (pingAllowedOrigins : option (list string))
    (origin : option string) : reply bool :=
  match pingAllowedOrigins with
  | None => Resolved true
  | Some pingAllowedOrigins =>
      match origin with
      | None => Resolved true
      | Some origin =>
          if negb (truthy origin) then Resolved true
          else
            let normalizedOrigin := stripTrailingSlash origin in
            if bool_decide (normalizedOrigin ∈ pingAllowedOrigins) then Resolved true
            else Resolved true
      end
  end.

(** What a [GET] request for [/ping] is answered with: the body of the
    route, or the error that a policy passed on. *)
Inductive pingResponse :=
  | Pong
  | Refused (error : string).

(** [app.get('/ping', cors(pingCorsOptions), ...)] behind
    [app.use(cors({ ... }))]: the main policy is mounted for every path and
    runs first, then the policy of the route, then its body. An error from
    an [origin] function ends the request there. *)
Definition ping (rawAllowedOrigins : list string)
    (pingAllowedOrigins : option (list string)) (origin : option string)
  : pingResponse :=
  match corsOrigin rawAllowedOrigins origin with
  | Rejected e => Refused e
  | Resolved _ =>
      match pingCorsOrigin pingAllowedOrigins origin with
      | Rejected e => Refused e
      | Resolved _ => Pong
      end
  end.

(** The string ends with a slash. *)
Fixpoint endsWithSlash (s : string) : bool :=
  match s with
  | EmptyString => false
  | String a s' =>
      match s' with
      | EmptyString => Ascii.eqb a slash
      | _ => endsWithSlash s'
      end
  end.

End Cors.

(* ===================================================================== *)
(** ** Transfer sessions (utils/analytics.js, utils/transferHandlers.js) *)
(* ===================================================================== *)

Module Transfers.
Import Clock Analytics Server.
Local Open Scope Z_scope.

(** *** Transfer sessions in full (models/Analytics.js)

    The fields of a transfer session that the tracking of signaling events
    does not read are kept beside the session, under its [_id]. A duration
    is a number of seconds with its milliseconds, held as the number of
    milliseconds. Counts of files and of bytes are whole numbers. *)
Record Details := {
  td_initiatorId : option string;
  td_receiverId : option string;
  td_fileCount : Z;
  td_totalBytes : Z;
  td_endTime : option Z;
  td_durationMs : option Z }.

(** The whole numbers that a number of the source, and of the store, holds
    exactly, one and all: those up to 2^53 in absolute value. A sum of two
    of them that is one of them is the sum the source computes. *)
Definition exact (z : Z) : Prop := - 2 ^ 53 ≤ z ≤ 2 ^ 53.

(** Two such numbers whose sum is one of them. *)
Definition exactSum (a b : Z) : Prop := exact a ∧ exact b ∧ exact (a + b).

(** The schema defaults. *)
Definition noDetails : Details :=
  {| td_initiatorId := None; td_receiverId := None; td_fileCount := 0;
     td_totalBytes := 0; td_endTime := None; td_durationMs := None |}.

(** A session document as a query returns it. *)
Definition Session : Type := TransferSession * Details.

Record xstore := {
  base : store;
  details : gmap nat Details }.

Definition emptyXstore : xstore := {| base := emptyStore; details := ∅ |}.

Definition withBase (xs : xstore) (st : store) : xstore :=
  {| base := st; details := details xs |}.

Definition detailsOf (xs : xstore) (id : nat) : Details :=
  default noDetails (details xs !! id).

(** The update documents the code passes to [findOneAndUpdate]: the paths
    it sets, [None] for a path the document does not have, and the amount of
    its [$inc] on [totalBytes]. *)
Record Updates := {
  set_status : option string;
  set_fileCount : option Z;
  set_totalBytes : option Z;
  set_startTime : option Z;
  set_endTime : option Z;
  set_durationMs : option Z;
  set_receiverId : option string;
  inc_totalBytes : option Z }.

Definition noUpdates : Updates :=
  {| set_status := None; set_fileCount := None; set_totalBytes := None;
     set_startTime := None; set_endTime := None; set_durationMs := None;
     set_receiverId := None; inc_totalBytes := None |}.

Definition applyUpdates (u : Updates) (doc : Session) : Session :=
  let '(s, d) := doc in
  ({| ts_id := ts_id s; ts_roomId := ts_roomId s; ts_sessionId := ts_sessionId s;
      ts_status := default (ts_status s) (set_status u);
      ts_startTime := default (ts_startTime s) (set_startTime u);
      ts_signalingEventsCount := ts_signalingEventsCount s |},
   {| td_initiatorId := td_initiatorId d;
      td_receiverId := from_option Some (td_receiverId d) (set_receiverId u);
      td_fileCount := default (td_fileCount d) (set_fileCount u);
      td_totalBytes := default (td_totalBytes d) (set_totalBytes u)
                       + default 0 (inc_totalBytes u);
      td_endTime := from_option Some (td_endTime d) (set_endTime u);
      td_durationMs := from_option Some (td_durationMs d) (set_durationMs u) |}).

(** The grouped counts of [ErrorLog.aggregate], by error type: the store
    fixes no order for the groups. *)
Definition groupByType (l : list ErrorLog) : gmap string nat :=
  foldr (λ e m, <[el_errorType e := S (default 0%nat (m !! el_errorType e))]> m) ∅ l.

(** *** The store calls *)

Inductive xreq : Type → Type :=
  (* the calls of the tracking functions *)
  | Base {X} (q : req X) : xreq X
  (* TransferSession.create({ roomId, sessionId, status, startTime, ... }) *)
  | TransferSession_create (roomId sessionId status : string) (startTime : Z)
      (d : Details) : xreq Session
  (* TransferSession.findOneAndUpdate({ sessionId }, updates, { new: true }) *)
  | TransferSession_findOneAndUpdate (sessionId : string) (u : Updates)
      : xreq (option Session)
  (* TransferSession.findOne({ sessionId }) *)
  | TransferSession_findBySessionId (sessionId : string) : xreq (option Session)
  (* DailyStats.find({ date: { $gte: since } }).sort({ date: -1 }) *)
  | DailyStats_find (since : Z) : xreq (list DailyStats)
  (* RoomEvent.countDocuments({ timestamp: { $gte: since } }) *)
  | RoomEvent_countDocuments (since : Z) : xreq nat
  (* ErrorLog.aggregate([{ $match: { timestamp: { $gte: since } } },
       { $group: { _id: '$errorType', count: { $sum: 1 } } }]) *)
  | ErrorLog_aggregate (since : Z) : xreq (gmap string nat).

(** An [_id] no stored session has. *)
Definition freshId (l : list TransferSession) : nat :=
  S (foldr Nat.max 0%nat (ts_id <$> l)).

Definition findSession (xs : xstore) (sessionId : string)
  : option (nat * TransferSession) :=
  list_find (λ s, ts_sessionId s = sessionId) (transferSessions (base xs)).

(** Insertion into a list in descending order of date. *)
Fixpoint insertByDate (d : DailyStats) (l : list DailyStats) : list DailyStats :=
  match l with
  | [] => [d]
  | d' :: l' => if ds_date d' <=? ds_date d then d :: l else d' :: insertByDate d l'
  end.

Definition sortByDateDesc (l : list DailyStats) : list DailyStats :=
  foldr insertByDate [] l.

Definition xexec {X} (q : xreq X) (xs : xstore) : reply X * xstore :=
  match q in xreq X return reply X * xstore with
  | Base q => let '(r, st) := exec q (base xs) in (r, withBase xs st)
  | TransferSession_create roomId sessionId status startTime d =>
      (* roomId and sessionId are required: an empty string does not pass *)
      if negb (truthy roomId) || negb (truthy sessionId) then
        (Rejected "ValidationError", xs)
      else
      match findSession xs sessionId with
      | Some _ => (Rejected "E11000 duplicate key error", xs)
      | None =>
          let id := freshId (transferSessions (base xs)) in
          let s := {| ts_id := id; ts_roomId := roomId; ts_sessionId := sessionId;
                      ts_status := status; ts_startTime := startTime;
                      ts_signalingEventsCount := ∅ |} in
          (Resolved (s, d),
           {| base := withTransferSessions (base xs) (transferSessions (base xs) ++ [s]);
              details := <[id := d]> (details xs) |})
      end
  | TransferSession_findOneAndUpdate sessionId u =>
      match findSession xs sessionId with
      | Some (i, s) =>
          let '(s', d') := applyUpdates u (s, detailsOf xs (ts_id s)) in
          (Resolved (Some (s', d')),
           {| base := withTransferSessions (base xs)
                        (<[i := s']> (transferSessions (base xs)));
              details := <[ts_id s := d']> (details xs) |})
      | None => (Resolved None, xs)
      end
  | TransferSession_findBySessionId sessionId =>
      (Resolved ((λ '(_, s), (s, detailsOf xs (ts_id s))) <$> findSession xs sessionId), xs)
  | DailyStats_find since =>
      (Resolved (sortByDateDesc
                   (List.filter (λ d, since <=? ds_date d)
                      (map_to_list (dailyStats (base xs))).*2)), xs)
  | RoomEvent_countDocuments since =>
      (Resolved (length (List.filter (λ e, since <=? ev_timestamp e)
                           (roomEvents (base xs)))), xs)
  | ErrorLog_aggregate since =>
      (Resolved (groupByType (List.filter (λ e, since <=? el_timestamp e)
                                (errorLogs (base xs)))), xs)
  end.

(** Sequential execution, as [run]. *)
Fixpoint xrun {A} (p : prog xreq A) (xs : xstore) (faults : list bool)
  : reply A * xstore * list bool :=
  match p with
  | Ret a => (Resolved a, xs, faults)
  | Throw e => (Rejected e, xs, faults)
  | Call q k =>
      match faults with
      | true :: faults' => xrun (k (Rejected "MongoNetworkError")) xs faults'
      | false :: faults' => let '(r, xs') := xexec q xs in xrun (k r) xs' faults'
      | [] => let '(r, xs') := xexec q xs in xrun (k r) xs' []
      end
  end.

(** A tracking function called from the code below. *)
Fixpoint lift {A} (p : prog req A) : prog xreq A :=
  match p with
  | Ret a => Ret a
  | Throw e => Throw e
  | Call q k => Call (Base q) (λ r, lift (k r))
  end.

Definition xconsole_error (where_ : string) (error : string) : prog xreq unit := Ret ().

(** *** utils/analytics.js, continued

    A function that reads the clock in one stretch between two awaits
    takes that reading, [now], as in [Analytics]; a session created without
    a [startTime] gets it as the schema default. A function that reads the
    clock in several stretches takes one reading for each. *)

Definition createTransferSession (now : Z) (roomId sessionId initiatorId : string)
  : prog xreq (option Session) :=
  try_catch
    (created ← await (TransferSession_create roomId sessionId "initiated" now
                        {| td_initiatorId := Some initiatorId; td_receiverId := None;
                           td_fileCount := 0; td_totalBytes := 0;
                           td_endTime := None; td_durationMs := None |});
     Ret (Some created))
    (λ error, xconsole_error "[Analytics Error] createTransferSession:" error;; Ret None).

Definition updateTransferSession (sessionId : string) (updates : Updates)
  : prog xreq (option Session) :=
  try_catch
    (await (TransferSession_findOneAndUpdate sessionId updates))
    (λ error, xconsole_error "[Analytics Error] updateTransferSession:" error;; Ret None).

(** The readings of the clock during a data-transfer report: by each of
    the three increments, for the [endTime] of the session that the report
    names, and for the id and the times of the session that it creates. *)
Record ReportTimes := {
  at_bytes : Z;
  at_count : Z;
  at_hour : Z;
  at_update : Z;
  at_create : Z }.

(** [bytes] is the payload's number, [None] when [Number(bytes)] is not a
    number; [sessionId] is [None] when the payload has none. *)
Definition recordDataTransferred (t : ReportTimes) (roomId : string) (bytes : option Z)
    (sessionId : option string) : prog xreq (option Session) :=
  try_catch
    (let amount := Z.max 0 (default 0 bytes) in
     if amount =? 0 then Ret None
     else
       lift (incrementDailyStat (at_bytes t) "totalBytesTransferred" amount);;
       lift (incrementDailyStat (at_count t) "transfersCompleted" 1);;
       lift (incrementHourlyStat (at_hour t) "transfers" 1);;
       updated ← match sessionId with
                 | Some sessionId =>
                     if truthy sessionId then
                       await (TransferSession_findOneAndUpdate sessionId
                         {| set_status := Some "completed"; set_fileCount := None;
                            set_totalBytes := None; set_startTime := None;
                            set_endTime := Some (at_update t); set_durationMs := None;
                            set_receiverId := None; inc_totalBytes := Some amount |})
                     else Ret None
                 | None => Ret None
                 end;
       match updated with
       | Some updated => Ret (Some updated)
       | None =>
           let minimalSessionId := roomId +:+ "-" +:+ pretty (at_create t) in
           created ← await (TransferSession_create roomId minimalSessionId "completed"
                              (at_create t)
                              {| td_initiatorId := None; td_receiverId := None;
                                 td_fileCount := 0; td_totalBytes := amount;
                                 td_endTime := Some (at_create t);
                                 td_durationMs := Some 0 |});
           Ret (Some created)
       end)
    (λ error, xconsole_error "[Analytics Error] recordDataTransferred:" error;; Ret None).

(** [Promise.all] of three store calls: the three are issued, and the
    result is theirs, or the rejection of the first that was rejected. *)
Definition all3 {A B C} (qa : xreq A) (qb : xreq B) (qc : xreq C) : prog xreq (A * B * C) :=
  Call qa (λ ra, Call qb (λ rb, Call qc (λ rc,
    match ra, rb, rc with
    | Resolved a, Resolved b, Resolved c => Ret (a, b, c)
    | Rejected e, _, _ => Throw e
    | _, Rejected e, _ => Throw e
    | _, _, Rejected e => Throw e
    end))).

Record Summary := {
  sm_dailyStats : list DailyStats;
  sm_totalEvents : nat;
  sm_errors : gmap string nat;
  sm_period : string }.

(** The instants that a [Date] holds: those up to 8.64e15 milliseconds
    from the epoch. A [Date] set further off is an invalid date. *)
Definition validDate (t : Z) : Prop := - 8640000000000000 ≤ t ≤ 8640000000000000.

(** [startDate.setDate(startDate.getDate() - days); startDate.setHours(0, 0, 0, 0)],
    for dates that are valid. *)
Definition startDate (now days : Z) : Z := startOfDay (now - days * msPerDay).

Definition getAnalyticsSummary (now : Z) (days : Z) : prog xreq (option Summary) :=
  try_catch
    ('(dailyStats, recentEvents, errorStats) ←
       all3 (DailyStats_find (startDate now days))
            (RoomEvent_countDocuments (startDate now days))
            (ErrorLog_aggregate (startDate now days));
     Ret (Some {| sm_dailyStats := dailyStats; sm_totalEvents := recentEvents;
                  sm_errors := errorStats;
                  sm_period := "Last " +:+ pretty days +:+ " days" |}))
    (λ error, xconsole_error "[Analytics Error] getAnalyticsSummary:" error;; Ret None).

(** *** server.js: the data-transfer event and the summary endpoint *)

Definition on_data_transfer (t : ReportTimes) (roomId : string) (bytes : option Z)
    (sessionId : option string) : prog xreq unit :=
  try_catch
    (result ← recordDataTransferred t roomId bytes sessionId;
     match result with
     | Some _ => Ret ()       (* log *)
     | None => Ret ()
     end)
    (xconsole_error "[Data Transfer Error]:").

(** What the endpoint answers: [res.json(body)] or
    [res.status(code).json({ error })]. *)
Inductive response :=
  | Json (body : option Summary)
  | Failure (status : nat) (error : string).

(** [parseInt(req.query.days) || 7]; [parsed] is the result of [parseInt],
    [None] for [NaN]. *)
Definition queryDays (parsed : option Z) : Z :=
  match parsed with
  | Some days => if days =? 0 then 7 else days
  | None => 7
  end.

Definition summaryEndpoint (now : Z) (parsed : option Z) : prog xreq response :=
  try_catch
    (let days := queryDays parsed in
     summary ← getAnalyticsSummary now days;
     Ret (Json summary))
    (λ error, xconsole_error "[Analytics API] Error:" error;;
              Ret (Failure 500 "Failed to fetch analytics")).

(** *** utils/transferHandlers.js

    [id] is [socket.id]; [fileCount] and [totalBytes] are the numbers of
    the payload. *)

(** The readings of the clock during [transfer-start]: when the session
    is created, and for the [startTime] of the update that follows. *)
Record StartTimes := {
  at_created : Z;
  at_started : Z }.

Definition on_transfer_start (t : StartTimes) (id roomId sessionId : string)
    (fileCount totalBytes : Z) : prog xreq unit :=
  try_catch
    (createTransferSession (at_created t) roomId sessionId id;;
     updateTransferSession sessionId
       {| set_status := Some "transferring"; set_fileCount := Some fileCount;
          set_totalBytes := Some totalBytes; set_startTime := Some (at_started t);
          set_endTime := None; set_durationMs := None;
          set_receiverId := None; inc_totalBytes := None |};;
     Ret ())
    (xconsole_error "[Transfer Start Error]:").

(** The readings of the clock during [transfer-complete]: for the
    duration and the [endTime], and by each of the two increments. *)
Record CompleteTimes := {
  at_ended : Z;
  at_counted : Z;
  at_summed : Z }.

Definition on_transfer_complete (t : CompleteTimes) (id roomId sessionId : string)
  : prog xreq unit :=
  try_catch
    (session ← await (TransferSession_findBySessionId sessionId);
     match session with
     | None => Ret ()         (* console.warn *)
     | Some (s, d) =>
         let durationMs := at_ended t - ts_startTime s in
         updateTransferSession sessionId
           {| set_status := Some "completed"; set_fileCount := None;
              set_totalBytes := None; set_startTime := None;
              set_endTime := Some (at_ended t); set_durationMs := Some durationMs;
              set_receiverId := Some id; inc_totalBytes := None |};;
         lift (incrementDailyStat (at_counted t) "transfersCompleted" 1);;
         lift (incrementDailyStat (at_summed t) "totalBytesTransferred" (td_totalBytes d));;
         Ret ()
     end)
    (xconsole_error "[Transfer Complete Error]:").

Definition on_transfer_paused (roomId sessionId : string) : prog xreq unit :=
  try_catch
    (updateTransferSession sessionId
       {| set_status := Some "paused"; set_fileCount := None; set_totalBytes := None;
          set_startTime := None; set_endTime := None; set_durationMs := None;
          set_receiverId := None; inc_totalBytes := None |};;
     Ret ())
    (xconsole_error "[Transfer Paused Error]:").

Definition on_transfer_resumed (roomId sessionId : string) : prog xreq unit :=
  try_catch
    (updateTransferSession sessionId
       {| set_status := Some "transferring"; set_fileCount := None; set_totalBytes := None;
          set_startTime := None; set_endTime := None; set_durationMs := None;
          set_receiverId := None; inc_totalBytes := None |};;
     Ret ())
    (xconsole_error "[Transfer Resumed Error]:").

End Transfers.

(* ===================================================================== *)
(** ** The earlier version of the server (src/server.js) *)
(* ===================================================================== *)

Module Legacy.
Import Clock Analytics.

(** The server as it was before it kept the members of each room: rooms
    are known by a count of users only. [generateRoomId] is the function of
    the later version, with the length written as a literal. *)

Inductive message :=
  | room_created (roomId : string)
  | room_joined (roomId : string)
  | user_joined (userId : string)
  | user_left
  | error (text : string)
  | offer (offer : string)
  | answer (answer : string)
  | ice_candidate (candidate : string).

Record emission := { recipients : gset string; payload : message }.

(** [roomOccupancy] is the map of the source. [socketRooms] holds, for
    each connected socket, [socket.rooms]: the rooms it is in, in the order in
    which it joined them, its own room first. *)
Record world := {
  roomOccupancy : gmap string Z;
  socketRooms : gmap string (list string);
  db : store;
  faults : list bool;
  clock : Z;
  outbox : list emission }.

Definition initial (st : store) (fs : list bool) (t : Z) : world :=
  {| roomOccupancy := ∅; socketRooms := ∅; db := st; faults := fs; clock := t;
     outbox := [] |}.

Definition withRoomOccupancy (w : world) (m : gmap string Z) : world :=
  {| roomOccupancy := m; socketRooms := socketRooms w; db := db w; faults := faults w;
     clock := clock w; outbox := outbox w |}.
Definition withSocketRooms (w : world) (m : gmap string (list string)) : world :=
  {| roomOccupancy := roomOccupancy w; socketRooms := m; db := db w; faults := faults w;
     clock := clock w; outbox := outbox w |}.
Definition withDb (w : world) (st : store) (fs : list bool) : world :=
  {| roomOccupancy := roomOccupancy w; socketRooms := socketRooms w; db := st; faults := fs;
     clock := clock w; outbox := outbox w |}.
Definition withClock (w : world) (t : Z) : world :=
  {| roomOccupancy := roomOccupancy w; socketRooms := socketRooms w; db := db w;
     faults := faults w; clock := t; outbox := outbox w |}.
Definition withOutbox (w : world) (l : list emission) : world :=
  {| roomOccupancy := roomOccupancy w; socketRooms := socketRooms w; db := db w;
     faults := faults w; clock := clock w; outbox := l |}.

Definition handler (A : Type) : Type := world → reply A * world.

Definition hret {A} (a : A) : handler A := λ w, (Resolved a, w).
Definition hbind {A B} (h : handler A) (f : A → handler B) : handler B :=
  λ w, match h w with
       | (Resolved a, w') => f a w'
       | (Rejected e, w') => (Rejected e, w')
       end.

#[global] Instance handler_ret : MRet handler := @hret.
#[global] Instance handler_bind : MBind handler := λ A B f h, hbind h f.

Definition awaitP {A} (p : Z → prog req A) : handler A :=
  λ w, let '(r, st, fs) := run (p (clock w)) (db w) (faults w) in (r, withDb w st fs).

(** [roomOccupancy.get(roomId) || 0], [.has], [.get], [.set], [.delete]. *)
Definition roomOccupancy_getOr0 (roomId : string) : handler Z :=
  λ w, (Resolved (match roomOccupancy w !! roomId with
                  | Some n => n
                  | None => 0%Z
                  end), w).
Definition roomOccupancy_has (roomId : string) : handler bool :=
  λ w, (Resolved (bool_decide (is_Some (roomOccupancy w !! roomId))), w).
Definition roomOccupancy_set (roomId : string) (n : Z) : handler unit :=
  λ w, (Resolved (), withRoomOccupancy w (<[roomId := n]> (roomOccupancy w))).
Definition roomOccupancy_delete (roomId : string) : handler unit :=
  λ w, (Resolved (), withRoomOccupancy w (delete roomId (roomOccupancy w))).

(** The broadcast adapter. *)
Definition roomsOf (w : world) (id : string) : list string :=
  default [] (socketRooms w !! id).

Definition subscribers (w : world) (room : string) : gset string :=
  dom (filter (λ p, room ∈ p.2) (socketRooms w)).

Definition socket_join (id room : string) : handler unit :=
  λ w, (Resolved (),
        if bool_decide (room ∈ roomsOf w id) then w
        else withSocketRooms w (<[id := roomsOf w id ++ [room]]> (socketRooms w))).
(** [Array.from(socket.rooms)] *)
Definition socket_rooms (id : string) : handler (list string) :=
  λ w, (Resolved (roomsOf w id), w).
(** On teardown the socket leaves every room. *)
Definition socket_leaveAll (id : string) : handler unit :=
  λ w, (Resolved (), withSocketRooms w (delete id (socketRooms w))).

Definition emit (to : gset string) (m : message) : handler unit :=
  λ w, (Resolved (), withOutbox w (outbox w ++ [{| recipients := to; payload := m |}])).
Definition socket_emit (id : string) (m : message) : handler unit :=
  emit {[id]} m.
Definition socket_to_emit (id room : string) (m : message) : handler unit :=
  λ w, emit (subscribers w room ∖ {[id]}) m w.

Definition generateRoomId (rnd : nat → nat) : string :=
  Server.generateRoomId_from 6 0 rnd "".

(** *** Socket event handlers *)

Definition create_room (id : string) (rnd : nat → nat) : handler unit :=
  let roomId := generateRoomId rnd in
  socket_join id roomId;;
  roomOccupancy_set roomId 1;;
  awaitP (λ now, trackRoomCreated now roomId id);;
  socket_emit id (room_created roomId).

(** The count passed to the tracking functions is a count of users; the
    counts the handlers store are positive (see [LegacyFacts]). *)
Definition join_room (id roomId : string) : handler unit :=
  roomSize ← roomOccupancy_getOr0 roomId;
  if (roomSize =? 0)%Z then
    socket_emit id (error "Room ID not found.");;
    awaitP (λ now, logError now "room_not_found" "Room ID not found"
              {| md_roomId := Some roomId; md_userId := Some id; md_occupancy := None |})
  else if (2 <=? roomSize)%Z then
    socket_emit id (error "Room is full.");;
    awaitP (λ now, logError now "room_full" "Room is full"
              {| md_roomId := Some roomId; md_userId := Some id; md_occupancy := None |})
  else
    socket_join id roomId;;
    roomOccupancy_set roomId (roomSize + 1);;
    awaitP (λ now, trackRoomJoined now roomId id (Z.to_nat (roomSize + 1)));;
    socket_to_emit id roomId (user_joined id);;
    socket_emit id (room_joined roomId).

Definition on_offer (id : string) (offer_ roomId : string) : handler unit :=
  awaitP (λ _, trackSignalingEvent roomId "offer");;
  socket_to_emit id roomId (offer offer_).

Definition on_answer (id : string) (answer_ roomId : string) : handler unit :=
  awaitP (λ _, trackSignalingEvent roomId "answer");;
  socket_to_emit id roomId (answer answer_).

Definition on_ice_candidate (id : string) (candidate roomId : string) : handler unit :=
  awaitP (λ _, trackSignalingEvent roomId "iceCandidate");;
  socket_to_emit id roomId (ice_candidate candidate).

(** The loop of the ["disconnecting"] handler over the rooms the socket was
    in when the handler started. *)
Fixpoint disconnecting_rooms (id : string) (rooms : list string) : handler unit :=
  match rooms with
  | [] => mret ()
  | roomId :: rooms' =>
      has ← roomOccupancy_has roomId;
      (if negb (String.eqb roomId id) && has then
         count ← roomOccupancy_getOr0 roomId;
         let newSize := (count - 1)%Z in
         awaitP (λ now, trackUserLeft now roomId id (Z.to_nat newSize));;
         if (newSize <=? 0)%Z then roomOccupancy_delete roomId
         else
           roomOccupancy_set roomId newSize;;
           socket_to_emit id roomId user_left
       else mret ());;
      disconnecting_rooms id rooms'
  end.

(** Transport teardown of a socket: ["disconnecting"] takes the socket's
    rooms and runs up to its first [await], the socket leaves all its rooms,
    and the handler goes on. *)
Definition teardown (id : string) : handler unit :=
  rooms ← socket_rooms id;
  socket_leaveAll id;;
  disconnecting_rooms id rooms.

Definition tick (dt : nat) : handler unit :=
  λ w, (Resolved (), withClock w (clock w + Z.of_nat dt)%Z).

(** A new connection: the socket is in the room of its own id. *)
Definition connection (id : string) : handler unit :=
  socket_join id id.

Inductive event :=
  | Connection (id : string)
  | Create_room (id : string) (rnd : nat → nat)
  | Join_room (id roomId : string)
  | Offer (id payload roomId : string)
  | Answer (id payload roomId : string)
  | Ice_candidate (id payload roomId : string)
  | Disconnect (id : string)
  | Tick (dt : nat).

Definition handle (e : event) : handler unit :=
  match e with
  | Connection id => connection id
  | Create_room id rnd => create_room id rnd
  | Join_room id roomId => join_room id roomId
  | Offer id payload roomId => on_offer id payload roomId
  | Answer id payload roomId => on_answer id payload roomId
  | Ice_candidate id payload roomId => on_ice_candidate id payload roomId
  | Disconnect id => teardown id
  | Tick dt => tick dt
  end.

Definition step (e : event) (w : world) : world := (handle e w).2.

Definition emitted (e : event) (w : world) : list emission :=
  outbox (step e (withOutbox w [])).

Definition runEvents (es : list event) (w : world) : world :=
  foldl (λ w e, step e w) w es.

End Legacy.

(* ===================================================================== *)
(** * Properties *)
(* ===================================================================== *)

(** ** The clock *)

Module ClockFacts.
Import Clock.
Local Open Scope Z_scope.

Lemma startOfDay_le t : startOfDay t <= t.
Proof.
  unfold startOfDay, msPerDay, msPerHour.
  pose proof (Z.mod_pos_bound t (24 * 3600000)). lia.
Qed.

Lemma startOfDay_idem t : startOfDay (startOfDay t) = startOfDay t.
Proof.
  unfold startOfDay, msPerDay, msPerHour.
  rewrite Zminus_mod, Zmod_mod, Z.sub_diag, Zmod_0_l. lia.
Qed.

Lemma getHours_range t : 0 <= getHours t < 24.
Proof.
  unfold getHours, msPerDay, msPerHour.
  pose proof (Z.mod_pos_bound t (24 * 3600000)).
  split; [apply Z.div_pos; lia | apply Z.div_lt_upper_bound; lia].
Qed.

End ClockFacts.

(** ** Programs that cannot end by throwing *)

Module Containment.
Import Analytics.

(** On every path, whatever the store answers, the program returns. *)
Inductive neverThrows {req : Type → Type} {A} : prog req A → Prop :=
  | nt_ret a : neverThrows (Ret a)
  | nt_call X (q : req X) k :
      (∀ r, neverThrows (k r)) → neverThrows (Call q k).

Lemma neverThrows_bind {req : Type → Type} {A B} (p : prog req A) (f : A → prog req B) :
  neverThrows p → (∀ a, neverThrows (f a)) → neverThrows (bind p f).
Proof.
  intros Hp Hf. induction Hp as [a|X q k _ IH]; simpl.
  - apply Hf.
  - constructor. exact IH.
Qed.

(** A [catch] block that returns contains every exception of its [try]. *)
Lemma neverThrows_try_catch {req : Type → Type} {A} (p : prog req A) h :
  (∀ e, neverThrows (h e)) → neverThrows (try_catch p h).
Proof.
  intros Hh. induction p as [a|e|X q k IH]; simpl.
  - constructor.
  - apply Hh.
  - constructor. exact IH.
Qed.

Lemma console_error_returns where_ e : neverThrows (console_error where_ e).
Proof. constructor. Qed.

#[local] Hint Resolve console_error_returns : core.

Lemma incrementDailyStat_contained now field amount :
  neverThrows (incrementDailyStat now field amount).
Proof. apply neverThrows_try_catch; auto. Qed.

Lemma incrementHourlyStat_contained now field amount :
  neverThrows (incrementHourlyStat now field amount).
Proof. apply neverThrows_try_catch; auto. Qed.

Lemma trackRoomCreated_contained now roomId userId :
  neverThrows (trackRoomCreated now roomId userId).
Proof. apply neverThrows_try_catch; auto. Qed.

Lemma trackRoomJoined_contained now roomId userId userCount :
  neverThrows (trackRoomJoined now roomId userId userCount).
Proof. apply neverThrows_try_catch; auto. Qed.

Lemma trackRoomClosed_contained now roomId :
  neverThrows (trackRoomClosed now roomId).
Proof. apply neverThrows_try_catch; auto. Qed.

Lemma trackUserLeft_contained now roomId userId remainingUsers :
  neverThrows (trackUserLeft now roomId userId remainingUsers).
Proof. apply neverThrows_try_catch; auto. Qed.

Lemma trackSignalingEvent_contained roomId eventType :
  neverThrows (trackSignalingEvent roomId eventType).
Proof. apply neverThrows_try_catch; auto. Qed.

Lemma logError_contained now errorType errorMessage metadata :
  neverThrows (logError now errorType errorMessage metadata).
Proof. apply neverThrows_try_catch; auto. Qed.

(** Run against the store, with the store failing wherever it likes, such a
    program resolves. *)
Lemma run_neverThrows {A} (p : prog req A) :
  neverThrows p →
  ∀ st fs, ∃ a st' fs', run p st fs = (Resolved a, st', fs').
Proof.
  induction 1 as [a|X q k _ IH]; intros st fs; simpl.
  - eauto.
  - destruct fs as [|[] fs]; [destruct (exec q st) as [r st']| |destruct (exec q st) as [r st']];
      apply IH.
Qed.

End Containment.

(* ===================================================================== *)
(** ** Handlers: what they return and what they change *)
(* ===================================================================== *)

Module ServerFacts.
Import Clock Analytics Server Containment.
#[local] Arguments Nat.ltb : simpl never.
#[local] Arguments Nat.eqb : simpl never.
#[local] Arguments generateRoomId : simpl never.
#[local] Arguments pretty : simpl never.

(** [h] run in [w] returns normally, in a world and with a value that satisfy [Q]. *)
Definition wp {A} (h : handler A) (w : world) (Q : A → world → Prop) : Prop :=
  ∃ a w', h w = (Resolved a, w') ∧ Q a w'.

Lemma wp_bind {A B} (h : handler A) (f : A → handler B) w Q :
  wp h w (λ a w', wp (f a) w' Q) → wp (h ≫= f) w Q.
Proof.
  intros (a & w' & Hh & b & w'' & Hf & HQ). exists b, w''. split; [|done].
  unfold mbind, handler_bind, hbind. by rewrite Hh.
Qed.

Lemma wp_ret {A} (a : A) w (Q : A → world → Prop) : Q a w → wp (mret a) w Q.
Proof. intros HQ. by exists a, w. Qed.

Lemma wp_mono {A} (h : handler A) w (Q Q' : A → world → Prop) :
  wp h w Q → (∀ a w', Q a w' → Q' a w') → wp h w Q'.
Proof. intros (a & w' & Hh & HQ) HQQ. exists a, w'. eauto. Qed.

Lemma wp_awaitP (p : Z → prog req unit) w (Q : unit → world → Prop) :
  (∀ now, neverThrows (p now)) →
  (∀ st fs, Q () (withDb w st fs)) → wp (awaitP p) w Q.
Proof.
  intros Hp HQ. unfold wp, awaitP.
  destruct (run_neverThrows _ (Hp (clock w)) (db w) (faults w)) as ([] & st & fs & ->).
  eauto.
Qed.

Lemma wp_pure {A} (h : handler A) w a w' (Q : A → world → Prop) :
  h w = (Resolved a, w') → Q a w' → wp h w Q.
Proof. intros. by exists a, w'. Qed.

Create HintDb contained.
#[export] Hint Resolve incrementDailyStat_contained incrementHourlyStat_contained
  trackRoomCreated_contained trackRoomJoined_contained trackRoomClosed_contained
  trackUserLeft_contained trackSignalingEvent_contained logError_contained : contained.

Lemma wp_roomUserSet_add roomId id w s (Q : unit → world → Prop) :
  roomUsers w !! roomId = Some s →
  Q () (withRoomUsers w (<[roomId := {[id]} ∪ s]> (roomUsers w))) →
  wp (roomUserSet_add roomId id) w Q.
Proof. intros E HQ. eapply wp_pure; [|exact HQ]. unfold roomUserSet_add. by rewrite E. Qed.

Lemma wp_roomUserSet_delete roomId id w s (Q : unit → world → Prop) :
  roomUsers w !! roomId = Some s →
  Q () (withRoomUsers w (<[roomId := s ∖ {[id]}]> (roomUsers w))) →
  wp (roomUserSet_delete roomId id) w Q.
Proof. intros E HQ. eapply wp_pure; [|exact HQ]. unfold roomUserSet_delete. by rewrite E. Qed.

Lemma wp_roomUserSet_size roomId w s (Q : nat → world → Prop) :
  roomUsers w !! roomId = Some s →
  Q (size s) w →
  wp (roomUserSet_size roomId) w Q.
Proof. intros E HQ. eapply wp_pure; [|exact HQ]. unfold roomUserSet_size. by rewrite E. Qed.

(** One step of symbolic execution of a handler body. *)
Ltac wp_lookup := cbn; first [eassumption | apply lookup_insert_eq].

Ltac wp_step :=
  first
    [ apply wp_bind
    | apply wp_ret
    | apply wp_awaitP; [intros; auto with contained | intros ? ?]
    | eapply wp_roomUserSet_add; [wp_lookup |]
    | eapply wp_roomUserSet_delete; [wp_lookup |]
    | eapply wp_roomUserSet_size; [wp_lookup |]
    | eapply wp_pure; [reflexivity |] ].

Ltac wp_exec := repeat (wp_step; cbn beta).

(** The part of the world the handlers own and what they have sent. *)
Record effect := {
  eff_roomUsers : gmap string (gset string);
  eff_userRoomMap : gmap string string;
  eff_rooms : gmap string (gset string);
  eff_outbox : list emission }.

Definition effectOf (w : world) : effect :=
  {| eff_roomUsers := roomUsers w; eff_userRoomMap := userRoomMap w;
     eff_rooms := rooms w; eff_outbox := outbox w |}.

Definition send (to : gset string) (m : message) : emission :=
  {| recipients := to; payload := m |}.

Lemma create_room_spec id rnd w :
  let roomId := generateRoomId rnd in
  wp (create_room id rnd) w (λ _ w',
    effectOf w' =
      {| eff_roomUsers := <[roomId := {[id]}]> (roomUsers w);
         eff_userRoomMap := <[id := roomId]> (userRoomMap w);
         eff_rooms := <[roomId := {[id]} ∪ subscribers w roomId]> (rooms w);
         eff_outbox := outbox w ++ [send {[id]} (room_created roomId 1 MAX_ROOM_CAPACITY)] |}).
Proof.
  intros roomId. unfold create_room. wp_exec. reflexivity.
Qed.

Lemma join_room_missing id roomId w :
  roomUsers w !! roomId = None →
  wp (join_room id roomId) w (λ _ w',
    effectOf w' =
      {| eff_roomUsers := roomUsers w; eff_userRoomMap := userRoomMap w;
         eff_rooms := rooms w;
         eff_outbox := outbox w ++
           [send {[id]} (error "ROOM_NOT_FOUND" "Room ID not found or has been dismissed.")] |}).
Proof.
  intros E. unfold join_room, roomExists. wp_step. wp_step. cbn beta.
  rewrite E. rewrite bool_decide_eq_false_2 by (by intros [? ?]). cbn [negb].
  wp_exec. reflexivity.
Qed.

Lemma join_room_rejected id roomId w s :
  roomUsers w !! roomId = Some s → MAX_ROOM_CAPACITY < size s →
  wp (join_room id roomId) w (λ _ w',
    effectOf w' =
      {| eff_roomUsers := roomUsers w; eff_userRoomMap := userRoomMap w;
         eff_rooms := rooms w;
         eff_outbox := outbox w ++
           [send {[id]} (room_full roomId (size s) (Some MAX_ROOM_CAPACITY)
              ("Room is full (" +:+ pretty (size s) +:+ "/"
                 +:+ pretty MAX_ROOM_CAPACITY +:+ " users). Cannot join."));
            send {[id]} (error "ROOM_FULL"
              ("Room is full (" +:+ pretty (size s) +:+ "/"
                 +:+ pretty MAX_ROOM_CAPACITY +:+ " users)."))] |}).
Proof.
  intros E Hfull. unfold join_room, roomExists, isRoomFull. wp_step. wp_step. cbn beta.
  rewrite E. rewrite bool_decide_eq_true_2 by eauto. cbn [negb].
  wp_step. wp_step. cbn beta. wp_step. wp_step. wp_step. cbn beta. wp_step. cbn beta. 
  rewrite E. cbn [from_option].
  apply Nat.ltb_lt in Hfull as ->.
  wp_exec. unfold effectOf, send; cbn. rewrite <- app_assoc; reflexivity.
Qed.

Lemma join_room_admitted id roomId w s :
  roomUsers w !! roomId = Some s → size s ≤ MAX_ROOM_CAPACITY →
  let s' := {[id]} ∪ s in
  let subs := {[id]} ∪ subscribers w roomId in
  let isFull := Nat.ltb MAX_ROOM_CAPACITY (size s') in
  wp (join_room id roomId) w (λ _ w',
    effectOf w' =
      {| eff_roomUsers := <[roomId := s']> (roomUsers w);
         eff_userRoomMap := <[id := roomId]> (userRoomMap w);
         eff_rooms := <[roomId := subs]> (rooms w);
         eff_outbox := outbox w ++
           ([send (subs ∖ {[id]}) (user_joined id (size s') MAX_ROOM_CAPACITY isFull);
             send {[id]} (room_joined roomId (size s') MAX_ROOM_CAPACITY isFull)] ++
            (if isFull then
               [send subs (room_full roomId (size s') None
                             "Room is now full. No more users can join.")]
             else [])) |}).
Proof.
  intros E Hfree s' subs isFull. unfold join_room, roomExists, isRoomFull.
  wp_step. wp_step. cbn beta.
  rewrite E. rewrite bool_decide_eq_true_2 by eauto. cbn [negb].
  wp_step. wp_step. cbn beta. wp_step. wp_step. wp_step. cbn beta. wp_step. cbn beta. 
  rewrite E. cbn [from_option].
  assert (Nat.ltb MAX_ROOM_CAPACITY (size s) = false) as -> by (apply Nat.ltb_ge; lia).
  wp_exec. cbn. rewrite !lookup_insert_eq. cbn. fold s'. fold isFull.
  destruct isFull; wp_exec; unfold effectOf, send, subscribers; cbn; rewrite ?lookup_insert_eq; cbn;
    rewrite <- ?app_assoc; reflexivity.
Qed.

(** The room the leave and teardown handlers act on: the one the connection
    registry names for the socket, when it is registered. *)
Definition currentRoom (w : world) (id : string) : option (string * gset string) :=
  match userRoomMap w !! id with
  | Some roomId =>
      if truthy roomId then
        match roomUsers w !! roomId with
        | Some s => Some (roomId, s)
        | None => None
        end
      else None
  | None => None
  end.

Lemma leave_room_noop id w :
  currentRoom w id = None → leave_room id w = (Resolved (), w).
Proof.
  unfold currentRoom, leave_room, mbind, handler_bind, hbind, userRoomMap_get, roomUsers_has.
  destruct (userRoomMap w !! id) as [roomId|]; [|done].
  destruct (truthy roomId); [|done].
  destruct (roomUsers w !! roomId) eqn:E; [done|]. intros _.
  rewrite bool_decide_eq_false_2; [done|]. by intros [? ?].
Qed.

Lemma leave_room_spec id w roomId s :
  currentRoom w id = Some (roomId, s) →
  let s' := s ∖ {[id]} in
  let subs := subscribers w roomId ∖ {[id]} in
  wp (leave_room id) w (λ _ w',
    effectOf w' =
      {| eff_roomUsers :=
           if Nat.eqb (size s') 0 then delete roomId (roomUsers w)
           else <[roomId := s']> (roomUsers w);
         eff_userRoomMap := delete id (userRoomMap w);
         eff_rooms := <[roomId := subs]> (rooms w);
         eff_outbox := outbox w ++
           [ if Nat.eqb (size s') 0 then send subs (room_dismissed roomId "Room closed")
             else send (subs ∖ {[id]}) (user_left id (size s') MAX_ROOM_CAPACITY);
             send {[id]} (room_left roomId "Successfully left the room") ] |}).
Proof.
  intros Hcur s' subs. unfold currentRoom in Hcur.
  destruct (userRoomMap w !! id) as [r|] eqn:Eu; [|done].
  destruct (truthy r) eqn:Et; [|done].
  destruct (roomUsers w !! r) as [s0|] eqn:Er; [|done].
  injection Hcur as -> ->.
  unfold leave_room. wp_step. wp_step. cbn beta. rewrite Eu.
  wp_step. wp_step. cbn beta. rewrite Et, Er, bool_decide_eq_true_2 by eauto. cbn [andb].
  wp_exec. fold s'.
  destruct (Nat.eqb (size s') 0) eqn:Ez; unfold deleteRoom; wp_exec; cbn.
  - rewrite lookup_insert_eq, bool_decide_eq_true_2 by eauto.
    wp_exec. unfold effectOf, send, subscribers; cbn.
    rewrite lookup_insert_eq, delete_insert_eq, <- app_assoc. reflexivity.
  - unfold effectOf, send, subscribers; cbn.
    rewrite lookup_insert_eq, <- app_assoc. reflexivity.
Qed.

Definition leaveAll (id : string) (m : gmap string (gset string)) : gmap string (gset string) :=
  (λ s, s ∖ {[id]}) <$> m.

Lemma subscribers_leaveAll w id room :
  default ∅ (leaveAll id (rooms w) !! room) = subscribers w room ∖ {[id]}.
Proof.
  unfold leaveAll, subscribers. rewrite lookup_fmap.
  destruct (rooms w !! room); cbn; [done|]. set_solver.
Qed.

(** Teardown of a socket the connection registry holds no usable room for. *)
Lemma teardown_idle id w :
  currentRoom w id = None →
  wp (teardown id) w (λ _ w',
    effectOf w' =
      {| eff_roomUsers := roomUsers w;
         eff_userRoomMap :=
           match userRoomMap w !! id with
           | Some roomId => if truthy roomId then delete id (userRoomMap w) else userRoomMap w
           | None => userRoomMap w
           end;
         eff_rooms := leaveAll id (rooms w);
         eff_outbox := outbox w |}).
Proof.
  unfold currentRoom. intros Hcur.
  unfold teardown, disconnecting_begin, disconnect.
  wp_step. wp_step. wp_step. cbn beta.
  destruct (userRoomMap w !! id) as [r|] eqn:Eu.
  - wp_step. wp_step. cbn beta.
    destruct (truthy r) eqn:Et.
    + destruct (roomUsers w !! r) as [s0|] eqn:Er; [done|].
      rewrite bool_decide_eq_false_2 by (by intros [? ?]). cbn [andb].
      wp_exec. cbn. rewrite Eu. wp_exec. rewrite Et. wp_exec. cbn. rewrite Er.
      wp_exec. reflexivity.
    + cbn [andb]. wp_exec. cbn. rewrite Eu. wp_exec. rewrite Et. wp_exec. reflexivity.
  - wp_exec. cbn. rewrite Eu. wp_exec. reflexivity.
Qed.

Lemma teardown_spec id w roomId s :
  currentRoom w id = Some (roomId, s) →
  let s' := s ∖ {[id]} in
  let subs := subscribers w roomId ∖ {[id]} in
  wp (teardown id) w (λ _ w',
    effectOf w' =
      {| eff_roomUsers :=
           if Nat.eqb (size s') 0 then delete roomId (roomUsers w)
           else <[roomId := s']> (roomUsers w);
         eff_userRoomMap := delete id (userRoomMap w);
         eff_rooms := leaveAll id (rooms w);
         eff_outbox := outbox w ++
           [ if Nat.eqb (size s') 0 then send subs (room_dismissed roomId "Room closed")
             else send (subs ∖ {[id]}) (user_left id (size s') MAX_ROOM_CAPACITY) ] |}).
Proof.
  intros Hcur s' subs. unfold currentRoom in Hcur.
  destruct (userRoomMap w !! id) as [r|] eqn:Eu; [|done].
  destruct (truthy r) eqn:Et; [|done].
  destruct (roomUsers w !! r) as [s0|] eqn:Er; [|done].
  injection Hcur as -> ->.
  unfold teardown, disconnecting_begin, disconnect.
  wp_step. wp_step. wp_step. cbn beta. rewrite Eu.
  wp_step. wp_step. cbn beta. rewrite Et, Er, bool_decide_eq_true_2 by eauto. cbn [andb].
  wp_exec. cbn. rewrite lookup_delete_eq. wp_exec.
  unfold disconnecting_resume. wp_exec. fold s'.
  destruct (Nat.eqb (size s') 0) eqn:Ez; unfold deleteRoom; wp_exec; cbn.
  - rewrite lookup_insert_eq, bool_decide_eq_true_2 by eauto.
    wp_exec. unfold effectOf, send; cbn. unfold subscribers at 1; cbn.
    fold (leaveAll id (rooms w)). rewrite subscribers_leaveAll, delete_insert_eq.
    reflexivity.
  - unfold effectOf, send; cbn. unfold subscribers at 1; cbn.
    fold (leaveAll id (rooms w)). rewrite subscribers_leaveAll. reflexivity.
Qed.


Lemma on_offer_spec id payload roomId w :
  wp (on_offer id payload roomId) w (λ _ w',
    effectOf w' =
      {| eff_roomUsers := roomUsers w; eff_userRoomMap := userRoomMap w;
         eff_rooms := rooms w;
         eff_outbox := outbox w ++ [send (subscribers w roomId ∖ {[id]}) (offer payload)] |}).
Proof. unfold on_offer. wp_exec. reflexivity. Qed.

Lemma on_answer_spec id payload roomId w :
  wp (on_answer id payload roomId) w (λ _ w',
    effectOf w' =
      {| eff_roomUsers := roomUsers w; eff_userRoomMap := userRoomMap w;
         eff_rooms := rooms w;
         eff_outbox := outbox w ++ [send (subscribers w roomId ∖ {[id]}) (answer payload)] |}).
Proof. unfold on_answer. wp_exec. reflexivity. Qed.

Lemma on_ice_candidate_spec id payload roomId w :
  wp (on_ice_candidate id payload roomId) w (λ _ w',
    effectOf w' =
      {| eff_roomUsers := roomUsers w; eff_userRoomMap := userRoomMap w;
         eff_rooms := rooms w;
         eff_outbox := outbox w ++
           [send (subscribers w roomId ∖ {[id]}) (ice_candidate payload)] |}).
Proof. unfold on_ice_candidate. wp_exec. reflexivity. Qed.

(** *** Independence from the store *)











Lemma connection_spec id w :
  wp (connection id) w (λ _ w',
    effectOf w' =
      {| eff_roomUsers := roomUsers w; eff_userRoomMap := userRoomMap w;
         eff_rooms := <[id := {[id]} ∪ subscribers w id]> (rooms w);
         eff_outbox := outbox w |}).
Proof. unfold connection. wp_exec. reflexivity. Qed.

Lemma tick_spec dt w :
  wp (tick dt) w (λ _ w', effectOf w' = effectOf w).
Proof. unfold tick. wp_exec. reflexivity. Qed.

(** *** The transitions of the server

    What an event does to the registries and the adapter, and what it emits,
    case by case. *)
Record outcome := {
  out_roomUsers : gmap string (gset string);
  out_userRoomMap : gmap string string;
  out_rooms : gmap string (gset string);
  out_emitted : list emission }.

Definition unchanged (w : world) (sent : list emission) : outcome :=
  {| out_roomUsers := roomUsers w; out_userRoomMap := userRoomMap w;
     out_rooms := rooms w; out_emitted := sent |}.

Inductive transition (w : world) : event → outcome → Prop :=
  | t_connection id :
      transition w (Connection id)
        {| out_roomUsers := roomUsers w; out_userRoomMap := userRoomMap w;
           out_rooms := <[id := {[id]} ∪ subscribers w id]> (rooms w);
           out_emitted := [] |}
  | t_create id rnd :
      let roomId := generateRoomId rnd in
      transition w (Create_room id rnd)
        {| out_roomUsers := <[roomId := {[id]}]> (roomUsers w);
           out_userRoomMap := <[id := roomId]> (userRoomMap w);
           out_rooms := <[roomId := {[id]} ∪ subscribers w roomId]> (rooms w);
           out_emitted := [send {[id]} (room_created roomId 1 MAX_ROOM_CAPACITY)] |}
  | t_join_missing id roomId :
      roomUsers w !! roomId = None →
      transition w (Join_room id roomId)
        (unchanged w
           [send {[id]} (error "ROOM_NOT_FOUND" "Room ID not found or has been dismissed.")])
  | t_join_rejected id roomId s :
      roomUsers w !! roomId = Some s → MAX_ROOM_CAPACITY < size s →
      transition w (Join_room id roomId)
        (unchanged w
           [send {[id]} (room_full roomId (size s) (Some MAX_ROOM_CAPACITY)
              ("Room is full (" +:+ pretty (size s) +:+ "/"
                 +:+ pretty MAX_ROOM_CAPACITY +:+ " users). Cannot join."));
            send {[id]} (error "ROOM_FULL"
              ("Room is full (" +:+ pretty (size s) +:+ "/"
                 +:+ pretty MAX_ROOM_CAPACITY +:+ " users)."))])
  | t_join_admitted id roomId s :
      roomUsers w !! roomId = Some s → size s ≤ MAX_ROOM_CAPACITY →
      let s' := {[id]} ∪ s in
      let subs := {[id]} ∪ subscribers w roomId in
      let isFull := Nat.ltb MAX_ROOM_CAPACITY (size s') in
      transition w (Join_room id roomId)
        {| out_roomUsers := <[roomId := s']> (roomUsers w);
           out_userRoomMap := <[id := roomId]> (userRoomMap w);
           out_rooms := <[roomId := subs]> (rooms w);
           out_emitted :=
             [send (subs ∖ {[id]}) (user_joined id (size s') MAX_ROOM_CAPACITY isFull);
              send {[id]} (room_joined roomId (size s') MAX_ROOM_CAPACITY isFull)] ++
             (if isFull then
                [send subs (room_full roomId (size s') None
                              "Room is now full. No more users can join.")]
              else []) |}
  | t_leave_noop id :
      currentRoom w id = None →
      transition w (Leave_room id) (unchanged w [])
  | t_leave id roomId s :
      currentRoom w id = Some (roomId, s) →
      let s' := s ∖ {[id]} in
      let subs := subscribers w roomId ∖ {[id]} in
      transition w (Leave_room id)
        {| out_roomUsers :=
             if Nat.eqb (size s') 0 then delete roomId (roomUsers w)
             else <[roomId := s']> (roomUsers w);
           out_userRoomMap := delete id (userRoomMap w);
           out_rooms := <[roomId := subs]> (rooms w);
           out_emitted :=
             [ if Nat.eqb (size s') 0 then send subs (room_dismissed roomId "Room closed")
               else send (subs ∖ {[id]}) (user_left id (size s') MAX_ROOM_CAPACITY);
               send {[id]} (room_left roomId "Successfully left the room") ] |}
  | t_offer id payload roomId :
      transition w (Offer id payload roomId)
        (unchanged w [send (subscribers w roomId ∖ {[id]}) (offer payload)])
  | t_answer id payload roomId :
      transition w (Answer id payload roomId)
        (unchanged w [send (subscribers w roomId ∖ {[id]}) (answer payload)])
  | t_ice_candidate id payload roomId :
      transition w (Ice_candidate id payload roomId)
        (unchanged w [send (subscribers w roomId ∖ {[id]}) (ice_candidate payload)])
  | t_teardown_idle id :
      currentRoom w id = None →
      transition w (Disconnect id)
        {| out_roomUsers := roomUsers w;
           out_userRoomMap :=
             match userRoomMap w !! id with
             | Some roomId =>
                 if truthy roomId then delete id (userRoomMap w) else userRoomMap w
             | None => userRoomMap w
             end;
           out_rooms := leaveAll id (rooms w);
           out_emitted := [] |}
  | t_teardown id roomId s :
      currentRoom w id = Some (roomId, s) →
      let s' := s ∖ {[id]} in
      let subs := subscribers w roomId ∖ {[id]} in
      transition w (Disconnect id)
        {| out_roomUsers :=
             if Nat.eqb (size s') 0 then delete roomId (roomUsers w)
             else <[roomId := s']> (roomUsers w);
           out_userRoomMap := delete id (userRoomMap w);
           out_rooms := leaveAll id (rooms w);
           out_emitted :=
             [ if Nat.eqb (size s') 0 then send subs (room_dismissed roomId "Room closed")
               else send (subs ∖ {[id]}) (user_left id (size s') MAX_ROOM_CAPACITY) ] |}
  | t_tick dt :
      transition w (Tick dt) (unchanged w []).

Definition outcomeOf (e : event) (w : world) : outcome :=
  {| out_roomUsers := roomUsers (step e w);
     out_userRoomMap := userRoomMap (step e w);
     out_rooms := rooms (step e w);
     out_emitted := emitted e w |}.

Lemma wp_unit (h : handler unit) w Q :
  wp h w Q → h w = (Resolved (), (h w).2) ∧ Q () (h w).2.
Proof. intros ([] & w' & -> & HQ). done. Qed.

(** From a specification of the handler of [e], stated on every world: the
    handler returns, and the outcome of the event is as specified. *)
Lemma outcome_from_spec e w (o : outcome) :
  (∀ w0, roomUsers w0 = roomUsers w → userRoomMap w0 = userRoomMap w →
         rooms w0 = rooms w →
     wp (handle e) w0 (λ _ w',
       effectOf w' =
         {| eff_roomUsers := out_roomUsers o; eff_userRoomMap := out_userRoomMap o;
            eff_rooms := out_rooms o; eff_outbox := outbox w0 ++ out_emitted o |})) →
  outcomeOf e w = o
  ∧ handle e w = (Resolved (), step e w)
  ∧ outbox (step e w) = outbox w ++ emitted e w.
Proof.
  intros Hspec.
  destruct (wp_unit _ _ _ (Hspec w eq_refl eq_refl eq_refl)) as [Hc Heff].
  destruct (wp_unit _ _ _ (Hspec (withOutbox w []) eq_refl eq_refl eq_refl)) as [_ Heff0].
  unfold effectOf in Heff, Heff0. injection Heff as H1 H2 H3 H4.
  injection Heff0 as _ _ _ H4'. cbn in H4'.
  unfold outcomeOf, emitted, step. rewrite H1, H2, H3, H4, H4'.
  by destruct o.
Qed.

Ltac from_spec spec H1 H2 H3 :=
  cbn [handle];
  eapply wp_mono;
  [ eapply spec; unfold currentRoom; rewrite ?H1, ?H2, ?H3; eassumption
  | intros _ ? ->; cbn; unfold subscribers, unchanged; cbn;
    rewrite ?H1, ?H2, ?H3, ?app_nil_r; reflexivity ].

Lemma transition_sound w e o :
  transition w e o →
  ∀ w0, roomUsers w0 = roomUsers w → userRoomMap w0 = userRoomMap w →
        rooms w0 = rooms w →
    wp (handle e) w0 (λ _ w',
      effectOf w' =
        {| eff_roomUsers := out_roomUsers o; eff_userRoomMap := out_userRoomMap o;
           eff_rooms := out_rooms o; eff_outbox := outbox w0 ++ out_emitted o |}).
Proof.
  destruct 1; intros w0 H1 H2 H3.
  - from_spec connection_spec H1 H2 H3.
  - from_spec create_room_spec H1 H2 H3.
  - from_spec join_room_missing H1 H2 H3.
  - from_spec join_room_rejected H1 H2 H3.
  - from_spec join_room_admitted H1 H2 H3.
  - cbn [handle]. eapply wp_pure.
    + apply leave_room_noop. unfold currentRoom. by rewrite H1, H2.
    + unfold effectOf, unchanged. cbn. by rewrite H1, H2, H3, app_nil_r.
  - from_spec leave_room_spec H1 H2 H3.
  - from_spec on_offer_spec H1 H2 H3.
  - from_spec on_answer_spec H1 H2 H3.
  - from_spec on_ice_candidate_spec H1 H2 H3.
  - from_spec teardown_idle H1 H2 H3.
  - from_spec teardown_spec H1 H2 H3.
  - cbn [handle]. eapply wp_mono; [apply tick_spec|].
    intros _ w' ->. unfold effectOf, unchanged. cbn. by rewrite H1, H2, H3, app_nil_r.
Qed.

(** Every event has a transition in every world. *)
Lemma transition_total e w : ∃ o, transition w e o.
Proof.
  destruct e as [id|id rnd|id roomId|id|id payload roomId|id payload roomId
                |id payload roomId|id|dt]; try (eexists; constructor; fail).
  - destruct (roomUsers w !! roomId) as [s|] eqn:E.
    + destruct (decide (MAX_ROOM_CAPACITY < size s)).
      * eexists. by eapply t_join_rejected.
      * eexists. eapply t_join_admitted; [done | lia].
    + eexists. by eapply t_join_missing.
  - destruct (currentRoom w id) as [[roomId s]|] eqn:E.
    + eexists. by eapply t_leave.
    + eexists. by eapply t_leave_noop.
  - destruct (currentRoom w id) as [[roomId s]|] eqn:E.
    + eexists. by eapply t_teardown.
    + eexists. by eapply t_teardown_idle.
Qed.

(** Every handler returns, and what the event did is one of the
    transitions. *)
Lemma step_transition e w :
  transition w e (outcomeOf e w)
  ∧ handle e w = (Resolved (), step e w)
  ∧ outbox (step e w) = outbox w ++ emitted e w.
Proof.
  destruct (transition_total e w) as [o T].
  destruct (outcome_from_spec e w o (transition_sound w e o T)) as (-> & ? & ?).
  done.
Qed.

End ServerFacts.

(* ===================================================================== *)
(** ** Room lifecycle, relay and the store *)
(* ===================================================================== *)

Module RoomLifecycle.
Import Clock Analytics Server Containment ServerFacts.
#[local] Arguments Nat.ltb : simpl never.
#[local] Arguments Nat.eqb : simpl never.
#[local] Arguments generateRoomId : simpl never.
#[local] Arguments pretty : simpl never.

Lemma runEvents_snoc es e w : runEvents (es ++ [e]) w = step e (runEvents es w).
Proof. unfold runEvents. by rewrite foldl_app. Qed.

(** The transition an event takes, with the world after it spelled out. *)
Lemma step_outcome e w :
  ∃ o, transition w e o
       ∧ roomUsers (step e w) = out_roomUsers o
       ∧ userRoomMap (step e w) = out_userRoomMap o
       ∧ rooms (step e w) = out_rooms o
       ∧ emitted e w = out_emitted o.
Proof.
  destruct (step_transition e w) as (T & _ & _).
  exists (outcomeOf e w). by repeat split.
Qed.

(** No registered room is empty. *)
Definition noEmptyRoom (w : world) : Prop :=
  ∀ roomId s, roomUsers w !! roomId = Some s → s ≠ ∅.

Lemma size_zero_empty (s : gset string) : Nat.eqb (size s) 0 = true → s = ∅.
Proof. intros H%Nat.eqb_eq. by apply leibniz_equiv, size_empty_iff. Qed.

Lemma size_nonzero_nonempty (s : gset string) : Nat.eqb (size s) 0 = false → s ≠ ∅.
Proof. intros H%Nat.eqb_neq ->. apply H, size_empty. Qed.

Lemma last_member_singleton (s : gset string) (id : string) :
  s ≠ ∅ → s ∖ {[id]} = ∅ → s = {[id]}.
Proof.
  intros Hne Hlast.
  assert (Hall : ∀ x, x ∈ s → x = id).
  { intros x Hx. destruct (decide (x = id)) as [|Hx']; [done|].
    assert (x ∈ s ∖ {[id]}) as Hin by (apply elem_of_difference; set_solver).
    rewrite Hlast in Hin. by apply not_elem_of_empty in Hin. }
  destruct (set_choose_L s Hne) as [y Hy]. pose proof (Hall y Hy) as ->.
  apply set_eq. intros x. rewrite elem_of_singleton. split; [apply Hall | by intros ->].
Qed.

Lemma currentRoom_registered w id roomId s :
  currentRoom w id = Some (roomId, s) → roomUsers w !! roomId = Some s.
Proof.
  unfold currentRoom. destruct (userRoomMap w !! id) as [r|]; [|done].
  destruct (truthy r); [|done]. destruct (roomUsers w !! r) eqn:E; [|done].
  by intros [= <- <-].
Qed.

Lemma noEmptyRoom_step e w : noEmptyRoom w → noEmptyRoom (step e w).
Proof.
  intros Hw. destruct (step_outcome e w) as (o & T & Hru & _).
  unfold noEmptyRoom. rewrite Hru. clear Hru.
  destruct T; cbn; try exact Hw; intros r0 s0.
  - (* create *)
    destruct (decide (roomId = r0)) as [->|Hne].
    + rewrite lookup_insert_eq. intros [= <-]. set_solver.
    + rewrite lookup_insert_ne by done. apply Hw.
  - (* join *)
    destruct (decide (roomId = r0)) as [->|Hne].
    + rewrite lookup_insert_eq. intros [= <-]. set_solver.
    + rewrite lookup_insert_ne by done. apply Hw.
  - (* leave *)
    destruct (Nat.eqb (size s') 0) eqn:Ez.
    + intros Hl. apply lookup_delete_Some in Hl as [_ Hl]. by eapply Hw.
    + destruct (decide (roomId = r0)) as [->|Hne].
      * rewrite lookup_insert_eq. intros [= <-]. by apply size_nonzero_nonempty.
      * rewrite lookup_insert_ne by done. apply Hw.
  - (* teardown *)
    destruct (Nat.eqb (size s') 0) eqn:Ez.
    + intros Hl. apply lookup_delete_Some in Hl as [_ Hl]. by eapply Hw.
    + destruct (decide (roomId = r0)) as [->|Hne].
      * rewrite lookup_insert_eq. intros [= <-]. by apply size_nonzero_nonempty.
      * rewrite lookup_insert_ne by done. apply Hw.
Qed.

Lemma noEmptyRoom_reachable es st fs t :
  noEmptyRoom (runEvents es (initial st fs t)).
Proof.
  induction es as [|e es IH] using rev_ind.
  - intros r s. cbn. by rewrite lookup_empty.
  - rewrite runEvents_snoc. by apply noEmptyRoom_step.
Qed.


(** *** Dismissal *)

Definition isDismissalOf (roomId : string) (em : emission) : bool :=
  match payload em with
  | room_dismissed r _ => String.eqb r roomId
  | _ => false
  end.

(** How many [room-dismissed] broadcasts for [roomId] a list of emissions
    holds. *)
Definition dismissals (roomId : string) (l : list emission) : nat :=
  length (List.filter (isDismissalOf roomId) l).

(** In every transition, a room is dismissed with one broadcast, or it is
    not dismissed and there is none. *)
Lemma transition_dismissals w e o roomId :
  transition w e o →
  (dismissals roomId (out_emitted o) = 1
   ∧ is_Some (roomUsers w !! roomId) ∧ out_roomUsers o !! roomId = None
   ∧ ∃ id s, (e = Leave_room id ∨ e = Disconnect id)
             ∧ currentRoom w id = Some (roomId, s) ∧ s ∖ {[id]} = ∅)
  ∨ (dismissals roomId (out_emitted o) = 0
     ∧ (is_Some (roomUsers w !! roomId) → is_Some (out_roomUsers o !! roomId))).
Proof.
  destruct 1; cbn; try (right; split; [reflexivity | tauto]).
  - right. split; [done|]. intros Hs.
    destruct (decide (roomId0 = roomId)) as [->|Hne];
      [rewrite lookup_insert_eq | rewrite lookup_insert_ne by done]; eauto.
  - right. split; [by destruct isFull|]. intros Hs.
    destruct (decide (roomId0 = roomId)) as [->|Hne];
      [rewrite lookup_insert_eq | rewrite lookup_insert_ne by done]; eauto.
  - destruct (Nat.eqb (size s') 0) eqn:Ez; unfold dismissals; cbn.
    + destruct (String.eqb_spec roomId0 roomId) as [->|Hne]; cbn.
      * left. split; [done|]. split; [rewrite (currentRoom_registered _ _ _ _ H); eauto|].
        split; [apply lookup_delete_eq|]. exists id, s. eauto using size_zero_empty.
      * right. split; [done|]. by rewrite lookup_delete_ne.
    + right. split; [done|]. intros Hs.
      destruct (decide (roomId0 = roomId)) as [->|Hne];
        [rewrite lookup_insert_eq | rewrite lookup_insert_ne by done]; eauto.
  - destruct (Nat.eqb (size s') 0) eqn:Ez; unfold dismissals; cbn.
    + destruct (String.eqb_spec roomId0 roomId) as [->|Hne]; cbn.
      * left. split; [done|]. split; [rewrite (currentRoom_registered _ _ _ _ H); eauto|].
        split; [apply lookup_delete_eq|]. exists id, s. eauto using size_zero_empty.
      * right. split; [done|]. by rewrite lookup_delete_ne.
    + right. split; [done|]. intros Hs.
      destruct (decide (roomId0 = roomId)) as [->|Hne];
        [rewrite lookup_insert_eq | rewrite lookup_insert_ne by done]; eauto.
Qed.

(** A leave or a teardown that removes the last member deletes the room. *)
Lemma last_member_deletes w e o id roomId s :
  transition w e o →
  e = Leave_room id ∨ e = Disconnect id →
  currentRoom w id = Some (roomId, s) → s ∖ {[id]} = ∅ →
  out_roomUsers o !! roomId = None.
Proof.
  intros T He Hcur Hlast.
  assert (Hsize : Nat.eqb (size (s ∖ {[id]})) 0 = true)
    by (rewrite Hlast, size_empty; reflexivity).
  destruct T; destruct He as [He|He]; try discriminate He; simplify_eq;
    subst s'; cbn; by rewrite Hsize, lookup_delete_eq.
Qed.

(** Handlers run one at a time, each to its end. In every state reached
    from the empty registries no registered room is empty; a leave or
    teardown that removes the last member of a room deletes the room in that
    transition; a room stops being registered only in such a transition,
    where its member set was a singleton; the transition that deletes a room
    emits exactly one [room-dismissed] broadcast for it, and no other
    transition emits any. *)
Theorem room_dismissed_with_last_member (es : list event) (st : store)
    (fs : list bool) (t : Z) (e : event) :
  let w := runEvents es (initial st fs t) in
  let w' := step e w in
  noEmptyRoom w ∧ noEmptyRoom w'
  ∧ (∀ id roomId s,
       e = Leave_room id ∨ e = Disconnect id →
       currentRoom w id = Some (roomId, s) → s ∖ {[id]} = ∅ →
       roomUsers w' !! roomId = None)
  ∧ (∀ roomId,
       is_Some (roomUsers w !! roomId) → roomUsers w' !! roomId = None →
       dismissals roomId (emitted e w) = 1
       ∧ ∃ id, roomUsers w !! roomId = Some {[id]}
               ∧ (e = Leave_room id ∨ e = Disconnect id))
  ∧ (∀ roomId,
       dismissals roomId (emitted e w) ≤ 1
       ∧ (dismissals roomId (emitted e w) = 1 →
          is_Some (roomUsers w !! roomId) ∧ roomUsers w' !! roomId = None)).
Proof.
  intros w w'.
  assert (Hw : noEmptyRoom w) by apply noEmptyRoom_reachable.
  destruct (step_outcome e w) as (o & T & Hru & _ & _ & Hem).
  fold w' in Hru. rewrite Hru, Hem.
  split; [exact Hw|]. split; [by apply noEmptyRoom_step|].
  split; [intros id roomId s; by apply last_member_deletes|].
  split.
  - intros roomId Hs Hgone.
    destruct (transition_dismissals w e o roomId T)
      as [(Hd & _ & _ & id & s & He & Hcur & Hlast)|(_ & Hkeep)].
    + split; [exact Hd|]. exists id. split; [|exact He].
      pose proof (currentRoom_registered _ _ _ _ Hcur) as Hreg.
      rewrite Hreg. f_equal.
      apply last_member_singleton; [by eapply Hw | done].
    + destruct (Hkeep Hs) as [? Hsome]. congruence.
  - intros roomId.
    destruct (transition_dismissals w e o roomId T)
      as [(Hd & Hs & Hgone & _)|(Hd & _)]; rewrite Hd; split; auto; lia.
Qed.


(** *** Occupancy *)

(** The bound the admission test keeps: a join is refused only when the
    occupancy is above [MAX_ROOM_CAPACITY]. *)
Definition atMostThree (w : world) : Prop :=
  ∀ roomId s, roomUsers w !! roomId = Some s → size s ≤ 3.

Lemma size_add_one (s : gset string) (id : string) : size ({[id]} ∪ s) ≤ S (size s).
Proof.
  rewrite size_union_alt, size_singleton.
  pose proof (subseteq_size (s ∖ {[id]}) s). apply le_n_S. apply H. set_solver.
Qed.

Lemma size_remove (s : gset string) (id : string) : size (s ∖ {[id]}) ≤ size s.
Proof. apply subseteq_size. set_solver. Qed.

Lemma atMostThree_step e w : atMostThree w → atMostThree (step e w).
Proof.
  intros Hw. destruct (step_outcome e w) as (o & T & Hru & _).
  unfold atMostThree. rewrite Hru. clear Hru.
  destruct T; cbn; try exact Hw; intros r0 s0.
  - destruct (decide (roomId = r0)) as [->|Hne].
    + rewrite lookup_insert_eq. intros [= <-]. rewrite size_singleton. lia.
    + rewrite lookup_insert_ne by done. apply Hw.
  - destruct (decide (roomId = r0)) as [->|Hne].
    + rewrite lookup_insert_eq. intros [= <-]. subst s'.
      pose proof (size_add_one s id). unfold MAX_ROOM_CAPACITY in *. lia.
    + rewrite lookup_insert_ne by done. apply Hw.
  - pose proof (currentRoom_registered _ _ _ _ H) as Hreg.
    destruct (Nat.eqb (size s') 0).
    + intros Hl. apply lookup_delete_Some in Hl as [_ Hl]. by eapply Hw.
    + destruct (decide (roomId = r0)) as [->|Hne].
      * rewrite lookup_insert_eq. intros [= <-]. subst s'.
        pose proof (size_remove s id). pose proof (Hw _ _ Hreg). lia.
      * rewrite lookup_insert_ne by done. apply Hw.
  - pose proof (currentRoom_registered _ _ _ _ H) as Hreg.
    destruct (Nat.eqb (size s') 0).
    + intros Hl. apply lookup_delete_Some in Hl as [_ Hl]. by eapply Hw.
    + destruct (decide (roomId = r0)) as [->|Hne].
      * rewrite lookup_insert_eq. intros [= <-]. subst s'.
        pose proof (size_remove s id). pose proof (Hw _ _ Hreg). lia.
      * rewrite lookup_insert_ne by done. apply Hw.
Qed.

(** Whatever the events, no room ever holds more than three members. *)
Lemma occupancy_at_most_three es st fs t roomId :
  occupancy (runEvents es (initial st fs t)) roomId ≤ 3.
Proof.
  assert (H : atMostThree (runEvents es (initial st fs t))).
  { induction es as [|e es IH] using rev_ind.
    - intros r s. cbn. by rewrite lookup_empty.
    - rewrite runEvents_snoc. by apply atMostThree_step. }
  unfold occupancy. destruct (roomUsers _ !! roomId) as [s|] eqn:E; cbn; [by eapply H | lia].
Qed.

(** Three sockets and the room the first one creates. *)
Definition firstRoom : nat → nat := λ _, 0.
Definition roomA : string := "AAAAAA".
Definition afterCreate : world :=
  runEvents [Connection "A"; Connection "B"; Connection "C"; Create_room "A" firstRoom]
    (initial emptyStore [] 0).
Definition afterJoin : world := step (Join_room "B" roomA) afterCreate.

Lemma firstRoom_id : generateRoomId firstRoom = roomA.
Proof. reflexivity. Qed.

(** C1. With two members in the room, a third join is admitted: the room
    then holds three members, and the joiner is told it has joined. *)
Theorem third_join_admitted :
  occupancy afterJoin roomA = 2
  ∧ occupancy (step (Join_room "C" roomA) afterJoin) roomA = 3
  ∧ members (step (Join_room "C" roomA) afterJoin) roomA = {["A"; "B"; "C"]}
  ∧ emitted (Join_room "C" roomA) afterJoin =
      [ send {["A"; "B"]} (user_joined "C" 3 2 true);
        send {["C"]} (room_joined roomA 3 2 true);
        send {["A"; "B"; "C"]}
          (room_full roomA 3 None "Room is now full. No more users can join.") ].
Proof. vm_compute. repeat split; reflexivity. Qed.

(** The second member of a room is told the room is not full, and no
    [room-full] broadcast follows. *)
Lemma second_join_payloads w id roomId a :
  roomUsers w !! roomId = Some {[a]} → id ≠ a →
  payload <$> emitted (Join_room id roomId) w =
    [ user_joined id 2 MAX_ROOM_CAPACITY false;
      room_joined roomId 2 MAX_ROOM_CAPACITY false ].
Proof.
  intros Hreg Hne. destruct (step_outcome (Join_room id roomId) w) as (o & T & _ & _ & _ & ->).
  inversion T as [| |? ? Hnone|? ? s Hs Hfull|? ? s Hs Hfree s' subs isFull| | | | | | | |];
    subst; rewrite Hreg in *; simplify_eq.
  - rewrite size_singleton in Hfull. unfold MAX_ROOM_CAPACITY in Hfull. lia.
  - assert (size s' = 2) as Hsz.
    { subst s'. rewrite size_union by set_solver. by rewrite !size_singleton. }
    subst isFull. rewrite Hsz. reflexivity.
Qed.

(** C4. When B joins the room that holds A alone, A receives [user-joined]
    and B receives [room-joined], both with occupancy 2 and [isFull] false,
    and nothing else is emitted: there is no [room-full] broadcast. *)
Theorem second_join_reports_not_full :
  members afterCreate roomA = {["A"]}
  ∧ emitted (Join_room "B" roomA) afterCreate =
      [ send {["A"]} (user_joined "B" 2 2 false);
        send {["B"]} (room_joined roomA 2 2 false) ].
Proof. vm_compute. repeat split; reflexivity. Qed.


(** *** Leaving and teardown without a room *)

(** C10. For a socket the connection registry holds no room for,
    [leave-room] returns without touching the world: the registries, the
    adapter and the store are as before and nothing is emitted, neither a
    [room-left] acknowledgment nor an error. *)
Theorem leave_without_room_is_noop (w : world) (id : string) :
  userRoomMap w !! id = None →
  handle (Leave_room id) w = (Resolved (), w)
  ∧ step (Leave_room id) w = w
  ∧ emitted (Leave_room id) w = [].
Proof.
  intros Hnone.
  assert (Hw : ∀ w0, userRoomMap w0 !! id = None → leave_room id w0 = (Resolved (), w0)).
  { intros w0 H0. apply leave_room_noop. unfold currentRoom. by rewrite H0. }
  unfold emitted, step. cbn [handle]. rewrite !Hw by done. done.
Qed.

Lemma leave_without_room_example :
  handle (Leave_room "B") afterCreate = (Resolved (), afterCreate)
  ∧ step (Leave_room "B") afterCreate = afterCreate
  ∧ emitted (Leave_room "B") afterCreate = [].
Proof. apply (leave_without_room_is_noop afterCreate "B"). vm_compute. reflexivity. Defined.

Lemma teardown_idle_unchanged (w : world) (id : string) :
  userRoomMap w !! id = None →
  handle (Disconnect id) w = (Resolved (), step (Disconnect id) w)
  ∧ roomUsers (step (Disconnect id) w) = roomUsers w
  ∧ userRoomMap (step (Disconnect id) w) = userRoomMap w
  ∧ emitted (Disconnect id) w = [].
Proof.
  intros Hnone.
  destruct (step_transition (Disconnect id) w) as (T & Hc & _).
  split; [exact Hc|].
  destruct (step_outcome (Disconnect id) w) as (o & To & -> & -> & _ & ->).
  inversion To as [| | | | | | | | | |? Hcur|? roomId s Hcur s' subs|]; subst; cbn.
  - by rewrite Hnone.
  - unfold currentRoom in Hcur. by rewrite Hnone in Hcur.
Qed.

(** Ids of rooms are non-empty strings wherever the registries hold them. *)
Definition roomIdsTruthy (w : world) : Prop :=
  (∀ roomId, is_Some (roomUsers w !! roomId) → truthy roomId = true)
  ∧ (∀ id roomId, userRoomMap w !! id = Some roomId → truthy roomId = true).

Lemma append_truthy (s c : string) : truthy c = true → truthy (s +:+ c) = true.
Proof.
  unfold truthy. destruct c as [|a c]; [done|]. intros _.
  induction s as [|b s IH]; done.
Qed.

Lemma charAt_truthy (s : string) (n : nat) :
  n < String.length s → truthy (charAt s n) = true.
Proof.
  revert n. induction s as [|a s IH]; intros n Hn; cbn in Hn; [lia|].
  destruct n as [|n]; [done|]. unfold charAt in *. cbn. apply IH. lia.
Qed.

Lemma generateRoomId_truthy rnd : truthy (generateRoomId rnd) = true.
Proof.
  unfold generateRoomId, ROOM_ID_LENGTH. cbn [generateRoomId_from].
  apply append_truthy, charAt_truthy, Nat.mod_upper_bound. done.
Qed.

Lemma roomIdsTruthy_step e w : roomIdsTruthy w → roomIdsTruthy (step e w).
Proof.
  intros [Hr Hu]. destruct (step_outcome e w) as (o & T & Hru & Hurm & _).
  unfold roomIdsTruthy. rewrite Hru, Hurm. clear Hru Hurm.
  destruct T; cbn; try (split; assumption).
  - split.
    + intros r0. destruct (decide (roomId = r0)) as [<-|Hne];
        [intros _; apply generateRoomId_truthy | rewrite lookup_insert_ne by done; apply Hr].
    + intros id0 r0. destruct (decide (id = id0)) as [<-|Hne];
        [rewrite lookup_insert_eq; intros [= <-]; apply generateRoomId_truthy
        | rewrite lookup_insert_ne by done; apply Hu].
  - assert (truthy roomId = true) by (apply Hr; eauto). split.
    + intros r0. destruct (decide (roomId = r0)) as [<-|Hne];
        [done | rewrite lookup_insert_ne by done; apply Hr].
    + intros id0 r0. destruct (decide (id = id0)) as [<-|Hne];
        [rewrite lookup_insert_eq; by intros [= <-]
        | rewrite lookup_insert_ne by done; apply Hu].
  - pose proof (currentRoom_registered _ _ _ _ H) as Hreg.
    assert (truthy roomId = true) by (apply Hr; eauto). split.
    + intros r0. destruct (Nat.eqb (size s') 0).
      * intros [x Hx]. apply lookup_delete_Some in Hx as [_ Hx]. apply Hr; eauto.
      * destruct (decide (roomId = r0)) as [<-|Hne];
          [done | rewrite lookup_insert_ne by done; apply Hr].
    + intros id0 r0 Hl. apply lookup_delete_Some in Hl as [_ Hl]. by eapply Hu.
  - split; [assumption|]. intros id0 r0.
    destruct (userRoomMap w !! id) as [r|]; [destruct (truthy r)|]; try apply Hu.
    intros Hl. apply lookup_delete_Some in Hl as [_ Hl]. by eapply Hu.
  - pose proof (currentRoom_registered _ _ _ _ H) as Hreg.
    assert (truthy roomId = true) by (apply Hr; eauto). split.
    + intros r0. destruct (Nat.eqb (size s') 0).
      * intros [x Hx]. apply lookup_delete_Some in Hx as [_ Hx]. apply Hr; eauto.
      * destruct (decide (roomId = r0)) as [<-|Hne];
          [done | rewrite lookup_insert_ne by done; apply Hr].
    + intros id0 r0 Hl. apply lookup_delete_Some in Hl as [_ Hl]. by eapply Hu.
Qed.

Lemma roomIdsTruthy_reachable es st fs t :
  roomIdsTruthy (runEvents es (initial st fs t)).
Proof.
  induction es as [|e es IH] using rev_ind.
  - split; cbn; [intros r [x Hx]|intros id r Hx]; by rewrite lookup_empty in Hx.
  - rewrite runEvents_snoc. by apply roomIdsTruthy_step.
Qed.

(** After a teardown the connection registry holds no room for the socket. *)
Lemma teardown_forgets w id :
  roomIdsTruthy w → userRoomMap (step (Disconnect id) w) !! id = None.
Proof.
  intros [_ Hu].
  destruct (step_outcome (Disconnect id) w) as (o & To & _ & -> & _).
  inversion To as [| | | | | | | | | |? Hcur|? roomId s Hcur s' subs|]; subst; cbn.
  - destruct (userRoomMap w !! id) as [r|] eqn:E; [|done].
    rewrite (Hu _ _ E). apply lookup_delete_eq.
  - apply lookup_delete_eq.
Qed.

(** A second teardown of the same socket, at any later moment at which the
    socket has not created or joined a room again, changes nothing; in
    particular right after the first. *)
Lemma teardown_twice es st fs t id :
  let w := runEvents (es ++ [Disconnect id]) (initial st fs t) in
  roomUsers (step (Disconnect id) w) = roomUsers w
  ∧ userRoomMap (step (Disconnect id) w) = userRoomMap w
  ∧ emitted (Disconnect id) w = [].
Proof.
  intros w. apply teardown_idle_unchanged. subst w. rewrite runEvents_snoc.
  apply teardown_forgets, roomIdsTruthy_reachable.
Qed.

(** The events by which a socket enters a room. *)
Definition enters (id : string) (e : event) : Prop :=
  match e with
  | Create_room i _ | Join_room i _ => i = id
  | _ => False
  end.

Lemma step_keeps_no_room e w id :
  ¬ enters id e → userRoomMap w !! id = None → userRoomMap (step e w) !! id = None.
Proof.
  intros He Hw. destruct (step_outcome e w) as (o & T & _ & -> & _).
  destruct T; cbn in *; try exact Hw.
  - by rewrite lookup_insert_ne.
  - by rewrite lookup_insert_ne.
  - by rewrite lookup_delete_None; right.
  - destruct (userRoomMap w !! id0) as [r|]; [destruct (truthy r)|]; try done.
    by rewrite lookup_delete_None; right.
  - by rewrite lookup_delete_None; right.
Qed.

(** A socket that never created or joined a room has no room in the
    connection registry. *)
Lemma never_entered_no_room es st fs t id :
  Forall (λ e, ¬ enters id e) es →
  userRoomMap (runEvents es (initial st fs t)) !! id = None.
Proof.
  induction es as [|e es IH] using rev_ind; intros Hes.
  - cbn. apply lookup_empty.
  - apply Forall_app in Hes as [Hes He]. apply Forall_inv in He.
    rewrite runEvents_snoc. apply step_keeps_no_room; [exact He | by apply IH].
Qed.

(** A socket that has left the room it was in has no room in the connection
    registry. *)
Lemma left_no_room w id roomId s :
  currentRoom w id = Some (roomId, s) →
  userRoomMap (step (Leave_room id) w) !! id = None.
Proof.
  intros Hcur. destruct (step_outcome (Leave_room id) w) as (o & T & _ & -> & _).
  inversion T as [| | | | |? Hnone|? r0 s0 Hcur0 s' subs| | | | | |]; subst; cbn.
  - congruence.
  - apply lookup_delete_eq.
Qed.

(** C7. Teardown of a socket the connection registry holds no room for
    (it never created or joined one, it has left, or it was torn down
    before): the handlers return, the room registry and the connection
    registry are as before, and nothing is emitted. *)
Theorem teardown_without_room_is_noop (w : world) (id : string) :
  userRoomMap w !! id = None →
  handle (Disconnect id) w = (Resolved (), step (Disconnect id) w)
  ∧ roomUsers (step (Disconnect id) w) = roomUsers w
  ∧ userRoomMap (step (Disconnect id) w) = userRoomMap w
  ∧ emitted (Disconnect id) w = [].
Proof. apply teardown_idle_unchanged. Qed.

(** The hypothesis holds for a socket that was torn down already. *)
Lemma teardown_without_room_example :
  let w := step (Disconnect "A") afterJoin in
  handle (Disconnect "A") w = (Resolved (), step (Disconnect "A") w)
  ∧ roomUsers (step (Disconnect "A") w) = roomUsers w
  ∧ userRoomMap (step (Disconnect "A") w) = userRoomMap w
  ∧ emitted (Disconnect "A") w = [].
Proof.
  apply (teardown_without_room_is_noop (step (Disconnect "A") afterJoin) "A").
  vm_compute. reflexivity.
Defined.

End RoomLifecycle.

Module Relay.
Import Clock Analytics Server Containment ServerFacts RoomLifecycle.
#[local] Arguments Nat.ltb : simpl never.
#[local] Arguments Nat.eqb : simpl never.
#[local] Arguments generateRoomId : simpl never.
#[local] Arguments pretty : simpl never.







End Relay.

Module Persistence.
Import Clock Analytics Server Containment ServerFacts RoomLifecycle.

(** The recording operations of the analytics module. *)
Inductive recording :=
  | TrackRoomCreated (now : Z) (roomId userId : string)
  | TrackRoomJoined (now : Z) (roomId userId : string) (userCount : nat)
  | TrackUserLeft (now : Z) (roomId userId : string) (remainingUsers : nat)
  | TrackRoomClosed (now : Z) (roomId : string)
  | TrackSignalingEvent (roomId eventType : string)
  | LogError (now : Z) (errorType errorMessage : string) (metadata : Metadata)
  | IncrementDailyStat (now : Z) (field : string) (amount : Z)
  | IncrementHourlyStat (now : Z) (field : string) (amount : Z).

Definition perform (r : recording) : prog req unit :=
  match r with
  | TrackRoomCreated now roomId userId => trackRoomCreated now roomId userId
  | TrackRoomJoined now roomId userId userCount => trackRoomJoined now roomId userId userCount
  | TrackUserLeft now roomId userId remainingUsers =>
      trackUserLeft now roomId userId remainingUsers
  | TrackRoomClosed now roomId => trackRoomClosed now roomId
  | TrackSignalingEvent roomId eventType => trackSignalingEvent roomId eventType
  | LogError now errorType errorMessage metadata =>
      logError now errorType errorMessage metadata
  | IncrementDailyStat now field amount => incrementDailyStat now field amount
  | IncrementHourlyStat now field amount => incrementHourlyStat now field amount
  end.





End Persistence.

(* ===================================================================== *)
(** ** Usage counters under concurrent calls *)
(* ===================================================================== *)

Module Counters.
Import Clock Analytics Containment Concurrent.
Local Open Scope Z_scope.

(** *** The daily counter *)

(** [incrementDailyStat] is one call on the store, the upsert with [$inc],
    after which it returns whatever the answer. *)
Lemma incrementDailyStat_one_call now field amount :
  ∃ k, incrementDailyStat now field amount
         = Call (DailyStats_updateOne (startOfDay now) field amount) k
       ∧ ∀ r, k r = Ret ().
Proof.
  eexists. split; [reflexivity|]. intros [[]|e]; reflexivity.
Qed.

Lemma dailyValue_updateOne st day field amount :
  dailyValue (exec (DailyStats_updateOne day field amount) st).2 day field
  = dailyValue st day field + amount.
Proof.
  unfold dailyValue. cbn. rewrite lookup_insert_eq. cbn.
  unfold counter at 1. cbn. rewrite lookup_insert_eq. cbn.
  destruct (dailyStats st !! day); cbn; [done|].
  unfold counter. cbn. by rewrite lookup_empty.
Qed.

Lemma advance_incrementDailyStat now field amount st :
  advance (incrementDailyStat now field amount) st
  = (Ret (), (exec (DailyStats_updateOne (startOfDay now) field amount) st).2).
Proof. reflexivity. Qed.

(** The calls of a pool that have returned. *)
Definition settledCount (ps : list (prog req unit)) : nat :=
  length (List.filter settled ps).

Lemma settledCount_insert ps i p p' :
  ps !! i = Some p →
  settledCount (<[i := p']> ps)
  = (settledCount ps + (if settled p' then 1 else 0) - (if settled p then 1 else 0))%nat.
Proof.
  intros Hi. unfold settledCount.
  rewrite <- (take_drop_middle ps i p Hi) at 2.
  rewrite insert_take_drop by (by eapply lookup_lt_Some).
  rewrite !List.filter_app, !length_app. cbn.
  destruct (settled p), (settled p'); cbn; lia.
Qed.

Lemma settledCount_all ps :
  allSettled ps = true → settledCount ps = length ps.
Proof.
  unfold allSettled, settledCount. induction ps as [|p ps IH]; cbn; [done|].
  intros [Hp Hps]%andb_prop. rewrite Hp. cbn. by rewrite IH.
Qed.

(** A pool of daily increments of one field on one day, some of them
    already returned. *)
Definition dailyPool (day : Z) (field : string) (ps : list (prog req unit)) : Prop :=
  Forall (λ p, p = Ret () ∨ ∃ now, startOfDay now = day ∧ p = incrementDailyStat now field 1) ps.

Lemma dailyPool_fresh day field nows :
  Forall (λ now, startOfDay now = day) nows →
  dailyPool day field (map (λ now, incrementDailyStat now field 1) nows).
Proof.
  induction 1 as [|now nows Hday _ IH]; cbn; constructor; [|exact IH].
  right. eauto.
Qed.

Lemma interleave_length schedule ps st :
  length (interleave schedule ps st).1 = length ps.
Proof.
  revert ps st. induction schedule as [|i schedule IH]; intros ps st; cbn; [done|].
  destruct (ps !! i) as [p|]; [|apply IH]. destruct (advance p st).
  rewrite IH. apply length_insert.
Qed.

Lemma settledCount_fresh field nows :
  settledCount (map (λ now, incrementDailyStat now field 1) nows) = 0%nat.
Proof. unfold settledCount. induction nows; done. Qed.

Lemma interleave_daily day field schedule ps st :
  dailyPool day field ps →
  let '(ps', st') := interleave schedule ps st in
  dailyPool day field ps'
  ∧ dailyValue st' day field - Z.of_nat (settledCount ps')
    = dailyValue st day field - Z.of_nat (settledCount ps).
Proof.
  revert ps st. induction schedule as [|i schedule IH]; intros ps st Hps; cbn.
  - done.
  - destruct (ps !! i) as [p|] eqn:Hi; [|by apply IH].
    pose proof (proj1 (Forall_lookup _ _) Hps i p Hi) as [->|(now & Hday & ->)].
    + cbn. rewrite list_insert_id by done. by apply IH.
    + rewrite advance_incrementDailyStat.
      set (st1 := (exec _ st).2).
      assert (Hps1 : dailyPool day field (<[i := Ret ()]> ps)).
      { apply Forall_insert; [done | by left]. }
      specialize (IH (<[i := Ret ()]> ps) st1 Hps1).
      destruct (interleave schedule (<[i := Ret ()]> ps) st1) as [ps' st'].
      destruct IH as [Hps' Hval]. split; [done|]. rewrite Hval.
      subst st1. rewrite Hday, dailyValue_updateOne.
      rewrite (settledCount_insert ps i _ _ Hi). cbn. lia.
Qed.

(** C9. The daily increment is a single store call, the upsert with
    [$inc] on the document of the day. Any number of such increments of 1
    for one day and one field, in flight together and served in any order
    until all have returned, add exactly their number to the stored
    counter. *)
Theorem daily_increments_conserved (nows : list Z) (day : Z) (field : string)
    (schedule : list nat) (st : store) :
  Forall (λ now, startOfDay now = day) nows →
  allSettled (interleave schedule
                (map (λ now, incrementDailyStat now field 1) nows) st).1 = true →
  (∀ now amount, ∃ k,
     incrementDailyStat now field amount
       = Call (DailyStats_updateOne (startOfDay now) field amount) k
     ∧ ∀ r, k r = Ret ())
  ∧ dailyValue (interleave schedule
                  (map (λ now, incrementDailyStat now field 1) nows) st).2 day field
    = dailyValue st day field + Z.of_nat (length nows).
Proof.
  intros Hnows Hall. split; [intros; apply incrementDailyStat_one_call|].
  pose proof (interleave_daily day field schedule _ st (dailyPool_fresh day field nows Hnows))
    as H.
  pose proof (interleave_length schedule
                (map (λ now, incrementDailyStat now field 1) nows) st) as Hlen.
  destruct (interleave schedule _ st) as [ps' st'].
  destruct H as [_ Hval]. cbn [fst snd] in *.
  rewrite (settledCount_all _ Hall), Hlen, length_map, settledCount_fresh in Hval. lia.
Qed.

Lemma daily_increments_example :
  (∀ now amount, ∃ k,
     incrementDailyStat now "roomsCreated" amount
       = Call (DailyStats_updateOne (startOfDay now) "roomsCreated" amount) k
     ∧ ∀ r, k r = Ret ())
  ∧ dailyValue (interleave [2; 0; 1]%nat
                  (map (λ now, incrementDailyStat now "roomsCreated" 1) [5; 1000; 86399999])
                  emptyStore).2 0 "roomsCreated"
    = dailyValue emptyStore 0 "roomsCreated" + Z.of_nat (length [5; 1000; 86399999]).
Proof.
  apply (daily_increments_conserved [5; 1000; 86399999] 0 "roomsCreated" [2; 0; 1]%nat emptyStore).
  - repeat constructor.
  - vm_compute. reflexivity.
Defined.

(** *** The hourly bucket *)

Definition noon : Z := 12 * msPerHour.

(** C2. Three hourly increments of one bucket in flight together. The
    first runs alone and creates the bucket; the other two each read the
    document before either writes it back. All three return, and the stored
    value is 2: one update is lost. Served one after the other, the same
    three calls store 3. *)
Theorem hourly_increment_loses_update :
  let calls := replicate 3 (incrementHourlyStat noon "connections" 1) in
  let raced := interleave [0; 0; 0; 1; 2; 1; 2]%nat calls emptyStore in
  let serial := interleave [0; 0; 0; 1; 1; 2; 2]%nat calls emptyStore in
  allSettled raced.1 = true
  ∧ hourlyValue raced.2 (startOfDay noon) (getHours noon) "connections" = 2
  ∧ allSettled serial.1 = true
  ∧ hourlyValue serial.2 (startOfDay noon) (getHours noon) "connections" = 3.
Proof. vm_compute. repeat split; reflexivity. Qed.

(** Two first increments of an hour on a day without a document: both find
    no document, the second [create] violates the unique index on the date
    and its increment is dropped in the [catch]. *)
Lemma hourly_first_increments_collide :
  let calls := replicate 2 (incrementHourlyStat noon "connections" 1) in
  let raced := interleave [0; 1; 0; 1; 0]%nat calls emptyStore in
  allSettled raced.1 = true
  ∧ hourlyValue raced.2 (startOfDay noon) (getHours noon) "connections" = 1%Z.
Proof. vm_compute. split; reflexivity. Qed.

(** The update is a read of the document followed, in a later store call,
    by the write of what was computed in memory from it. *)
Lemma incrementHourlyStat_reads_then_writes now field amount :
  ∃ k, incrementHourlyStat now field amount = Call (DailyStats_findOne (startOfDay now)) k
       ∧ ∀ d, ∃ m k',
           k (Resolved (Some d)) = Call (DailyStats_save (ds_date d) (ds_version d) m) k'.
Proof.
  eexists. split; [reflexivity|]. intros d. cbn.
  destruct (list_find _ (ds_hourlyBreakdown d)) as [[i h]|]; cbn; eauto.
Qed.

End Counters.

(* ===================================================================== *)
(** ** Room closure is counted once a day *)
(* ===================================================================== *)

Module Closure.
Import Clock ClockFacts Analytics Containment Concurrent Counters.
Local Open Scope Z_scope.

(** *** Sequential runs, piece by piece *)

Lemma run_bind {A B} (p : prog req A) (f : A → prog req B) st fs :
  run (p ≫= f) st fs
  = match run p st fs with
    | (Resolved a, st', fs') => run (f a) st' fs'
    | (Rejected e, st', fs') => (Rejected e, st', fs')
    end.
Proof.
  revert st fs. induction p as [a|e|X q k IH]; intros st fs; cbn; [done..|].
  destruct fs as [|[] fs]; [destruct (exec q st)| |destruct (exec q st)]; apply IH.
Qed.

Lemma run_try_catch {A} (p : prog req A) h st fs :
  run (try_catch p h) st fs
  = match run p st fs with
    | (Resolved a, st', fs') => (Resolved a, st', fs')
    | (Rejected e, st', fs') => run (h e) st' fs'
    end.
Proof.
  revert st fs. induction p as [a|e|X q k IH]; intros st fs; cbn; [done..|].
  destruct fs as [|[] fs]; [destruct (exec q st)| |destruct (exec q st)]; apply IH.
Qed.

(** *** Room closure *)

Definition closedEvent (now : Z) (roomId : string) : RoomEvent :=
  {| ev_roomId := roomId; ev_eventType := "closed"; ev_userId := "system";
     ev_timestamp := now; ev_userCount := 0 |}.

(** What [RoomEvent.exists] answers in [trackRoomClosed]. *)
Definition closedSince (st : store) (roomId : string) (since : Z) : bool :=
  existsb (λ e, String.eqb (ev_roomId e) roomId
                && String.eqb (ev_eventType e) "closed"
                && (since <=? ev_timestamp e)) (roomEvents st).

Definition recordClosed (now : Z) (roomId : string) (st : store) : store :=
  withRoomEvents st (roomEvents st ++ [closedEvent now roomId]).

Definition countCompleted (now : Z) (st : store) : store :=
  (exec (DailyStats_updateOne (startOfDay now) "roomsCompleted" 1) st).2.

(** The store after [trackRoomClosed], whatever calls failed: nothing was
    written; or no closure of the room was on record since midnight and the
    event was recorded, with or without the counter incremented. *)
Lemma run_trackRoomClosed now roomId st fs :
  let st' := (run (trackRoomClosed now roomId) st fs).1.2 in
  st' = st
  ∨ (closedSince st roomId (startOfDay now) = false
     ∧ (st' = recordClosed now roomId st
        ∨ st' = countCompleted now (recordClosed now roomId st))).
Proof.
  unfold trackRoomClosed, incrementDailyStat. cbn.
  fold (closedSince st roomId (startOfDay now)).
  destruct fs as [|[] fs]; cbn; auto;
    destruct (closedSince st roomId (startOfDay now)) eqn:E; cbn; auto;
    destruct fs as [|[] fs]; cbn; auto;
    destruct fs as [|[] fs]; cbn; auto.
Qed.


Definition leftEvent (now : Z) (roomId userId : string) (remainingUsers : nat) : RoomEvent :=
  {| ev_roomId := roomId; ev_eventType := "user_left"; ev_userId := userId;
     ev_timestamp := now; ev_userCount := remainingUsers |}.

Definition recordLeft (now : Z) (roomId userId : string) (remainingUsers : nat)
    (st : store) : store :=
  withRoomEvents st (roomEvents st ++ [leftEvent now roomId userId remainingUsers]).

(** The store after [trackUserLeft]: the departure is recorded or not, and
    when nobody remains the closure is tracked from there. *)
Lemma run_trackUserLeft now roomId userId remainingUsers st fs :
  let st' := (run (trackUserLeft now roomId userId remainingUsers) st fs).1.2 in
  ∃ st1, (st1 = st ∨ st1 = recordLeft now roomId userId remainingUsers st)
    ∧ (st' = st1
       ∨ (closedSince st1 roomId (startOfDay now) = false
          ∧ (st' = recordClosed now roomId st1
             ∨ st' = countCompleted now (recordClosed now roomId st1)))).
Proof.
  intros st'. subst st'. unfold trackUserLeft.
  rewrite run_try_catch, run_bind.
  assert (Hcreate :
    ∃ fs1, run (await (RoomEvent_create (leftEvent now roomId userId remainingUsers))) st fs
           = (Resolved (), recordLeft now roomId userId remainingUsers st, fs1)
         ∨ ∃ e, run (await (RoomEvent_create (leftEvent now roomId userId remainingUsers))) st fs
                = (Rejected e, st, fs1)).
  { destruct fs as [|[] fs]; cbn; eauto. }
  destruct Hcreate as [fs1 [Hc|[e Hc]]]; unfold leftEvent in Hc; rewrite Hc;
    cbv beta iota.
  - exists (recordLeft now roomId userId remainingUsers st). split; [by right|].
    destruct (Nat.eqb remainingUsers 0).
    + pose proof (run_trackRoomClosed now roomId
                    (recordLeft now roomId userId remainingUsers st) fs1) as H.
      cbv zeta in H.
      destruct (run (trackRoomClosed now roomId) _ fs1) as [[[[]|e] st2] fs2];
        cbn [fst snd] in H; exact H.
    + by left.
  - exists st. split; [by left|]. by left.
Qed.

(** *** Counting closures *)

Definition isClosedOn (roomId : string) (day : Z) (e : RoomEvent) : bool :=
  String.eqb (ev_roomId e) roomId
  && String.eqb (ev_eventType e) "closed"
  && (startOfDay (ev_timestamp e) =? day).

Definition isClosedDay (day : Z) (e : RoomEvent) : bool :=
  String.eqb (ev_eventType e) "closed" && (startOfDay (ev_timestamp e) =? day).

(** Closure events on record for a room and a day. *)
Definition closedCount (st : store) (roomId : string) (day : Z) : nat :=
  length (List.filter (isClosedOn roomId day) (roomEvents st)).

(** Closure events on record for a day, all rooms together. *)
Definition closedOnDay (st : store) (day : Z) : nat :=
  length (List.filter (isClosedDay day) (roomEvents st)).

(** The [roomsCompleted] counter of a day. *)
Definition completed (st : store) (day : Z) : Z := dailyValue st day "roomsCompleted".

(** From one store to a later one: a room has at most one closure a day
    unless it had more before, closures are not removed, and the counter of a
    day grows by no more than the closures recorded for that day. *)
Definition closesOnce (st st' : store) : Prop :=
  (∀ roomId day, (closedCount st' roomId day ≤ Nat.max 1 (closedCount st roomId day))%nat)
  ∧ (∀ day, (closedOnDay st day ≤ closedOnDay st' day)%nat
            ∧ completed st' day - completed st day
              ≤ Z.of_nat (closedOnDay st' day) - Z.of_nat (closedOnDay st day)).

Lemma closesOnce_refl st : closesOnce st st.
Proof. split; intros; lia. Qed.

Lemma closesOnce_trans st1 st2 st3 :
  closesOnce st1 st2 → closesOnce st2 st3 → closesOnce st1 st3.
Proof.
  intros [Ha Hb] [Hc Hd]. split.
  - intros r d. specialize (Ha r d). specialize (Hc r d). lia.
  - intros d. specialize (Hb d). specialize (Hd d). lia.
Qed.

Lemma closedSince_false_count st roomId now :
  closedSince st roomId (startOfDay now) = false →
  closedCount st roomId (startOfDay now) = 0%nat.
Proof.
  unfold closedSince, closedCount.
  induction (roomEvents st) as [|e l IH]; cbn; [done|].
  intros [He Hl]%orb_false_elim. rewrite <- (IH Hl).
  unfold isClosedOn.
  destruct (String.eqb (ev_roomId e) roomId); [|done].
  destruct (String.eqb (ev_eventType e) "closed"); [|done]. cbn in *.
  destruct (Z.eqb_spec (startOfDay (ev_timestamp e)) (startOfDay now)) as [Heq|]; [|done].
  pose proof (startOfDay_le (ev_timestamp e)). rewrite Heq in *.
  apply Z.leb_gt in He. lia.
Qed.

Lemma closesOnce_recordLeft now roomId userId remainingUsers st :
  closesOnce st (recordLeft now roomId userId remainingUsers st).
Proof.
  assert (Hc : ∀ r d, closedCount (recordLeft now roomId userId remainingUsers st) r d
                      = closedCount st r d).
  { intros. unfold closedCount. cbn. rewrite List.filter_app, length_app. cbn.
    unfold isClosedOn. cbn. rewrite andb_false_r. cbn. lia. }
  assert (Hd : ∀ d, closedOnDay (recordLeft now roomId userId remainingUsers st) d
                    = closedOnDay st d).
  { intros. unfold closedOnDay. cbn. rewrite List.filter_app, length_app. cbn. lia. }
  split; intros; rewrite ?Hc, ?Hd; unfold completed, dailyValue; cbn; lia.
Qed.

Lemma closedCount_recordClosed now roomId st r d :
  closedCount (recordClosed now roomId st) r d
  = (closedCount st r d
     + if isClosedOn r d (closedEvent now roomId) then 1 else 0)%nat.
Proof.
  unfold closedCount. cbn. rewrite List.filter_app, length_app. cbn.
  by destruct (isClosedOn r d (closedEvent now roomId)).
Qed.

Lemma closedOnDay_recordClosed now roomId st d :
  closedOnDay (recordClosed now roomId st) d
  = (closedOnDay st d + if (startOfDay now =? d)%Z then 1 else 0)%nat.
Proof.
  unfold closedOnDay. cbn. rewrite List.filter_app, length_app. cbn.
  unfold isClosedDay. cbn. by destruct (startOfDay now =? d).
Qed.

Lemma closesOnce_recordClosed now roomId st :
  closedSince st roomId (startOfDay now) = false →
  closesOnce st (recordClosed now roomId st).
Proof.
  intros Hs. pose proof (closedSince_false_count _ _ _ Hs) as Hz. split.
  - intros r d. rewrite closedCount_recordClosed.
    destruct (isClosedOn r d (closedEvent now roomId)) eqn:E; [|lia].
    unfold isClosedOn in E. cbn in E.
    apply andb_prop in E as [[Hr%String.eqb_eq _]%andb_prop Hd%Z.eqb_eq].
    subst. rewrite Hz. lia.
  - intros d. rewrite closedOnDay_recordClosed. unfold completed, dailyValue. cbn.
    destruct (startOfDay now =? d); lia.
Qed.

Lemma completed_countCompleted now st d :
  completed (countCompleted now st) d
  = completed st d + if startOfDay now =? d then 1 else 0.
Proof.
  unfold completed, countCompleted.
  destruct (Z.eqb_spec (startOfDay now) d) as [<-|Hne].
  - apply (dailyValue_updateOne st (startOfDay now) "roomsCompleted" 1).
  - unfold dailyValue. cbn. rewrite lookup_insert_ne by done. lia.
Qed.

Lemma closesOnce_countCompleted now roomId st :
  closedSince st roomId (startOfDay now) = false →
  closesOnce st (countCompleted now (recordClosed now roomId st)).
Proof.
  intros Hs. pose proof (closesOnce_recordClosed now roomId st Hs) as [Ha Hb]. split.
  - exact Ha.
  - intros d. specialize (Hb d). rewrite completed_countCompleted.
    change (closedOnDay (countCompleted now (recordClosed now roomId st)) d)
      with (closedOnDay (recordClosed now roomId st) d).
    rewrite closedOnDay_recordClosed in *. unfold completed, dailyValue in *. cbn in *.
    destruct (startOfDay now =? d); lia.
Qed.


Lemma closesOnce_trackRoomClosed now roomId st fs :
  closesOnce st (run (trackRoomClosed now roomId) st fs).1.2.
Proof.
  destruct (run_trackRoomClosed now roomId st fs) as [->|[Hs [->| ->]]].
  - apply closesOnce_refl.
  - by apply closesOnce_recordClosed.
  - by apply closesOnce_countCompleted.
Qed.

Lemma closesOnce_trackUserLeft now roomId userId remainingUsers st fs :
  closesOnce st (run (trackUserLeft now roomId userId remainingUsers) st fs).1.2.
Proof.
  destruct (run_trackUserLeft now roomId userId remainingUsers st fs)
    as (st1 & Hst1 & Hst').
  apply (closesOnce_trans _ st1).
  - destruct Hst1 as [->| ->]; [apply closesOnce_refl | apply closesOnce_recordLeft].
  - destruct Hst' as [->|[Hs [->| ->]]].
    + apply closesOnce_refl.
    + by apply closesOnce_recordClosed.
    + by apply closesOnce_countCompleted.
Qed.

(** A closure already on record for the room since midnight: the call
    writes nothing. *)
Lemma repeat_closure_suppressed now roomId st fs :
  (1 ≤ closedCount st roomId (startOfDay now))%nat →
  (run (trackRoomClosed now roomId) st fs).1.2 = st.
Proof.
  intros Hc. destruct (run_trackRoomClosed now roomId st fs) as [H|[Hs _]]; [done|].
  rewrite (closedSince_false_count _ _ _ Hs) in Hc. lia.
Qed.

(** The calls that can record a closure, as the server makes them. *)
Inductive closing :=
  | UserLeft (now : Z) (roomId userId : string) (remainingUsers : nat)
  | RoomClosed (now : Z) (roomId : string).

Definition track (c : closing) : prog req unit :=
  match c with
  | UserLeft now roomId userId remainingUsers =>
      trackUserLeft now roomId userId remainingUsers
  | RoomClosed now roomId => trackRoomClosed now roomId
  end.

(** The calls run one after the other. *)
Fixpoint trackAll (cs : list closing) (st : store) (fs : list bool) : store * list bool :=
  match cs with
  | [] => (st, fs)
  | c :: cs' =>
      let '(_, st', fs') := run (track c) st fs in trackAll cs' st' fs'
  end.

Lemma closesOnce_trackAll cs st fs : closesOnce st (trackAll cs st fs).1.
Proof.
  revert st fs. induction cs as [|c cs IH]; intros st fs; cbn.
  - apply closesOnce_refl.
  - assert (Hc : closesOnce st (run (track c) st fs).1.2).
    { destruct c; [apply closesOnce_trackUserLeft | apply closesOnce_trackRoomClosed]. }
    destruct (run (track c) st fs) as [[r st'] fs']. cbn in Hc.
    eapply closesOnce_trans; [exact Hc | apply IH].
Qed.

(** Closures tracked one after the other, each call with one reading of
    the clock, in a store in which no room has more than one closure a day:
    whatever the times, the rooms and the failures of the store, afterwards
    no room has more than one closure event on any day, the [roomsCompleted]
    counter of every day has grown by no more than the closure events
    recorded for that day, and a further closure of a room that has one on
    record that day writes nothing. *)
Theorem room_closed_once_per_day (cs : list closing) (st : store) (fs : list bool) :
  (∀ roomId day, (closedCount st roomId day ≤ 1)%nat) →
  let st' := (trackAll cs st fs).1 in
  (∀ roomId day, (closedCount st' roomId day ≤ 1)%nat)
  ∧ (∀ day, completed st' day - completed st day
            ≤ Z.of_nat (closedOnDay st' day) - Z.of_nat (closedOnDay st day))
  ∧ (∀ now roomId fs',
       (1 ≤ closedCount st' roomId (startOfDay now))%nat →
       (run (trackRoomClosed now roomId) st' fs').1.2 = st').
Proof.
  intros Hst st'. destruct (closesOnce_trackAll cs st fs) as [Ha Hb]. fold st' in Ha, Hb.
  split; [|split].
  - intros r d. specialize (Ha r d). specialize (Hst r d). lia.
  - intros d. apply Hb.
  - intros now roomId fs'. apply repeat_closure_suppressed.
Qed.

(** The last member leaves at noon and the closure is tracked again in the
    evening: one closure event, one room completed. *)
Definition leaveThenRepeat : list closing :=
  [ UserLeft (12 * msPerHour) "AAAAAA" "B" 0; RoomClosed (20 * msPerHour) "AAAAAA" ].

Lemma room_closed_example :
  let st' := (trackAll leaveThenRepeat emptyStore []).1 in
  (∀ roomId day, (closedCount st' roomId day ≤ 1)%nat)
  ∧ (∀ day, completed st' day - completed emptyStore day
            ≤ Z.of_nat (closedOnDay st' day) - Z.of_nat (closedOnDay emptyStore day))
  ∧ (∀ now roomId fs',
       (1 ≤ closedCount st' roomId (startOfDay now))%nat →
       (run (trackRoomClosed now roomId) st' fs').1.2 = st').
Proof.
  apply (room_closed_once_per_day leaveThenRepeat emptyStore []).
  intros roomId day. cbn. lia.
Defined.

Lemma room_closed_example_counts :
  let st' := (trackAll leaveThenRepeat emptyStore []).1 in
  closedCount st' "AAAAAA" 0 = 1%nat ∧ completed st' 0 = 1.
Proof. vm_compute. split; reflexivity. Qed.

End Closure.

(* ===================================================================== *)
(** ** Handlers suspended at an await

    [RoomLifecycle] and [Closure] are about handlers and tracking calls that
    run one at a time, each to its end. A handler that awaits the store is
    suspended there: here events arrive and the store answers while it
    waits, as [Scheduling] has it. *)
(* ===================================================================== *)

Module Suspension.
Import Clock Analytics Server Concurrent ServerFacts RoomLifecycle Counters Closure.
Import Scheduling.
Local Open Scope Z_scope.

(** Which of the suspended handlers are still waiting. *)
Definition waiting (s : system) : list bool :=
  (λ h, bool_decide (is_Some h)) <$> inFlight s.

(** What was emitted from one state of the system to a later one. *)
Definition emittedSince (s s' : system) : list emission :=
  drop (length (outbox (state s))) (outbox (state s')).

(** *** A room that has lost its last member

    A, alone in its room, sends [leave-room]: its handler removes it from
    the room and waits for [trackUserLeft]. *)
Definition leaving : system := deliver (Leave_room "A") (boot afterCreate).

(** The socket of C, which is in no room, closes meanwhile. *)
Definition closedMeanwhile : system := deliver (Disconnect "C") leaving.

(** B asks to join the room; its handler adds it and waits for
    [trackRoomJoined]. *)
Definition joinedMeanwhile : system := deliver (Join_room "B" roomA) closedMeanwhile.

(** The store answers the four calls of A's [trackUserLeft], and the
    handler of A resumes. *)
Definition resumed : system := schedule (serveOut 4 0) joinedMeanwhile.

(** The store answers the four calls of B's [trackRoomJoined], and the
    handler of B resumes. *)
Definition settled : system := schedule (serveOut 4 1) resumed.

(** C5. The room is not deleted in the transition that removes its last
    member. When A has left, the room stays registered with no member while
    the handler of A waits for the store: it is so after the teardown of C,
    which has begun and ended meanwhile, and B, asking then, is admitted to
    it. The room is deleted when the handler of A resumes, after the third
    answer of the store at the earliest; no member departs in that
    transition, B is a member of the room deleted, is sent [room-dismissed]
    and stays registered in it. The handler of B then tells B that it has
    joined the room, which no longer exists. *)
Theorem empty_room_joined_then_dismissed :
  (roomUsers (state leaving) !! roomA = Some ∅ ∧ waiting leaving = [true])
  ∧ (roomUsers (state closedMeanwhile) !! roomA = Some ∅
     ∧ waiting closedMeanwhile = [true])
  ∧ (roomUsers (state joinedMeanwhile) !! roomA = Some {["B"]}
     ∧ userRoomMap (state joinedMeanwhile) !! "B" = Some roomA
     ∧ waiting joinedMeanwhile = [true; true])
  ∧ (roomUsers (state (schedule (serveOut 3 0) joinedMeanwhile)) !! roomA = Some {["B"]}
     ∧ waiting (schedule (serveOut 3 0) joinedMeanwhile) = [true; true])
  ∧ (roomUsers (state resumed) !! roomA = None
     ∧ userRoomMap (state resumed) !! "B" = Some roomA
     ∧ waiting resumed = [false; true]
     ∧ emittedSince joinedMeanwhile resumed =
         [ send {["B"]} (room_dismissed roomA "Room closed");
           send {["A"]} (room_left roomA "Successfully left the room") ])
  ∧ (waiting settled = [false; false]
     ∧ emittedSince resumed settled =
         [ send ∅ (user_joined "B" 1 2 false);
           send {["B"]} (room_joined roomA 1 2 false) ]
     ∧ roomUsers (state settled) = ∅
     ∧ userRoomMap (state settled) !! "B" = Some roomA).
Proof. vm_compute. repeat split; reflexivity. Qed.

(** The same with the handlers resumed in the other order: B is told that
    it has joined, alone, the room that A has left, and the room is then
    deleted with B in it. *)
Lemma empty_room_joined_first :
  let joined := schedule (serveOut 4 1) joinedMeanwhile in
  let dismissed := schedule (serveOut 4 0) joined in
  waiting joined = [true; false]
  ∧ emittedSince joinedMeanwhile joined =
      [ send ∅ (user_joined "B" 1 2 false);
        send {["B"]} (room_joined roomA 1 2 false) ]
  ∧ roomUsers (state joined) !! roomA = Some {["B"]}
  ∧ waiting dismissed = [false; false]
  ∧ emittedSince joined dismissed =
      [ send {["B"]} (room_dismissed roomA "Room closed");
        send {["A"]} (room_left roomA "Successfully left the room") ]
  ∧ roomUsers (state dismissed) !! roomA = None
  ∧ userRoomMap (state dismissed) !! "B" = Some roomA.
Proof. vm_compute. repeat split; reflexivity. Qed.

(** The same when the socket of A closes where A left: the
    ["disconnecting"] handler waits for the store with the room registered
    and empty, B joins, and the handler deletes the room B is in. *)
Lemma empty_room_joined_during_teardown :
  let closing := deliver (Disconnect "A") (boot afterCreate) in
  let joined := deliver (Join_room "B" roomA) closing in
  let dismissed := schedule (serveOut 4 0) joined in
  roomUsers (state closing) !! roomA = Some ∅
  ∧ waiting closing = [true]
  ∧ roomUsers (state joined) !! roomA = Some {["B"]}
  ∧ waiting dismissed = [false; true]
  ∧ emittedSince joined dismissed = [ send {["B"]} (room_dismissed roomA "Room closed") ]
  ∧ roomUsers (state dismissed) !! roomA = None
  ∧ userRoomMap (state dismissed) !! "B" = Some roomA.
Proof. vm_compute. repeat split; reflexivity. Qed.

(** *** Two closures of one room under way together

    A, alone in its room, leaves; B joins the room and leaves it in turn
    while the handler of A waits for the store. Both [leave-room] handlers
    found nobody left and wait for [trackUserLeft]. *)
Definition bothLeaving : system :=
  schedule [ Deliver (Leave_room "A"); Deliver (Join_room "B" roomA);
             Deliver (Leave_room "B") ] (boot afterCreate).

(** The store answers the calls of the two in turn, a millisecond apart:
    the departure is recorded for each, each asks for a closure of the room
    since midnight, records one, and counts the room as completed. *)
Definition bothClosed : system :=
  schedule [ Serve 0; Deliver (Tick 1); Serve 2; Deliver (Tick 1);
             Serve 0; Deliver (Tick 1); Serve 2; Deliver (Tick 1);
             Serve 0; Deliver (Tick 1); Serve 2; Deliver (Tick 1);
             Serve 0; Deliver (Tick 1); Serve 2 ] bothLeaving.

Definition isClosure (e : RoomEvent) : bool := String.eqb (ev_eventType e) "closed".

(** C6. Two closures of one room on one day are both recorded and both
    counted when the second is under way before the first has recorded its
    event. The room that A has left and that B has joined and left meanwhile
    is closed twice: both calls of [trackRoomClosed] are told by the store
    that no closure of the room is on record since midnight, two [closed]
    events are recorded for the room, two milliseconds after midnight and
    three, and [roomsCompleted] of the day, where no room was completed
    before, is 2. *)
Theorem overlapping_closures_both_counted :
  waiting bothLeaving = [true; true; true]
  ∧ closedCount (db (state bothLeaving)) roomA 0 = 0%nat
  ∧ completed (db (state bothLeaving)) 0 = 0
  ∧ waiting bothClosed = [false; true; false]
  ∧ List.filter isClosure (roomEvents (db (state bothClosed))) =
      [ closedEvent 2 roomA; closedEvent 3 roomA ]
  ∧ closedCount (db (state bothClosed)) roomA 0 = 2%nat
  ∧ completed (db (state bothClosed)) 0 = 2.
Proof. vm_compute. repeat split; reflexivity. Qed.

(** The two calls alone, on an empty store: both ask the store before
    either has recorded its event, and both record it. *)
Lemma concurrent_closures_both_recorded :
  let calls := replicate 2 (Analytics.trackRoomClosed noon roomA) in
  let raced := interleave [0; 1; 0; 1; 0; 1]%nat calls emptyStore in
  allSettled raced.1 = true
  ∧ closedCount raced.2 roomA (startOfDay noon) = 2%nat
  ∧ completed raced.2 (startOfDay noon) = 2.
Proof. vm_compute. repeat split; reflexivity. Qed.

End Suspension.

(* ===================================================================== *)
(** ** Room ids *)
(* ===================================================================== *)

Module RoomIds.
Import Server.

Lemma charAt_within (s : string) (n : nat) :
  n < String.length s →
  ∃ a, charAt s n = String a EmptyString ∧ In a (String.list_ascii_of_string s).
Proof.
  revert n. induction s as [|b s IH]; intros n Hn; cbn in Hn; [lia|].
  destruct n as [|n].
  - exists b. split; [reflexivity | by left].
  - destruct (IH n ltac:(lia)) as (a & Ha & Hin). exists a. split; [|by right].
    unfold charAt in *. cbn. exact Ha.
Qed.

(** X1. Whatever the random draws, [generateRoomId] returns a string of
    exactly six characters, each of them one of the 36 characters of
    [chars]. *)
Theorem generateRoomId_six_of_alphabet (rnd : nat → nat) :
  String.length (generateRoomId rnd) = ROOM_ID_LENGTH
  ∧ Forall (λ a, In a (String.list_ascii_of_string chars))
      (String.list_ascii_of_string (generateRoomId rnd)).
Proof.
  assert (Hlt : ∀ i, rnd i mod String.length chars < String.length chars).
  { intros i. apply Nat.mod_upper_bound. discriminate. }
  unfold generateRoomId, ROOM_ID_LENGTH. cbn [generateRoomId_from].
  destruct (charAt_within chars _ (Hlt 0)) as (a0 & -> & H0).
  destruct (charAt_within chars _ (Hlt 1)) as (a1 & -> & H1).
  destruct (charAt_within chars _ (Hlt 2)) as (a2 & -> & H2).
  destruct (charAt_within chars _ (Hlt 3)) as (a3 & -> & H3).
  destruct (charAt_within chars _ (Hlt 4)) as (a4 & -> & H4).
  destruct (charAt_within chars _ (Hlt 5)) as (a5 & -> & H5).
  generalize dependent (String.list_ascii_of_string chars). intros alphabet **.
  split; [reflexivity|]. cbn. repeat constructor; assumption.
Qed.

End RoomIds.

(* ===================================================================== *)
(** ** Events, counters and hourly buckets, call after call *)
(* ===================================================================== *)

Module Tallies.
Import Clock ClockFacts Analytics Containment Concurrent Counters Closure.
Local Open Scope Z_scope.

(** Every daily document is stored under its own date. *)
Definition keyed (st : store) : Prop :=
  ∀ k d, dailyStats st !! k = Some d → ds_date d = k.

(** The fields of an hourly bucket that count something. *)
Definition counted (field : string) : Prop :=
  field = "connections" ∨ field = "roomsCreated" ∨ field = "transfers".

(** The bucket [incrementHourlyStat] pushes for an hour that has none. *)
Definition newEntry (now : Z) (field : string) (amount : Z) : HourlyEntry :=
  {| he_hour := getHours now;
     he_connections := if String.eqb field "connections" then amount else 0;
     he_roomsCreated := if String.eqb field "roomsCreated" then amount else 0;
     he_transfers := if String.eqb field "transfers" then amount else 0 |}.

(** The document of a day after an hourly increment that was saved. *)
Definition bump (now : Z) (field : string) (amount : Z) (d : DailyStats) : DailyStats :=
  match list_find (λ h, he_hour h = getHours now) (ds_hourlyBreakdown d) with
  | None =>
      {| ds_date := ds_date d; ds_version := S (ds_version d);
         ds_counters := ds_counters d;
         ds_hourlyBreakdown := ds_hourlyBreakdown d ++ [newEntry now field amount] |}
  | Some (i, h) =>
      {| ds_date := ds_date d; ds_version := ds_version d;
         ds_counters := ds_counters d;
         ds_hourlyBreakdown :=
           <[i := entry_set h field (or0 (entry_get h field) + amount)]>
             (ds_hourlyBreakdown d) |}
  end.

Definition dayDoc (st : store) (day : Z) : DailyStats :=
  default (newDailyStats day) (dailyStats st !! day).

Definition hourlyStep (now : Z) (field : string) (amount : Z) (st : store) : store :=
  withDailyStats st
    (<[startOfDay now := bump now field amount (dayDoc st (startOfDay now))]> (dailyStats st)).

(** The day's document was created, and the bucket was not saved. *)
Definition dayOpened (now : Z) (st : store) : store :=
  withDailyStats st (<[startOfDay now := newDailyStats (startOfDay now)]> (dailyStats st)).

Lemma save_bump now field amount st d fs :
  dailyStats st !! startOfDay now = Some d → ds_date d = startOfDay now →
  run match list_find (λ h, he_hour h = getHours now) (ds_hourlyBreakdown d) with
      | None =>
          await (DailyStats_save (ds_date d) (ds_version d)
                   (ModPush
                      {| he_hour := getHours now;
                         he_connections := if String.eqb field "connections" then amount else 0;
                         he_roomsCreated := if String.eqb field "roomsCreated" then amount else 0;
                         he_transfers := if String.eqb field "transfers" then amount else 0 |}))
      | Some (hourIndex, h) =>
          await (DailyStats_save (ds_date d) (ds_version d)
                   (ModSet hourIndex field (or0 (entry_get h field) + amount)))
      end st fs
  = match fs with
    | true :: fs' => (Rejected "MongoNetworkError", st, fs')
    | _ => (Resolved (),
            withDailyStats st (<[startOfDay now := bump now field amount d]> (dailyStats st)),
            tail fs)
    end.
Proof.
  intros Hd Hk. unfold bump.
  destruct (list_find _ (ds_hourlyBreakdown d)) as [[i h]|] eqn:Ef.
  - apply list_find_Some in Ef as (Hi & _ & _).
    destruct fs as [|[] fs]; cbn; [|done|];
      rewrite Hk, Hd; cbn; rewrite Nat.eqb_refl; cbn; by rewrite Hi, Hk.
  - destruct fs as [|[] fs]; cbn; [|done|]; rewrite Hk, Hd; cbn; by rewrite Hk.
Qed.

(** The store after [incrementHourlyStat]: with the store answering every
    call, the bucket of the hour is saved. *)
Lemma run_incrementHourlyStat_reachable now field amount st :
  keyed st →
  run (incrementHourlyStat now field amount) st []
  = (Resolved (), hourlyStep now field amount st, []).
Proof.
  intros Hk. unfold incrementHourlyStat, hourlyStep, dayDoc.
  rewrite run_try_catch. cbn -[list_find].
  destruct (dailyStats st !! startOfDay now) as [d|] eqn:Ed; cbn -[list_find].
  - rewrite (save_bump now field amount st d []) by eauto. done.
  - rewrite Ed. cbn -[list_find].
    rewrite (save_bump now field amount _ (newDailyStats (startOfDay now)) []);
      [|by cbn; rewrite lookup_insert_eq|done].
    cbn. by rewrite insert_insert_eq.
Qed.

(** Whatever calls fail, [incrementHourlyStat] returns, and it has written
    nothing, or created the day's document only, or saved the bucket. *)
Lemma run_incrementHourlyStat_any now field amount st fs :
  keyed st →
  (run (incrementHourlyStat now field amount) st fs).1.1 = Resolved ()
  ∧ ((run (incrementHourlyStat now field amount) st fs).1.2 = st
     ∨ (dailyStats st !! startOfDay now = None
        ∧ (run (incrementHourlyStat now field amount) st fs).1.2 = dayOpened now st)
     ∨ (run (incrementHourlyStat now field amount) st fs).1.2 = hourlyStep now field amount st).
Proof.
  intros Hk. unfold incrementHourlyStat, hourlyStep, dayOpened, dayDoc.
  rewrite run_try_catch.
  pose proof (save_bump now field amount) as Hsave.
  destruct fs as [|[] fs]; cbn -[list_find]; auto.
  - destruct (dailyStats st !! startOfDay now) as [d|] eqn:Ed; cbn -[list_find].
    + rewrite (Hsave st d []) by eauto. cbn. auto.
    + rewrite Ed. cbn -[list_find].
      rewrite (Hsave _ (newDailyStats (startOfDay now)) []);
        [|by cbn; rewrite lookup_insert_eq|done].
      cbn. rewrite insert_insert_eq. auto.
  - destruct (dailyStats st !! startOfDay now) as [d|] eqn:Ed; cbn -[list_find].
    + rewrite (Hsave st d fs) by eauto. destruct fs as [|[] fs]; cbn; auto.
    + destruct fs as [|[] fs]; cbn -[list_find]; auto.
      * rewrite Ed. cbn -[list_find].
        rewrite (Hsave _ (newDailyStats (startOfDay now)) []);
          [|by cbn; rewrite lookup_insert_eq|done].
        cbn. rewrite insert_insert_eq. auto.
      * rewrite Ed. cbn -[list_find].
        rewrite (Hsave _ (newDailyStats (startOfDay now)) fs);
          [|by cbn; rewrite lookup_insert_eq|done].
        destruct fs as [|[] fs]; cbn; rewrite ?insert_insert_eq; auto.
Qed.

(** *** Buckets *)

(** The value the code reads for a field of the bucket of an hour. *)
Definition bucketValue (l : list HourlyEntry) (hour : Z) (field : string) : Z :=
  match list_find (λ h, he_hour h = hour) l with
  | Some (_, h) => or0 (entry_get h field)
  | None => 0
  end.

(** A field summed over the buckets of a day. *)
Definition bucketTotal (field : string) (l : list HourlyEntry) : Z :=
  foldr (λ h acc, or0 (entry_get h field) + acc) 0 l.

Definition hourlyTotal (st : store) (day : Z) (field : string) : Z :=
  bucketTotal field (ds_hourlyBreakdown (dayDoc st day)).

Lemma entry_get_set_same h field v :
  counted field → entry_get (entry_set h field v) field = Some v.
Proof. by intros [-> | [-> | ->]]. Qed.

Lemma entry_get_set_other h field v f :
  counted field → f ≠ field → entry_get (entry_set h field v) f = entry_get h f.
Proof.
  intros [-> | [-> | ->]] Hf; unfold entry_get, entry_set; cbn;
    destruct (String.eqb_spec f "hour"); try done;
    destruct (String.eqb_spec f "connections"); try done;
    destruct (String.eqb_spec f "roomsCreated"); try done;
    destruct (String.eqb_spec f "transfers"); done.
Qed.

Lemma entry_set_hour h field v : counted field → he_hour (entry_set h field v) = he_hour h.
Proof. by intros [-> | [-> | ->]]. Qed.

Lemma newEntry_same now field amount :
  counted field → entry_get (newEntry now field amount) field = Some amount.
Proof. by intros [-> | [-> | ->]]. Qed.

Lemma newEntry_other now field amount f :
  counted field → counted f → f ≠ field → entry_get (newEntry now field amount) f = Some 0.
Proof. by intros [-> | [-> | ->]] [-> | [-> | ->]] Hf. Qed.

Lemma list_find_cons {A} (P : A → Prop) `{!∀ x, Decision (P x)} x l :
  list_find P (x :: l)
  = if decide (P x) then Some (0%nat, x) else prod_map S id <$> list_find P l.
Proof. reflexivity. Qed.

Lemma list_find_snoc {A} (P : A → Prop) `{!∀ x, Decision (P x)} l y :
  list_find P (l ++ [y])
  = match list_find P l with
    | Some r => Some r
    | None => if decide (P y) then Some (length l, y) else None
    end.
Proof.
  induction l as [|x l IH].
  - cbn. by destruct (decide (P y)).
  - rewrite <- app_comm_cons, !list_find_cons.
    destruct (decide (P x)); [done|]. rewrite IH.
    destruct (list_find P l) as [[i z]|]; [done|]. by destruct (decide (P y)).
Qed.

Lemma list_find_insert_hour (hour : Z) l i e e' :
  l !! i = Some e → he_hour e' = he_hour e →
  list_find (λ h, he_hour h = hour) (<[i := e']> l)
  = match list_find (λ h, he_hour h = hour) l with
    | Some (j, x) => Some (j, if decide (j = i) then e' else x)
    | None => None
    end.
Proof.
  revert i. induction l as [|x l IH]; intros i Hi He; [done|].
  destruct i as [|i].
  - injection Hi as ->. change (<[0%nat := e']> (e :: l)) with (e' :: l).
    rewrite !list_find_cons, He.
    destruct (decide (he_hour e = hour)); [done|].
    destruct (list_find _ l) as [[j z]|]; [|done]. done.
  - change (<[S i := e']> (x :: l)) with (x :: <[i := e']> l).
    rewrite !list_find_cons.
    destruct (decide (he_hour x = hour)); [done|].
    rewrite (IH i) by done.
    destruct (list_find _ l) as [[j z]|]; [|done]. cbn.
    destruct (decide (j = i)) as [-> | ?].
    + by rewrite decide_True.
    + by rewrite decide_False by lia.
Qed.

Lemma bucketTotal_snoc field l y :
  bucketTotal field (l ++ [y]) = bucketTotal field l + or0 (entry_get y field).
Proof. unfold bucketTotal. induction l as [|x l IH]; cbn; [lia|]. rewrite IH. lia. Qed.

Lemma bucketTotal_insert field l i e e' :
  l !! i = Some e →
  bucketTotal field (<[i := e']> l)
  = bucketTotal field l - or0 (entry_get e field) + or0 (entry_get e' field).
Proof.
  revert i. induction l as [|x l IH]; intros i Hi; [done|].
  destruct i as [|i].
  - injection Hi as ->. change (<[0%nat := e']> (e :: l)) with (e' :: l).
    unfold bucketTotal. cbn. lia.
  - change (<[S i := e']> (x :: l)) with (x :: <[i := e']> l).
    specialize (IH i Hi). unfold bucketTotal in *. cbn. rewrite IH. lia.
Qed.

(** The buckets of a document after a saved increment. *)
Lemma bucketValue_bump now field amount d hour f :
  counted field → counted f →
  bucketValue (ds_hourlyBreakdown (bump now field amount d)) hour f
  = bucketValue (ds_hourlyBreakdown d) hour f
    + (if decide (hour = getHours now ∧ f = field) then amount else 0).
Proof.
  intros Hfield Hf. unfold bump, bucketValue.
  destruct (list_find (λ h, he_hour h = getHours now) (ds_hourlyBreakdown d))
    as [[i e]|] eqn:Ef; cbn [ds_hourlyBreakdown].
  - apply list_find_Some in Ef as (Hi & He & Hfirst).
    rewrite (list_find_insert_hour hour _ i e) by (by rewrite ?entry_set_hour).
    destruct (list_find (λ h, he_hour h = hour) (ds_hourlyBreakdown d))
      as [[j x]|] eqn:Eh.
    + apply list_find_Some in Eh as (Hj & Hx & Hfirst').
      destruct (decide (j = i)) as [-> | Hji].
      * assert (x = e) as -> by congruence.
        destruct (decide (f = field)) as [-> | Hne].
        -- rewrite entry_get_set_same by done. cbn.
           rewrite decide_True by (split; congruence). done.
        -- rewrite entry_get_set_other by done.
           rewrite decide_False by (intros [_ ?]; done). lia.
      * rewrite decide_False; [lia|]. intros [-> _].
        destruct (Nat.lt_total j i) as [Hlt|[?|Hlt]]; [|done|].
        -- by apply (Hfirst j x).
        -- by apply (Hfirst' i e).
    + rewrite decide_False; [lia|]. intros [-> _].
      apply list_find_None in Eh. rewrite Forall_lookup in Eh. by apply (Eh i e).
  - rewrite list_find_snoc.
    destruct (list_find (λ h, he_hour h = hour) (ds_hourlyBreakdown d))
      as [[j x]|] eqn:Eh.
    + rewrite decide_False; [lia|]. intros [-> _]. congruence.
    + cbn [newEntry he_hour]. destruct (decide (getHours now = hour)) as [<- | Hh].
      * destruct (decide (f = field)) as [-> | Hne].
        -- fold (newEntry now field amount). rewrite newEntry_same by done.
           rewrite decide_True by done. done.
        -- fold (newEntry now field amount). rewrite newEntry_other by done.
           rewrite decide_False by (intros [_ ?]; done). done.
      * rewrite decide_False by (intros [? _]; done). done.
Qed.

Lemma bucketTotal_bump now field amount d f :
  counted field → counted f →
  bucketTotal f (ds_hourlyBreakdown (bump now field amount d))
  = bucketTotal f (ds_hourlyBreakdown d) + (if decide (f = field) then amount else 0).
Proof.
  intros Hfield Hf. unfold bump.
  destruct (list_find (λ h, he_hour h = getHours now) (ds_hourlyBreakdown d))
    as [[i e]|] eqn:Ef; cbn [ds_hourlyBreakdown].
  - apply list_find_Some in Ef as (Hi & He & Hfirst).
    rewrite (bucketTotal_insert f _ i e) by done.
    destruct (decide (f = field)) as [-> | Hne].
    + rewrite entry_get_set_same by done. cbn. lia.
    + rewrite entry_get_set_other by done. lia.
  - rewrite bucketTotal_snoc.
    destruct (decide (f = field)) as [-> | Hne].
    + by rewrite newEntry_same.
    + rewrite newEntry_other by done. cbn. lia.
Qed.

(** *** The stored values, read through the day's document *)

Lemma dailyValue_dayDoc st day field : dailyValue st day field = counter (dayDoc st day) field.
Proof.
  unfold dailyValue, dayDoc. destruct (dailyStats st !! day); cbn; [done|].
  unfold counter. cbn. by rewrite lookup_empty.
Qed.

Lemma hourlyValue_dayDoc st day hour field :
  hourlyValue st day hour field = bucketValue (ds_hourlyBreakdown (dayDoc st day)) hour field.
Proof. unfold hourlyValue, dayDoc, bucketValue. by destruct (dailyStats st !! day). Qed.

Lemma dayDoc_hourlyStep now field amount st day :
  dayDoc (hourlyStep now field amount st) day
  = if decide (day = startOfDay now) then bump now field amount (dayDoc st day)
    else dayDoc st day.
Proof.
  unfold dayDoc at 1. unfold hourlyStep. cbn.
  destruct (decide (day = startOfDay now)) as [-> | Hne].
  - by rewrite lookup_insert_eq.
  - by rewrite lookup_insert_ne.
Qed.

Lemma dayDoc_dayOpened now st day :
  dailyStats st !! startOfDay now = None → dayDoc (dayOpened now st) day = dayDoc st day.
Proof.
  intros Hn. unfold dayDoc, dayOpened. cbn.
  destruct (decide (day = startOfDay now)) as [-> | Hne].
  - by rewrite lookup_insert_eq, Hn.
  - by rewrite lookup_insert_ne.
Qed.

Lemma dayDoc_updateOne day field amount st d :
  dayDoc (exec (DailyStats_updateOne day field amount) st).2 d
  = if decide (d = day) then incCounter field amount (dayDoc st d) else dayDoc st d.
Proof.
  unfold dayDoc. cbn.
  destruct (decide (d = day)) as [-> | Hne].
  - by rewrite lookup_insert_eq.
  - by rewrite lookup_insert_ne.
Qed.

Lemma counter_bump now field amount d f : counter (bump now field amount d) f = counter d f.
Proof. unfold bump, counter. by destruct (list_find _ _) as [[i e]|]. Qed.

Lemma keyed_empty : keyed emptyStore.
Proof. intros k d. cbn. by rewrite lookup_empty. Qed.

Lemma dayDoc_date st day : keyed st → ds_date (dayDoc st day) = day.
Proof.
  intros Hk. unfold dayDoc. destruct (dailyStats st !! day) as [d|] eqn:E; cbn; [|done].
  by apply Hk.
Qed.

Lemma keyed_hourlyStep now field amount st : keyed st → keyed (hourlyStep now field amount st).
Proof.
  intros Hk k d. unfold hourlyStep. cbn.
  destruct (decide (k = startOfDay now)) as [-> | Hne].
  - rewrite lookup_insert_eq. intros [= <-].
    unfold bump. destruct (list_find _ _) as [[i e]|]; cbn; by apply dayDoc_date.
  - rewrite lookup_insert_ne by done. apply Hk.
Qed.

Lemma keyed_dayOpened now st : keyed st → keyed (dayOpened now st).
Proof.
  intros Hk k d. unfold dayOpened. cbn.
  destruct (decide (k = startOfDay now)) as [-> | Hne].
  - rewrite lookup_insert_eq. by intros [= <-].
  - rewrite lookup_insert_ne by done. apply Hk.
Qed.

Lemma keyed_updateOne day field amount st :
  keyed st → keyed (exec (DailyStats_updateOne day field amount) st).2.
Proof.
  intros Hk k d. cbn.
  destruct (decide (k = day)) as [-> | Hne].
  - rewrite lookup_insert_eq. intros [= <-]. cbn.
    destruct (dailyStats st !! day) as [d0|] eqn:E; cbn; [by apply Hk | done].
  - rewrite lookup_insert_ne by done. apply Hk.
Qed.

(** X11. With the store answering and the calls made one after the
    other, [incrementHourlyStat] returns, and it has added [amount] to the
    field of the bucket of the current hour of the current day: no other
    counting field of any bucket, no top-level counter of any day and no other
    collection has changed. *)
Theorem hourly_increment_sequential (now : Z) (field : string) (amount : Z) (st : store) :
  keyed st → counted field →
  ∃ st', run (incrementHourlyStat now field amount) st [] = (Resolved (), st', [])
    ∧ hourlyValue st' (startOfDay now) (getHours now) field
      = hourlyValue st (startOfDay now) (getHours now) field + amount
    ∧ (∀ day hour f, counted f →
         (day, hour, f) ≠ (startOfDay now, getHours now, field) →
         hourlyValue st' day hour f = hourlyValue st day hour f)
    ∧ (∀ day f, dailyValue st' day f = dailyValue st day f)
    ∧ roomEvents st' = roomEvents st
    ∧ errorLogs st' = errorLogs st
    ∧ transferSessions st' = transferSessions st.
Proof.
  intros Hk Hfield. exists (hourlyStep now field amount st).
  split; [by apply run_incrementHourlyStat_reachable|].
  split; [|split; [|split; [|done]]].
  - rewrite !hourlyValue_dayDoc, dayDoc_hourlyStep, decide_True by done.
    rewrite bucketValue_bump by done. by rewrite decide_True.
  - intros day hour f Hf Hne.
    rewrite !hourlyValue_dayDoc, dayDoc_hourlyStep.
    destruct (decide (day = startOfDay now)) as [-> | Hd]; [|done].
    rewrite bucketValue_bump by done.
    rewrite decide_False; [lia|]. intros [-> ->]. done.
  - intros day f. rewrite !dailyValue_dayDoc, dayDoc_hourlyStep.
    destruct (decide (day = startOfDay now)); [|done]. apply counter_bump.
Qed.

Lemma hourly_increment_example :
  ∃ st', run (incrementHourlyStat noon "connections" 1) emptyStore [] = (Resolved (), st', [])
    ∧ hourlyValue st' (startOfDay noon) (getHours noon) "connections"
      = hourlyValue emptyStore (startOfDay noon) (getHours noon) "connections" + 1
    ∧ (∀ day hour f, counted f →
         (day, hour, f) ≠ (startOfDay noon, getHours noon, "connections") →
         hourlyValue st' day hour f = hourlyValue emptyStore day hour f)
    ∧ (∀ day f, dailyValue st' day f = dailyValue emptyStore day f)
    ∧ roomEvents st' = roomEvents emptyStore
    ∧ errorLogs st' = errorLogs emptyStore
    ∧ transferSessions st' = transferSessions emptyStore.
Proof.
  apply (hourly_increment_sequential noon "connections" 1 emptyStore).
  - intros k d. cbn. rewrite lookup_empty. discriminate.
  - left. reflexivity.
Defined.

(** *** Events against counters *)

(** The recorded events of a type whose timestamp falls on a day. *)
Definition eventsOn (st : store) (eventType : string) (day : Z) : Z :=
  Z.of_nat (length (List.filter
    (λ e, String.eqb (ev_eventType e) eventType && (startOfDay (ev_timestamp e) =? day))
    (roomEvents st))).

Definition record (e : RoomEvent) (st : store) : store :=
  withRoomEvents st (roomEvents st ++ [e]).

Definition dailyStep (now : Z) (field : string) (amount : Z) (st : store) : store :=
  (exec (DailyStats_updateOne (startOfDay now) field amount) st).2.

Lemma eventsOn_record e st eventType day :
  eventsOn (record e st) eventType day
  = eventsOn st eventType day
    + (if String.eqb (ev_eventType e) eventType && (startOfDay (ev_timestamp e) =? day)
       then 1 else 0).
Proof.
  unfold eventsOn, record. cbn. rewrite List.filter_app, length_app. cbn.
  destruct (_ && _); cbn; lia.
Qed.

Lemma counter_incCounter field amount d f :
  counter (incCounter field amount d) f
  = counter d f + (if decide (f = field) then amount else 0).
Proof.
  unfold counter at 1. cbn. destruct (decide (f = field)) as [-> | Hne].
  - by rewrite lookup_insert_eq.
  - rewrite lookup_insert_ne by done. unfold counter. lia.
Qed.

Lemma dailyValue_dailyStep now field amount st day f :
  dailyValue (dailyStep now field amount st) day f
  = dailyValue st day f
    + (if decide (day = startOfDay now ∧ f = field) then amount else 0).
Proof.
  rewrite !dailyValue_dayDoc. unfold dailyStep. rewrite dayDoc_updateOne.
  destruct (decide (day = startOfDay now)) as [-> | Hd].
  - rewrite counter_incCounter. destruct (decide (f = field)) as [-> | Hf].
    + by rewrite decide_True.
    + by rewrite decide_False by (intros [_ ?]; done).
  - rewrite decide_False by (intros [? _]; done). lia.
Qed.

Lemma hourlyTotal_dailyStep now field amount st day f :
  hourlyTotal (dailyStep now field amount st) day f = hourlyTotal st day f.
Proof.
  unfold hourlyTotal, dailyStep. rewrite dayDoc_updateOne.
  by destruct (decide (day = startOfDay now)).
Qed.

Lemma dailyValue_hourlyStep now field amount st day f :
  dailyValue (hourlyStep now field amount st) day f = dailyValue st day f.
Proof.
  rewrite !dailyValue_dayDoc, dayDoc_hourlyStep.
  destruct (decide (day = startOfDay now)); [apply counter_bump | done].
Qed.

Lemma hourlyTotal_hourlyStep now field amount st day f :
  counted field → counted f →
  hourlyTotal (hourlyStep now field amount st) day f
  = hourlyTotal st day f
    + (if decide (day = startOfDay now ∧ f = field) then amount else 0).
Proof.
  intros Hfield Hf. unfold hourlyTotal. rewrite dayDoc_hourlyStep.
  destruct (decide (day = startOfDay now)) as [-> | Hd].
  - rewrite bucketTotal_bump by done. destruct (decide (f = field)) as [-> | Hne].
    + by rewrite decide_True.
    + by rewrite decide_False by (intros [_ ?]; done).
  - rewrite decide_False by (intros [? _]; done). lia.
Qed.

Lemma hourlyValue_hourlyStep now field amount st day hour f :
  counted field → counted f →
  hourlyValue (hourlyStep now field amount st) day hour f
  = hourlyValue st day hour f
    + (if decide (day = startOfDay now ∧ hour = getHours now ∧ f = field) then amount else 0).
Proof.
  intros Hfield Hf. rewrite !hourlyValue_dayDoc, dayDoc_hourlyStep.
  destruct (decide (day = startOfDay now)) as [-> | Hd].
  - rewrite bucketValue_bump by done.
    destruct (decide (hour = getHours now ∧ f = field)) as [[-> ->] | Hne].
    + by rewrite decide_True.
    + rewrite decide_False; [done|]. intros (_ & ? & ?). by apply Hne.
  - rewrite decide_False by (intros [? _]; done). lia.
Qed.

Lemma hourlyValue_dailyStep now field amount st day hour f :
  hourlyValue (dailyStep now field amount st) day hour f = hourlyValue st day hour f.
Proof.
  rewrite !hourlyValue_dayDoc. unfold dailyStep. rewrite dayDoc_updateOne.
  by destruct (decide (day = startOfDay now)).
Qed.

Lemma dailyValue_dayOpened now st day f :
  dailyStats st !! startOfDay now = None →
  dailyValue (dayOpened now st) day f = dailyValue st day f.
Proof. intros Hn. by rewrite !dailyValue_dayDoc, dayDoc_dayOpened. Qed.

Lemma hourlyTotal_dayOpened now st day f :
  dailyStats st !! startOfDay now = None →
  hourlyTotal (dayOpened now st) day f = hourlyTotal st day f.
Proof. intros Hn. unfold hourlyTotal. by rewrite dayDoc_dayOpened. Qed.

(** *** The two entry trackers

    [trackRoomCreated] and [trackRoomJoined] have one shape: the event is
    created, then the daily and the hourly counter are incremented. [today]
    and [now] are the readings of the clock that the two increments take. *)
Definition entry (today now : Z) (e : RoomEvent) (dailyField hourlyField : string)
    (h : string → prog req unit) : prog req unit :=
  try_catch
    (await (RoomEvent_create e);;
     incrementDailyStat today dailyField 1;;
     incrementHourlyStat now hourlyField 1)
    h.

Definition createdEvent (now : Z) (roomId userId : string) : RoomEvent :=
  {| ev_roomId := roomId; ev_eventType := "created"; ev_userId := userId;
     ev_timestamp := now; ev_userCount := 1 |}.

Definition joinedEvent (now : Z) (roomId userId : string) (userCount : nat) : RoomEvent :=
  {| ev_roomId := roomId; ev_eventType := "joined"; ev_userId := userId;
     ev_timestamp := now; ev_userCount := userCount |}.

Lemma trackRoomCreated_entry now roomId userId :
  trackRoomCreated now roomId userId
  = entry now now (createdEvent now roomId userId) "roomsCreated" "roomsCreated"
      (console_error "[Analytics Error] trackRoomCreated:").
Proof. reflexivity. Qed.

Lemma trackRoomJoined_entry now roomId userId userCount :
  trackRoomJoined now roomId userId userCount
  = entry now now (joinedEvent now roomId userId userCount) "totalConnections" "connections"
      (console_error "[Analytics Error] trackRoomJoined:").
Proof. reflexivity. Qed.

Lemma run_entry_reachable today now e dailyField hourlyField h st :
  keyed st →
  run (entry today now e dailyField hourlyField h) st []
  = (Resolved (),
     hourlyStep now hourlyField 1 (dailyStep today dailyField 1 (record e st)), []).
Proof.
  intros Hk. unfold entry. rewrite run_try_catch, run_bind. cbn [run await exec].
  cbv beta iota. rewrite run_bind. cbn [run incrementDailyStat try_catch await exec].
  cbv beta iota zeta.
  rewrite run_incrementHourlyStat_reachable; [done|].
  apply keyed_updateOne. exact Hk.
Qed.

(** Whatever calls fail: nothing is written, or the event is recorded and
    each of the two counters is incremented or not. *)
Lemma run_entry_any today now e dailyField hourlyField h st fs :
  keyed st → (∀ err, h err = Ret ()) →
  let st' := (run (entry today now e dailyField hourlyField h) st fs).1.2 in
  st' = st
  ∨ ∃ st2, (st2 = record e st ∨ st2 = dailyStep today dailyField 1 (record e st))
      ∧ (st' = st2
         ∨ (dailyStats st2 !! startOfDay now = None ∧ st' = dayOpened now st2)
         ∨ st' = hourlyStep now hourlyField 1 st2).
Proof.
  intros Hk Hh st'. subst st'. unfold entry. rewrite run_try_catch, run_bind.
  assert (Hlast : ∀ st2 fs2, keyed st2 →
    let r := run (incrementHourlyStat now hourlyField 1) st2 fs2 in
    (match r with
     | (Resolved a, st', fs') => (Resolved a, st', fs')
     | (Rejected err, st', fs') => run (h err) st' fs'
     end).1.2 = st2
    ∨ (dailyStats st2 !! startOfDay now = None
       ∧ (match r with
          | (Resolved a, st', fs') => (Resolved a, st', fs')
          | (Rejected err, st', fs') => run (h err) st' fs'
          end).1.2 = dayOpened now st2)
    ∨ (match r with
       | (Resolved a, st', fs') => (Resolved a, st', fs')
       | (Rejected err, st', fs') => run (h err) st' fs'
       end).1.2 = hourlyStep now hourlyField 1 st2).
  { intros st2 fs2 Hk2 r. subst r.
    destruct (run_incrementHourlyStat_any now hourlyField 1 st2 fs2 Hk2) as [Hr Hst].
    destruct (run (incrementHourlyStat now hourlyField 1) st2 fs2) as [[[[]|err] st3] fs3];
      cbn in Hr, Hst |- *; [exact Hst | discriminate]. }
  assert (Hk1 : keyed (record e st)) by exact Hk.
  assert (Hk2 : keyed (dailyStep today dailyField 1 (record e st)))
    by (by apply keyed_updateOne).
  destruct fs as [|[] fs]; cbn [run await exec]; cbv beta iota.
  - rewrite run_bind. cbn [run incrementDailyStat try_catch await exec]. cbv beta iota zeta.
    right. eexists. split; [by right|]. by apply Hlast.
  - rewrite Hh. by left.
  - rewrite run_bind. right.
    destruct fs as [|[] fs]; cbn [run incrementDailyStat try_catch await exec];
      cbv beta iota zeta.
    + eexists. split; [by right|]. by apply Hlast.
    + exists (record e st). split; [by left|]. by apply Hlast.
    + eexists. split; [by right|]. by apply Hlast.
Qed.

(** No counter of room creations or of connections is ahead of the events
    recorded for its day. *)
Definition neverAhead (st : store) : Prop :=
  ∀ day,
    dailyValue st day "roomsCreated" ≤ eventsOn st "created" day
    ∧ hourlyTotal st day "roomsCreated" ≤ eventsOn st "created" day
    ∧ dailyValue st day "totalConnections" ≤ eventsOn st "joined" day
    ∧ hourlyTotal st day "connections" ≤ eventsOn st "joined" day.

(** The counters and the events recorded agree. *)
Definition balanced (st : store) : Prop :=
  ∀ day,
    dailyValue st day "roomsCreated" = eventsOn st "created" day
    ∧ hourlyTotal st day "roomsCreated" = eventsOn st "created" day
    ∧ dailyValue st day "totalConnections" = eventsOn st "joined" day
    ∧ hourlyTotal st day "connections" = eventsOn st "joined" day.

Lemma counted_roomsCreated : counted "roomsCreated".
Proof. right. by left. Qed.
Lemma counted_connections : counted "connections".
Proof. by left. Qed.
#[local] Hint Resolve counted_roomsCreated counted_connections : core.

Lemma eventsOn_dailyStep now field amount st eventType day :
  eventsOn (dailyStep now field amount st) eventType day = eventsOn st eventType day.
Proof. reflexivity. Qed.

Lemma eventsOn_hourlyStep now field amount st eventType day :
  eventsOn (hourlyStep now field amount st) eventType day = eventsOn st eventType day.
Proof. reflexivity. Qed.

Lemma eventsOn_dayOpened now st eventType day :
  eventsOn (dayOpened now st) eventType day = eventsOn st eventType day.
Proof. reflexivity. Qed.

(** The four measures of [neverAhead] and [balanced] after each kind of write. *)
Ltac measures :=
  repeat first
    [ rewrite eventsOn_dailyStep
    | rewrite eventsOn_hourlyStep
    | rewrite eventsOn_dayOpened
    | rewrite dailyValue_hourlyStep
    | rewrite hourlyTotal_hourlyStep by auto
    | rewrite dailyValue_dayOpened by assumption
    | rewrite hourlyTotal_dayOpened by assumption
    | rewrite dailyValue_dailyStep
    | rewrite hourlyTotal_dailyStep
    | rewrite eventsOn_record ];
  change (dailyValue (record ?e ?st)) with (dailyValue st) in *;
  change (hourlyTotal (record ?e ?st)) with (hourlyTotal st) in *;
  cbn [ev_eventType ev_timestamp createdEvent joinedEvent String.eqb Ascii.eqb
       Bool.eqb andb].

Ltac settle now day :=
  repeat case_decide;
  repeat match goal with H : _ ∧ _ |- _ => destruct H end;
  try discriminate;
  destruct (Z.eqb_spec (startOfDay now) day);
  try (repeat split; lia);
  try (exfalso; match goal with H : ¬ (_ ∧ _) |- _ => apply H; split; congruence end).

(** The event is of the time [t], and the two increments read the clock on
    the day of [t]. *)
Lemma neverAhead_entry t today now e dailyField hourlyField h st fs :
  (e = createdEvent t (ev_roomId e) (ev_userId e)
   ∧ dailyField = "roomsCreated" ∧ hourlyField = "roomsCreated")
  ∨ (e = joinedEvent t (ev_roomId e) (ev_userId e) (ev_userCount e)
     ∧ dailyField = "totalConnections" ∧ hourlyField = "connections") →
  startOfDay today = startOfDay t → startOfDay now = startOfDay t →
  (∀ err, h err = Ret ()) →
  keyed st → neverAhead st →
  keyed (run (entry today now e dailyField hourlyField h) st fs).1.2
  ∧ neverAhead (run (entry today now e dailyField hourlyField h) st fs).1.2.
Proof.
  intros He Htoday Hnow Hh Hk Hle.
  assert (Hk1 : keyed (record e st)) by exact Hk.
  assert (Hk2 : keyed (dailyStep today dailyField 1 (record e st)))
    by (by apply keyed_updateOne).
  pose proof (run_entry_any today now e dailyField hourlyField h st fs Hk Hh) as Hrun.
  cbv zeta in Hrun.
  set (st' := (run (entry today now e dailyField hourlyField h) st fs).1.2) in *.
  clearbody st'.
  destruct Hrun as [-> | (st2 & Hst2 & Hst')]; [done|].
  assert (keyed st2) as Hk3 by (by destruct Hst2 as [-> | ->]).
  split.
  - destruct Hst' as [-> | [[_ ->] | ->]];
      [done | by apply keyed_dayOpened | by apply keyed_hourlyStep].
  - intros day. specialize (Hle day). destruct Hle as (H1 & H2 & H3 & H4).
    destruct Hst' as [-> | [[Hn ->] | ->]]; destruct Hst2 as [-> | ->];
      destruct He as [(-> & -> & ->) | (-> & -> & ->)];
      measures; rewrite ?Htoday, ?Hnow; settle t day.
Qed.

Lemma balanced_entry t today now e dailyField hourlyField st :
  (e = createdEvent t (ev_roomId e) (ev_userId e)
   ∧ dailyField = "roomsCreated" ∧ hourlyField = "roomsCreated")
  ∨ (e = joinedEvent t (ev_roomId e) (ev_userId e) (ev_userCount e)
     ∧ dailyField = "totalConnections" ∧ hourlyField = "connections") →
  startOfDay today = startOfDay t → startOfDay now = startOfDay t →
  keyed st → balanced st →
  keyed (hourlyStep now hourlyField 1 (dailyStep today dailyField 1 (record e st)))
  ∧ balanced (hourlyStep now hourlyField 1 (dailyStep today dailyField 1 (record e st))).
Proof.
  intros He Htoday Hnow Hk Heq. split.
  - apply keyed_hourlyStep. by apply keyed_updateOne.
  - intros day. specialize (Heq day). destruct Heq as (H1 & H2 & H3 & H4).
    destruct He as [(-> & -> & ->) | (-> & -> & ->)];
      measures; rewrite ?Htoday, ?Hnow; settle t day.
Qed.

(** *** The writes that touch neither the entry events nor their counters *)

(** [st'] has the events of type [created] and [joined] of [st] and its
    counters of room creations and connections. *)
Definition sameEntries (st st' : store) : Prop :=
  (keyed st → keyed st')
  ∧ ∀ day,
      dailyValue st' day "roomsCreated" = dailyValue st day "roomsCreated"
      ∧ hourlyTotal st' day "roomsCreated" = hourlyTotal st day "roomsCreated"
      ∧ dailyValue st' day "totalConnections" = dailyValue st day "totalConnections"
      ∧ hourlyTotal st' day "connections" = hourlyTotal st day "connections"
      ∧ eventsOn st' "created" day = eventsOn st "created" day
      ∧ eventsOn st' "joined" day = eventsOn st "joined" day.

Lemma sameEntries_refl st : sameEntries st st.
Proof. split; [done|]. intros day. repeat split. Qed.

Lemma sameEntries_trans st1 st2 st3 :
  sameEntries st1 st2 → sameEntries st2 st3 → sameEntries st1 st3.
Proof.
  intros [Hk1 H1] [Hk2 H2]. split; [auto|]. intros day.
  destruct (H1 day) as (?&?&?&?&?&?), (H2 day) as (?&?&?&?&?&?).
  repeat split; congruence.
Qed.

Lemma sameEntries_recordLeft now roomId userId remainingUsers st :
  sameEntries st (recordLeft now roomId userId remainingUsers st).
Proof.
  split; [done|]. intros day. repeat split; try done;
    unfold recordLeft; fold (record (leftEvent now roomId userId remainingUsers) st);
    rewrite eventsOn_record; cbn; lia.
Qed.

Lemma sameEntries_recordClosed now roomId st :
  sameEntries st (recordClosed now roomId st).
Proof.
  split; [done|]. intros day. repeat split; try done;
    unfold recordClosed; fold (record (closedEvent now roomId) st);
    rewrite eventsOn_record; cbn; lia.
Qed.

Lemma sameEntries_countCompleted now st :
  sameEntries st (countCompleted now st).
Proof.
  split; [apply keyed_updateOne|]. intros day.
  unfold countCompleted. fold (dailyStep now "roomsCompleted" 1 st).
  rewrite !dailyValue_dailyStep, !hourlyTotal_dailyStep.
  repeat split; try done; rewrite decide_False; try lia; by intros [_ ?].
Qed.

Lemma sameEntries_trackUserLeft now roomId userId remainingUsers st fs :
  sameEntries st (run (trackUserLeft now roomId userId remainingUsers) st fs).1.2.
Proof.
  destruct (run_trackUserLeft now roomId userId remainingUsers st fs)
    as (st1 & Hst1 & Hst').
  assert (sameEntries st st1) as H1.
  { destruct Hst1 as [-> | ->]; [apply sameEntries_refl | apply sameEntries_recordLeft]. }
  eapply sameEntries_trans; [exact H1|].
  destruct Hst' as [-> | [_ [-> | ->]]].
  - apply sameEntries_refl.
  - apply sameEntries_recordClosed.
  - eapply sameEntries_trans; [apply sameEntries_recordClosed | apply sameEntries_countCompleted].
Qed.

Lemma run_trackSignalingEvent roomId eventType st fs :
  let st' := (run (trackSignalingEvent roomId eventType) st fs).1.2 in
  roomEvents st' = roomEvents st ∧ dailyStats st' = dailyStats st
  ∧ errorLogs st' = errorLogs st
  ∧ (latest (filter (λ s, isActive roomId s = true) (transferSessions st)) = None → st' = st).
Proof.
  unfold trackSignalingEvent. rewrite run_try_catch.
  destruct fs as [|[] fs]; cbn -[latest filter]; [|done|];
    destruct (latest _) as [s0|]; cbn; try done;
    destruct fs as [|[] fs]; cbn; done.
Qed.

Lemma sameEntries_trackSignalingEvent roomId eventType st fs :
  sameEntries st (run (trackSignalingEvent roomId eventType) st fs).1.2.
Proof.
  destruct (run_trackSignalingEvent roomId eventType st fs) as (He & Hd & _).
  split.
  - unfold keyed. by rewrite Hd.
  - intros day. unfold eventsOn, hourlyTotal. rewrite !dailyValue_dayDoc.
    unfold dayDoc. rewrite He, Hd. repeat split.
Qed.

Lemma run_logError now errorType errorMessage metadata st fs :
  run (logError now errorType errorMessage metadata) st fs =
    (Resolved (),
     match fs with
     | true :: _ => st
     | _ => withErrorLogs st (errorLogs st ++
              [{| el_errorType := errorType; el_errorMessage := errorMessage;
                  el_metadata := metadata; el_roomId := md_roomId metadata;
                  el_userId := md_userId metadata; el_timestamp := now |}])
     end,
     tail fs).
Proof. by destruct fs as [|[] fs]. Qed.

Lemma sameEntries_logError now errorType errorMessage metadata st fs :
  sameEntries st (run (logError now errorType errorMessage metadata) st fs).1.2.
Proof.
  rewrite run_logError. cbn. destruct fs as [|[] fs]; try apply sameEntries_refl;
    (split; [done|]; intros day; repeat split).
Qed.

Lemma neverAhead_sameEntries st st' : sameEntries st st' → neverAhead st → neverAhead st'.
Proof.
  intros [_ H] Hle day. destruct (H day) as (?&?&?&?&?&?), (Hle day) as (?&?&?&?).
  repeat split; lia.
Qed.

Lemma balanced_sameEntries st st' : sameEntries st st' → balanced st → balanced st'.
Proof.
  intros [_ H] Hle day. destruct (H day) as (?&?&?&?&?&?), (Hle day) as (?&?&?&?).
  repeat split; lia.
Qed.

Lemma run_faults_nil {A} (p : prog req A) st : (run p st []).2 = [].
Proof.
  revert st. induction p as [a|e|X q k IH]; intros st; cbn; [done..|].
  destruct (exec q st). apply IH.
Qed.

End Tallies.

(* ===================================================================== *)
(** ** More on rooms: the report, refused joins, leaving *)
(* ===================================================================== *)

Module RoomsMore.
Import Clock Analytics Server Containment ServerFacts RoomLifecycle Endpoints Tallies.
#[local] Arguments Nat.ltb : simpl never.
#[local] Arguments Nat.eqb : simpl never.
#[local] Arguments Nat.leb : simpl never.
#[local] Arguments logError : simpl never.
#[local] Arguments generateRoomId : simpl never.
#[local] Arguments pretty : simpl never.

Lemma atMostThree_reachable es st fs t :
  atMostThree (runEvents es (initial st fs t)).
Proof.
  induction es as [|e es IH] using rev_ind.
  - intros r s. cbn. by rewrite lookup_empty.
  - rewrite runEvents_snoc. by apply atMostThree_step.
Qed.

(** X2. In every state reached from the empty registries, the
    active-rooms report lists each registered room once, its total is the
    number of rooms listed, and every room listed has at least one and at
    most three users, with [isFull] set from two users on. *)
Theorem activeRooms_report (es : list event) (st : store) (fs : list bool) (t : Z) :
  let w := runEvents es (initial st fs t) in
  let report := activeRooms w in
  totalActiveRooms report = length (ar_rooms report)
  ∧ NoDup (rr_id <$> ar_rooms report)
  ∧ (∀ roomId, roomId ∈ (rr_id <$> ar_rooms report) ↔ is_Some (roomUsers w !! roomId))
  ∧ Forall (λ r, roomUsers w !! rr_id r = Some (members w (rr_id r))
                 ∧ rr_userCount r = occupancy w (rr_id r)
                 ∧ 1 ≤ rr_userCount r ≤ 3
                 ∧ rr_capacity r = 2
                 ∧ (rr_isFull r = true ↔ 2 ≤ rr_userCount r))
      (ar_rooms report).
Proof.
  intros w report.
  pose proof (noEmptyRoom_reachable es st fs t) as Hne.
  pose proof (atMostThree_reachable es st fs t) as Hle.
  fold w in Hne, Hle. subst report. unfold activeRooms. cbn.
  assert (Hids : (rr_id <$> ((λ '(roomId, userSet),
            {| rr_id := roomId; rr_userCount := size userSet;
               rr_capacity := MAX_ROOM_CAPACITY;
               rr_isFull := Nat.leb MAX_ROOM_CAPACITY (size userSet) |})
            <$> map_to_list (roomUsers w))) = (map_to_list (roomUsers w)).*1).
  { rewrite <- list_fmap_compose. apply list_fmap_ext. by intros i [r s] _. }
  rewrite Hids. split; [|split; [|split]].
  - by rewrite length_fmap, length_map_to_list.
  - apply NoDup_fst_map_to_list.
  - intros roomId. rewrite list_elem_of_fmap. split.
    + intros ([r s] & Heq & Hin). apply elem_of_map_to_list in Hin. cbn in Heq. subst. eauto.
    + intros [s Hs]. exists (roomId, s). split; [done|]. by apply elem_of_map_to_list.
  - apply Forall_fmap, Forall_forall. intros [r s] Hin.
    apply elem_of_map_to_list in Hin. cbn.
    unfold members, occupancy. rewrite Hin. cbn.
    pose proof (Hle r s Hin). 
    assert (size s ≠ 0) by (intros Hz; apply (Hne r s Hin); by apply leibniz_equiv, size_empty_iff).
    unfold MAX_ROOM_CAPACITY. rewrite Nat.leb_le. repeat split; lia.
Qed.


(** ** Admission against the report *)



(** ** Rooms the connection registry does not name *)

Lemma currentRoom_mapped w id roomId s :
  currentRoom w id = Some (roomId, s) → userRoomMap w !! id = Some roomId.
Proof.
  unfold currentRoom. destruct (userRoomMap w !! id) as [r|]; [|done].
  destruct (truthy r); [|done]. destruct (roomUsers w !! r); [|done].
  by intros [= <- <-].
Qed.

(** X4. Leaving and teardown act on the one room the connection registry
    names for the socket. A socket that is also a member of another room (it
    created or joined a second room without leaving the first) stays a
    member of that room after [leave-room] and after its own teardown. *)
Theorem other_room_keeps_member (w : world) (id roomId : string) :
  id ∈ members w roomId → userRoomMap w !! id ≠ Some roomId →
  id ∈ members (step (Leave_room id) w) roomId
  ∧ id ∈ members (step (Disconnect id) w) roomId.
Proof.
  intros Hm Hother.
  assert (Hkeep : ∀ e, e = Leave_room id ∨ e = Disconnect id →
            roomUsers (step e w) !! roomId = roomUsers w !! roomId).
  { intros e He. destruct (step_outcome e w) as (o & T & -> & _).
    destruct T; destruct He as [He|He]; try discriminate He; simplify_eq; cbn; try done;
      (assert (roomId0 ≠ roomId)
         by (intros ->; apply Hother; by eapply currentRoom_mapped));
      destruct (Nat.eqb (size s') 0);
      by rewrite ?lookup_delete_ne, ?lookup_insert_ne by done. }
  unfold members in *. rewrite !Hkeep by auto. done.
Qed.

(** A creates a room and then a second one; it is torn down; the first
    room still has it as a member. *)
Definition secondRoom : nat → nat := λ _, 1.
Definition twoRooms : world := step (Create_room "A" secondRoom) afterCreate.

Lemma other_room_keeps_member_example :
  "A" ∈ members (step (Leave_room "A") twoRooms) roomA
  ∧ "A" ∈ members (step (Disconnect "A") twoRooms) roomA.
Proof.
  apply (other_room_keeps_member twoRooms "A" roomA).
  - apply (bool_decide_unpack _). vm_compute. exact I.
  - vm_compute. intros H. discriminate H.
Defined.


(** ** Refused joins *)

(** Whether the store answers the next call. *)
Definition storeAnswers (w : world) : bool :=
  match faults w with
  | true :: _ => false
  | _ => true
  end.

Definition refusalLog (w : world) (errorType errorMessage id roomId : string)
    (occupancy : option nat) : ErrorLog :=
  {| el_errorType := errorType; el_errorMessage := errorMessage;
     el_metadata := {| md_roomId := Some roomId; md_userId := Some id;
                       md_occupancy := occupancy |};
     el_roomId := Some roomId; el_userId := Some id; el_timestamp := clock w |}.

(** X5. A join to a room id that is not registered changes neither
    registry nor the adapter; the requester alone is sent one [error]
    with code ROOM_NOT_FOUND; one [room_not_found] error record naming the
    room and the socket is stored if the store answers, and nothing else in
    the store changes. *)
Theorem join_unknown_room_refused (w : world) (id roomId : string) :
  roomUsers w !! roomId = None →
  let w' := step (Join_room id roomId) w in
  roomUsers w' = roomUsers w ∧ userRoomMap w' = userRoomMap w ∧ rooms w' = rooms w
  ∧ emitted (Join_room id roomId) w =
      [send {[id]} (error "ROOM_NOT_FOUND" "Room ID not found or has been dismissed.")]
  ∧ db w' =
      (if storeAnswers w then
         withErrorLogs (db w) (errorLogs (db w) ++
           [refusalLog w "room_not_found" "Room ID not found" id roomId None])
       else db w).
Proof.
  intros E w'. subst w'.
  unfold emitted, step, handle, join_room, roomExists, roomUsers_has, mbind, handler_bind, hbind.
  cbn. rewrite E, bool_decide_eq_false_2 by (by intros [? ?]). cbn.
  unfold awaitP. cbn [db faults clock withOutbox].
  rewrite !run_logError. unfold storeAnswers.
  destruct (faults w) as [|[] fs]; cbn; by destruct (db w).
Qed.

Lemma join_unknown_room_example :
  let w' := step (Join_room "B" "ZZZZZZ") afterCreate in
  roomUsers w' = roomUsers afterCreate ∧ userRoomMap w' = userRoomMap afterCreate
  ∧ rooms w' = rooms afterCreate
  ∧ emitted (Join_room "B" "ZZZZZZ") afterCreate =
      [send {["B"]} (error "ROOM_NOT_FOUND" "Room ID not found or has been dismissed.")]
  ∧ db w' =
      (if storeAnswers afterCreate then
         withErrorLogs (db afterCreate) (errorLogs (db afterCreate) ++
           [refusalLog afterCreate "room_not_found" "Room ID not found" "B" "ZZZZZZ" None])
       else db afterCreate).
Proof.
  apply (join_unknown_room_refused afterCreate "B" "ZZZZZZ").
  vm_compute. reflexivity.
Defined.

(** X6. A join to a room that holds more than [MAX_ROOM_CAPACITY]
    members is refused: the registries and the adapter are unchanged, the
    requester alone is sent [room-full] and then an [error] with code
    ROOM_FULL, both reporting the current occupancy, and one [room_full]
    error record with that occupancy is stored if the store answers. *)
Theorem join_full_room_refused (w : world) (id roomId : string) (s : gset string) :
  roomUsers w !! roomId = Some s → MAX_ROOM_CAPACITY < size s →
  let w' := step (Join_room id roomId) w in
  roomUsers w' = roomUsers w ∧ userRoomMap w' = userRoomMap w ∧ rooms w' = rooms w
  ∧ emitted (Join_room id roomId) w =
      [send {[id]} (room_full roomId (size s) (Some MAX_ROOM_CAPACITY)
         ("Room is full (" +:+ pretty (size s) +:+ "/"
            +:+ pretty MAX_ROOM_CAPACITY +:+ " users). Cannot join."));
       send {[id]} (error "ROOM_FULL"
         ("Room is full (" +:+ pretty (size s) +:+ "/"
            +:+ pretty MAX_ROOM_CAPACITY +:+ " users)."))]
  ∧ db w' =
      (if storeAnswers w then
         withErrorLogs (db w) (errorLogs (db w) ++
           [refusalLog w "room_full" "Room is full" id roomId (Some (size s))])
       else db w).
Proof.
  intros E Hfull w'. subst w'.
  unfold emitted, step, handle, join_room, roomExists, roomUsers_has, isRoomFull,
    getRoomOccupancy, mbind, mret, handler_bind, handler_ret, hbind, hret.
  cbn. rewrite E, bool_decide_eq_true_2 by eauto. cbn.
  rewrite ?E. cbn. apply Nat.ltb_lt in Hfull as ->. cbn.
  unfold awaitP. cbn [db faults clock withOutbox].
  rewrite !run_logError. unfold storeAnswers.
  destruct (faults w) as [|[] fs]; cbn; by destruct (db w).
Qed.

Definition afterThird : world := step (Join_room "C" roomA) afterJoin.

Lemma join_full_room_example :
  let w' := step (Join_room "D" roomA) afterThird in
  roomUsers w' = roomUsers afterThird ∧ userRoomMap w' = userRoomMap afterThird
  ∧ rooms w' = rooms afterThird
  ∧ emitted (Join_room "D" roomA) afterThird =
      [send {["D"]} (room_full roomA (size ({["A"; "B"; "C"]} : gset string))
         (Some MAX_ROOM_CAPACITY)
         ("Room is full (" +:+ pretty (size ({["A"; "B"; "C"]} : gset string)) +:+ "/"
            +:+ pretty MAX_ROOM_CAPACITY +:+ " users). Cannot join."));
       send {["D"]} (error "ROOM_FULL"
         ("Room is full (" +:+ pretty (size ({["A"; "B"; "C"]} : gset string)) +:+ "/"
            +:+ pretty MAX_ROOM_CAPACITY +:+ " users)."))]
  ∧ db w' =
      (if storeAnswers afterThird then
         withErrorLogs (db afterThird) (errorLogs (db afterThird) ++
           [refusalLog afterThird "room_full" "Room is full" "D" roomA
              (Some (size ({["A"; "B"; "C"]} : gset string)))])
       else db afterThird).
Proof.
  apply (join_full_room_refused afterThird "D" roomA {["A"; "B"; "C"]}).
  - vm_compute. reflexivity.
  - vm_compute. lia.
Defined.


(** ** Joining and leaving again *)

(** X7. A socket that is in no room joins a registered, non-empty room
    with a free place and leaves it again: both registries are as they were
    before the join, and the socket is subscribed to the room's channel no
    more than it was. *)
Theorem join_then_leave_restores (w : world) (id roomId : string) (s : gset string) :
  roomUsers w !! roomId = Some s → s ≠ ∅ → size s ≤ MAX_ROOM_CAPACITY → id ∉ s →
  userRoomMap w !! id = None → truthy roomId = true →
  let w' := step (Leave_room id) (step (Join_room id roomId) w) in
  roomUsers w' = roomUsers w
  ∧ userRoomMap w' = userRoomMap w
  ∧ subscribers w' roomId = subscribers w roomId ∖ {[id]}
  ∧ (∀ r, r ≠ roomId → rooms w' !! r = rooms w !! r).
Proof.
  intros Hreg Hne Hfree Hid Hurm Ht w'. subst w'.
  set (w1 := step (Join_room id roomId) w).
  destruct (step_outcome (Join_room id roomId) w) as (o & T & Hru & Hum & Hro & _).
  fold w1 in Hru, Hum, Hro.
  inversion T as [| |i r Hnone|i r s0 Hs Hfull|i r s0 Hs _ s' subs isFull| | | | | | | |];
    subst o i r; [congruence | assert (s0 = s) as -> by congruence; lia |].
  assert (s0 = s) as -> by congruence. subst s' subs isFull.
  cbn in Hru, Hum, Hro.
  assert (Hcur : currentRoom w1 id = Some (roomId, {[id]} ∪ s)).
  { unfold currentRoom. rewrite Hum, lookup_insert_eq. cbn. rewrite Ht, Hru.
    by rewrite lookup_insert_eq. }
  destruct (step_outcome (Leave_room id) w1) as (o' & T' & Hru' & Hum' & Hro' & _).
  inversion T' as [| | | | |i Hnone|i r0 s0 Hcur0 s'' subs''| | | | | |]; subst o' i;
    [congruence|].
  assert (r0 = roomId ∧ s0 = {[id]} ∪ s) as [-> ->] by (split; congruence).
  subst s'' subs''. cbn in Hru', Hum', Hro'.
  assert (({[id]} ∪ s) ∖ {[id]} = s) as Hback by set_solver.
  rewrite Hback in Hru'.
  assert (Nat.eqb (size s) 0 = false) as Hnz.
  { apply Nat.eqb_neq. intros Hz. apply Hne. by apply leibniz_equiv, size_empty_iff. }
  rewrite Hnz in Hru'.
  split; [|split; [|split]].
  - rewrite Hru', Hru, insert_insert_eq. by apply insert_id.
  - rewrite Hum', Hum, delete_insert_eq. by apply delete_id.
  - unfold subscribers at 1. rewrite Hro', lookup_insert_eq. cbn.
    unfold subscribers at 1. rewrite Hro, lookup_insert_eq. cbn. set_solver.
  - intros r Hr. by rewrite Hro', lookup_insert_ne, Hro, lookup_insert_ne.
Qed.

Lemma join_then_leave_example :
  let w' := step (Leave_room "B") (step (Join_room "B" roomA) afterCreate) in
  roomUsers w' = roomUsers afterCreate
  ∧ userRoomMap w' = userRoomMap afterCreate
  ∧ subscribers w' roomA = subscribers afterCreate roomA ∖ {["B"]}
  ∧ (∀ r, r ≠ roomA → rooms w' !! r = rooms afterCreate !! r).
Proof.
  apply (join_then_leave_restores afterCreate "B" roomA {["A"]}).
  - vm_compute. reflexivity.
  - apply (bool_decide_unpack _). vm_compute. exact I.
  - vm_compute. lia.
  - apply (bool_decide_unpack _). vm_compute. exact I.
  - vm_compute. reflexivity.
  - vm_compute. reflexivity.
Defined.

(** ** Creation over an existing room *)

(** X8. [create-room] does not look whether the generated id is in use.
    When it is, the creator becomes the only registered member of the room;
    a socket that was in the room keeps its entry in the connection registry
    and its subscription to the room's channel, and is sent nothing. *)
Theorem create_over_existing_room (w : world) (id other : string) (rnd : nat → nat) :
  let roomId := generateRoomId rnd in
  let w' := step (Create_room id rnd) w in
  other ≠ id → userRoomMap w !! other = Some roomId →
  members w' roomId = {[id]}
  ∧ userRoomMap w' !! other = Some roomId
  ∧ (other ∈ subscribers w roomId → other ∈ subscribers w' roomId)
  ∧ Forall (λ em, other ∉ recipients em) (emitted (Create_room id rnd) w).
Proof.
  intros roomId w' Hne Hurm. subst w'.
  destruct (step_outcome (Create_room id rnd) w) as (o & T & Hru & Hum & Hro & Hem).
  unfold members, subscribers. rewrite Hru, Hum, Hro, Hem.
  inversion T; subst; cbn. fold roomId.
  rewrite !lookup_insert_eq. cbn. rewrite lookup_insert_ne by done.
  repeat split; [done | set_solver |].
  repeat constructor. cbn. set_solver.
Qed.

(** A creates a room; B creates a room and draws the same id. *)
Lemma create_over_existing_example :
  let w' := step (Create_room "B" firstRoom) afterCreate in
  members w' (generateRoomId firstRoom) = {["B"]}
  ∧ userRoomMap w' !! "A" = Some (generateRoomId firstRoom)
  ∧ ("A" ∈ subscribers afterCreate (generateRoomId firstRoom)
     → "A" ∈ subscribers w' (generateRoomId firstRoom))
  ∧ Forall (λ em, "A" ∉ recipients em) (emitted (Create_room "B" firstRoom) afterCreate).
Proof.
  apply (create_over_existing_room afterCreate "B" "A" firstRoom).
  - discriminate.
  - vm_compute. reflexivity.
Defined.

(** ** What the departing socket is sent *)


(** ** Who removes a socket from a room *)

(** The socket an event comes from. *)
Definition actor (e : event) : option string :=
  match e with
  | Connection id | Create_room id _ | Join_room id _ | Leave_room id
  | Offer id _ _ | Answer id _ _ | Ice_candidate id _ _ | Disconnect id => Some id
  | Tick _ => None
  end.

(** [e] creates a room under the id [roomId]. *)
Definition creates (roomId : string) (e : event) : Prop :=
  match e with
  | Create_room _ rnd => generateRoomId rnd = roomId
  | _ => False
  end.

Lemma member_kept_step e w id roomId :
  actor e ≠ Some id → ¬ creates roomId e →
  id ∈ members w roomId → id ∈ members (step e w) roomId.
Proof.
  intros Ha Hc. destruct (step_outcome e w) as (o & T & Hru & _).
  unfold members. rewrite Hru. clear Hru.
  destruct T; cbn in *; try done.
  - rewrite lookup_insert_ne; [done|]. subst roomId0. done.
  - destruct (decide (roomId0 = roomId)) as [->|Hr].
    + rewrite lookup_insert_eq. cbn. rewrite H. cbn. subst s'. set_solver.
    + by rewrite lookup_insert_ne.
  - pose proof (currentRoom_registered _ _ _ _ H) as Hreg.
    assert (id0 ≠ id) by congruence.
    destruct (decide (roomId0 = roomId)) as [->|Hr].
    + rewrite Hreg. cbn. intros Hin.
      assert (id ∈ s') as Hin' by (subst s'; set_solver).
      destruct (Nat.eqb (size s') 0) eqn:Ez.
      * apply size_zero_empty in Ez. set_solver.
      * by rewrite lookup_insert_eq.
    + destruct (Nat.eqb (size s') 0);
        [by rewrite lookup_delete_ne | by rewrite lookup_insert_ne].
  - pose proof (currentRoom_registered _ _ _ _ H) as Hreg.
    assert (id0 ≠ id) by congruence.
    destruct (decide (roomId0 = roomId)) as [->|Hr].
    + rewrite Hreg. cbn. intros Hin.
      assert (id ∈ s') as Hin' by (subst s'; set_solver).
      destruct (Nat.eqb (size s') 0) eqn:Ez.
      * apply size_zero_empty in Ez. set_solver.
      * by rewrite lookup_insert_eq.
    + destruct (Nat.eqb (size s') 0);
        [by rewrite lookup_delete_ne | by rewrite lookup_insert_ne].
Qed.

(** X10. Handlers run one at a time, each to its end. No handler then
    removes another socket from a room: a member of a room is still a
    member, and the room still registered, after any sequence of events that
    come from other sockets and do not create a room under the same id. (A
    handler that resumes after other events were handled can delete the room
    another socket has joined: [Suspension].) *)
Theorem member_removed_only_by_itself (es : list event) (w : world) (id roomId : string) :
  Forall (λ e, actor e ≠ Some id ∧ ¬ creates roomId e) es →
  id ∈ members w roomId →
  id ∈ members (runEvents es w) roomId ∧ is_Some (roomUsers (runEvents es w) !! roomId).
Proof.
  intros Hes Hin.
  assert (id ∈ members (runEvents es w) roomId) as Hkept.
  { induction es as [|e es IH] using rev_ind; [done|].
    apply Forall_app in Hes as [Hes He]. apply Forall_inv in He as [Ha Hc].
    rewrite runEvents_snoc. apply member_kept_step; auto. }
  split; [done|]. unfold members in Hkept.
  destruct (roomUsers (runEvents es w) !! roomId); [eauto | set_solver].
Qed.

(** A created two rooms and was torn down; whatever B and C do in its
    first room, A stays registered in it. *)
Lemma member_removed_only_by_itself_example :
  let es := [Join_room "B" roomA; Join_room "C" roomA; Leave_room "B"; Disconnect "C"] in
  let w := step (Disconnect "A") twoRooms in
  "A" ∈ members (runEvents es w) roomA ∧ is_Some (roomUsers (runEvents es w) !! roomA).
Proof.
  apply (member_removed_only_by_itself
           [Join_room "B" roomA; Join_room "C" roomA; Leave_room "B"; Disconnect "C"]
           (step (Disconnect "A") twoRooms) "A" roomA).
  - repeat constructor; cbn; try discriminate; auto.
  - apply (bool_decide_unpack _). vm_compute. exact I.
Defined.

End RoomsMore.

(* ===================================================================== *)
(** ** The store behind the server *)
(* ===================================================================== *)

Module Ledger.
Import Clock Analytics Server Containment Concurrent Counters Closure ServerFacts
  RoomLifecycle Persistence Tallies.
Local Open Scope Z_scope.
#[local] Arguments Nat.ltb : simpl never.
#[local] Arguments Nat.eqb : simpl never.
#[local] Arguments generateRoomId : simpl never.
#[local] Arguments pretty : simpl never.

(** The recording operations the socket handlers call. *)
Definition serverCall (r : recording) : Prop :=
  match r with
  | TrackRoomCreated _ _ _ | TrackRoomJoined _ _ _ _ | TrackUserLeft _ _ _ _
  | TrackSignalingEvent _ _ | LogError _ _ _ _ => True
  | _ => False
  end.

(** [h] keeps a property of the store and of its availability. *)
Definition keeps (I : store → list bool → Prop) {A} (h : handler A) : Prop :=
  ∀ w, I (db w) (faults w) → I (db (h w).2) (faults (h w).2).

Section Keeps.
Variable I : store → list bool → Prop.

Lemma keeps_bind {A B} (h : handler A) (f : A → handler B) :
  keeps I h → (∀ a, keeps I (f a)) → keeps I (h ≫= f).
Proof.
  intros Hh Hf w Hw. specialize (Hh w Hw).
  unfold mbind, handler_bind, hbind.
  destruct (h w) as [[a|e] w1]; cbn in *; [by apply Hf | done].
Qed.

Lemma keeps_ret {A} (a : A) : keeps I (mret a).
Proof. by intros w Hw. Qed.

Lemma keeps_awaitP {A} (p : Z → prog req A) :
  (∀ now st fs, I st fs → I (run (p now) st fs).1.2 (run (p now) st fs).2) →
  keeps I (awaitP p).
Proof.
  intros Hp w Hw. unfold awaitP. specialize (Hp (clock w) _ _ Hw).
  by destruct (run (p (clock w)) (db w) (faults w)) as [[r st] fs].
Qed.

Hypothesis calls : ∀ r, serverCall r → ∀ st fs,
  I st fs → I (run (perform r) st fs).1.2 (run (perform r) st fs).2.

(** The registry, adapter and emit operations leave the store alone. *)
Ltac keeps_prim :=
  let w := fresh "w" in
  let Hw := fresh "Hw" in
  intros w Hw;
  unfold roomUsers_has, roomUsers_get, roomUsers_set, roomUsers_delete,
    roomUserSet_add, roomUserSet_delete, roomUserSet_size,
    userRoomMap_get, userRoomMap_set, userRoomMap_delete,
    socket_join, socket_leave, socket_leaveAll,
    socket_emit, socket_to_emit, io_to_emit, emit, getRoomOccupancy, tick;
  cbn; repeat case_match; cbn; exact Hw.

Ltac keeps_call :=
  match goal with
  | |- keeps _ (awaitP (λ now, trackRoomCreated now ?r ?u)) =>
      apply keeps_awaitP; intros now st fs;
      exact (calls (TrackRoomCreated now r u) Logic.I st fs)
  | |- keeps _ (awaitP (λ now, trackRoomJoined now ?r ?u ?n)) =>
      apply keeps_awaitP; intros now st fs;
      exact (calls (TrackRoomJoined now r u n) Logic.I st fs)
  | |- keeps _ (awaitP (λ now, trackUserLeft now ?r ?u ?n)) =>
      apply keeps_awaitP; intros now st fs;
      exact (calls (TrackUserLeft now r u n) Logic.I st fs)
  | |- keeps _ (awaitP (λ _, trackSignalingEvent ?r ?t)) =>
      apply keeps_awaitP; intros now st fs;
      exact (calls (TrackSignalingEvent r t) Logic.I st fs)
  | |- keeps _ (awaitP (λ now, logError now ?t ?m ?md)) =>
      apply keeps_awaitP; intros now st fs;
      exact (calls (LogError now t m md) Logic.I st fs)
  end.

Ltac keeps_step :=
  first
    [ apply keeps_bind; [| intros ?]
    | apply keeps_ret
    | keeps_call
    | match goal with
      | |- keeps _ (if ?b then _ else _) => destruct b
      | |- keeps _ (match ?o with _ => _ end) => destruct o
      end
    | keeps_prim ].

(** The handlers touch the store through the recording operations only. *)
Lemma handle_keeps e : keeps I (handle e).
Proof using calls.
  destruct e; cbn [handle];
    unfold connection, create_room, join_room, leave_room, on_offer, on_answer,
      on_ice_candidate, teardown, disconnecting_begin, disconnecting_resume, disconnect,
      deleteRoom, isRoomFull, roomExists;
    repeat keeps_step.
Qed.

Lemma runEvents_keeps es w :
  I (db w) (faults w) → I (db (runEvents es w)) (faults (runEvents es w)).
Proof using calls.
  induction es as [|e es IH] using rev_ind; intros Hw; [done|].
  rewrite runEvents_snoc. apply handle_keeps. by apply IH.
Qed.

End Keeps.

Lemma balanced_empty : balanced emptyStore.
Proof. intros day. repeat split. Qed.

Lemma neverAhead_empty : neverAhead emptyStore.
Proof. intros day. repeat split; done. Qed.

(** The clock standing still while a handler runs: with the store
    answering every call, the counters of room creations and connections
    agree with the events on record. *)
Lemma counters_match_events_clock_still (es : list event) (t : Z) (day : Z) :
  let st := db (runEvents es (initial emptyStore [] t)) in
  dailyValue st day "roomsCreated" = eventsOn st "created" day
  ∧ hourlyTotal st day "roomsCreated" = eventsOn st "created" day
  ∧ dailyValue st day "totalConnections" = eventsOn st "joined" day
  ∧ hourlyTotal st day "connections" = eventsOn st "joined" day.
Proof.
  intros st. subst st.
  enough (H : (λ st fs, fs = [] ∧ keyed st ∧ balanced st)
                (db (runEvents es (initial emptyStore [] t)))
                (faults (runEvents es (initial emptyStore [] t))))
    by (destruct H as (_ & _ & H); apply H).
  apply runEvents_keeps.
  - intros r Hr st fs (-> & Hk & Hb). split; [apply run_faults_nil|].
    destruct r as [now roomId userId|now roomId userId userCount
                  |now roomId userId remainingUsers| |roomId eventType
                  |now errorType errorMessage metadata| |]; try done; cbn [perform].
    + rewrite trackRoomCreated_entry, run_entry_reachable by done.
      apply (balanced_entry now); [left; by repeat split | done..].
    + rewrite trackRoomJoined_entry, run_entry_reachable by done.
      apply (balanced_entry now); [right; by repeat split | done..].
    + pose proof (sameEntries_trackUserLeft now roomId userId remainingUsers st []) as Hs.
      split; [by apply Hs | by eapply balanced_sameEntries].
    + pose proof (sameEntries_trackSignalingEvent roomId eventType st []) as Hs.
      split; [by apply Hs | by eapply balanced_sameEntries].
  - cbn. split; [done|]. split; [apply keyed_empty | apply balanced_empty].
Qed.

(** The clock standing still while a handler runs: whatever calls on the
    store fail, no counter of room creations or connections is ahead of the
    events on record. *)
Lemma counters_never_ahead_clock_still (es : list event) (fs : list bool) (t : Z)
    (day : Z) :
  let st := db (runEvents es (initial emptyStore fs t)) in
  dailyValue st day "roomsCreated" ≤ eventsOn st "created" day
  ∧ hourlyTotal st day "roomsCreated" ≤ eventsOn st "created" day
  ∧ dailyValue st day "totalConnections" ≤ eventsOn st "joined" day
  ∧ hourlyTotal st day "connections" ≤ eventsOn st "joined" day.
Proof.
  intros st. subst st.
  enough (H : (λ st (_ : list bool), keyed st ∧ neverAhead st)
                (db (runEvents es (initial emptyStore fs t)))
                (faults (runEvents es (initial emptyStore fs t))))
    by (destruct H as (_ & H); apply H).
  apply (runEvents_keeps (λ st (_ : list bool), keyed st ∧ neverAhead st)).
  - intros r Hr st fs0 (Hk & Hb).
    destruct r as [now roomId userId|now roomId userId userCount
                  |now roomId userId remainingUsers| |roomId eventType
                  |now errorType errorMessage metadata| |]; try done; cbn [perform].
    + rewrite trackRoomCreated_entry.
      apply (neverAhead_entry now); [left; by repeat split | done..].
    + rewrite trackRoomJoined_entry.
      apply (neverAhead_entry now); [right; by repeat split | done..].
    + pose proof (sameEntries_trackUserLeft now roomId userId remainingUsers st fs0) as Hs.
      split; [by apply Hs | by eapply neverAhead_sameEntries].
    + pose proof (sameEntries_trackSignalingEvent roomId eventType st fs0) as Hs.
      split; [by apply Hs | by eapply neverAhead_sameEntries].
    + pose proof (sameEntries_logError now errorType errorMessage metadata st fs0) as Hs.
      split; [by apply Hs | by eapply neverAhead_sameEntries].
  - cbn. split; [apply keyed_empty | apply neverAhead_empty].
Qed.

(** ** Signaling without a transfer session *)

Lemma latest_none_inactive roomId (l : list TransferSession) :
  (∀ s, s ∈ l → isActive roomId s = false) →
  latest (filter (λ s, isActive roomId s = true) l) = None.
Proof.
  intros Hl. replace (filter (λ s, isActive roomId s = true) l) with (@nil TransferSession);
    [done|].
  symmetry. induction l as [|s l IH]; [done|].
  rewrite filter_cons, decide_False.
  - apply IH. intros s' Hs'. apply Hl. by right.
  - rewrite (Hl s) by left. done.
Qed.

(** X14. When no transfer session of the room is [initiated] or
    [transferring], relaying an offer, an answer or an ICE candidate for it
    writes nothing to the store, whether the store answers or not. *)
Theorem relay_without_session_writes_nothing (w : world) (id payload roomId : string) :
  (∀ s, s ∈ transferSessions (db w) → isActive roomId s = false) →
  db (step (Offer id payload roomId) w) = db w
  ∧ db (step (Answer id payload roomId) w) = db w
  ∧ db (step (Ice_candidate id payload roomId) w) = db w.
Proof.
  intros Hl. apply latest_none_inactive in Hl.
  assert (H : ∀ eventType, (run (trackSignalingEvent roomId eventType) (db w) (faults w)).1.2
                           = db w).
  { intros eventType.
    by destruct (run_trackSignalingEvent roomId eventType (db w) (faults w)) as (_&_&_&->). }
  unfold step, handle, on_offer, on_answer, on_ice_candidate, awaitP, socket_to_emit, emit,
    mbind, handler_bind, hbind.
  repeat split.
  - specialize (H "offer").
    destruct (run (trackSignalingEvent roomId "offer") (db w) (faults w)) as [[[[]|e] st] fs];
      cbn in *; done.
  - specialize (H "answer").
    destruct (run (trackSignalingEvent roomId "answer") (db w) (faults w)) as [[[[]|e] st] fs];
      cbn in *; done.
  - specialize (H "iceCandidate").
    destruct (run (trackSignalingEvent roomId "iceCandidate") (db w) (faults w))
      as [[[[]|e] st] fs]; cbn in *; done.
Qed.

Lemma relay_without_session_example :
  db (step (Offer "A" "sdp" roomA) afterJoin) = db afterJoin
  ∧ db (step (Answer "A" "sdp" roomA) afterJoin) = db afterJoin
  ∧ db (step (Ice_candidate "A" "sdp" roomA) afterJoin) = db afterJoin.
Proof.
  apply (relay_without_session_writes_nothing afterJoin "A" "sdp" roomA).
  intros s Hs. vm_compute in Hs. by apply elem_of_nil in Hs.
Defined.

End Ledger.

(* ===================================================================== *)
(** ** The store behind the server, the clock moving on *)
(* ===================================================================== *)

Module OneByOne.
Import Clock ClockFacts Analytics Server Containment Concurrent Counters Closure
  ServerFacts RoomLifecycle Tallies Ledger.
Import Scheduling.
Local Open Scope Z_scope.
#[local] Arguments Nat.ltb : simpl never.
#[local] Arguments Nat.eqb : simpl never.
#[local] Arguments generateRoomId : simpl never.
#[local] Arguments pretty : simpl never.

(** *** The awaited call, piece by piece *)

(** What the call settles to, the store and the failures left. *)
Definition outcome {A} (x : reply A * store * list bool * Z * list nat)
  : reply A * store * list bool := x.1.1.

Lemma runTicking_bind {A B} (p : prog treq A) (f : A → prog treq B) ticks st fs t :
  runTicking (p ≫= f) ticks st fs t
  = match runTicking p ticks st fs t with
    | (Resolved a, st', fs', t', ticks') => runTicking (f a) ticks' st' fs' t'
    | (Rejected e, st', fs', t', ticks') => (Rejected e, st', fs', t', ticks')
    end.
Proof.
  revert ticks st fs t. induction p as [a|e|X q k IH]; intros ticks st fs t; cbn; [done..|].
  destruct (reading q t) as [r|]; [apply IH|].
  destruct fs as [|[] fs]; [destruct (answer q _ st)| |destruct (answer q _ st)]; apply IH.
Qed.

Lemma runTicking_try_catch {A} (p : prog treq A) h ticks st fs t :
  runTicking (try_catch p h) ticks st fs t
  = match runTicking p ticks st fs t with
    | (Resolved a, st', fs', t', ticks') => (Resolved a, st', fs', t', ticks')
    | (Rejected e, st', fs', t', ticks') => runTicking (h e) ticks' st' fs' t'
    end.
Proof.
  revert ticks st fs t. induction p as [a|e|X q k IH]; intros ticks st fs t; cbn; [done..|].
  destruct (reading q t) as [r|]; [apply IH|].
  destruct fs as [|[] fs]; [destruct (answer q _ st)| |destruct (answer q _ st)]; apply IH.
Qed.

(** A body whose failures are logged and dropped. *)
Lemma outcome_try_catch (p : prog treq unit) h ticks st fs t :
  (∀ e, h e = Ret ()) →
  outcome (runTicking (try_catch p h) ticks st fs t)
  = match outcome (runTicking p ticks st fs t) with
    | (Resolved a, st', fs') => (Resolved a, st', fs')
    | (Rejected e, st', fs') => (Resolved (), st', fs')
    end.
Proof.
  intros Hh. rewrite runTicking_try_catch.
  destruct (runTicking p ticks st fs t) as [[[[[a|e] st'] fs'] t'] ticks']; [done|].
  by rewrite Hh.
Qed.

Lemma outcome_bind {A B} (p : prog treq A) (f : A → prog treq B) ticks st fs t :
  outcome (runTicking (p ≫= f) ticks st fs t)
  = match runTicking p ticks st fs t with
    | (Resolved a, st', fs', t', ticks') => outcome (runTicking (f a) ticks' st' fs' t')
    | (Rejected e, st', fs', _, _) => (Rejected e, st', fs')
    end.
Proof.
  rewrite runTicking_bind.
  by destruct (runTicking p ticks st fs t) as [[[[[a|e] st'] fs'] t'] ticks'].
Qed.

(** A function of [Analytics] run from here does what it does there. *)
Lemma outcome_onStore {A} (p : prog req A) ticks st fs t :
  outcome (runTicking (onStore p) ticks st fs t) = run p st fs.
Proof.
  revert ticks st fs t. induction p as [a|e|X q k IH]; intros ticks st fs t; cbn; [done..|].
  destruct fs as [|[] fs]; [destruct (exec q st)| |destruct (exec q st)]; apply IH.
Qed.

(** Reading the clock takes no time. *)
Lemma runTicking_date ticks st fs t :
  runTicking date ticks st fs t = (Resolved t, st, fs, t, ticks).
Proof. reflexivity. Qed.

(** One call on the store takes one tick. *)
Lemma runTicking_await {X} (q : req X) ticks st fs t :
  runTicking (await (Store q)) ticks st fs t
  = let '(r, st', fs') := run (await q) st fs in
    (r, st', fs', t + Z.of_nat (hd 0%nat ticks), tl ticks).
Proof.
  destruct fs as [|[] fs]; cbn; [|done|]; by destruct (exec q st) as [[x|e] st'].
Qed.

Lemma runTicking_incrementDailyStat field amount ticks st fs t :
  runTicking (incrementDailyStat field amount) ticks st fs t
  = let '(r, st', fs') := run (Analytics.incrementDailyStat t field amount) st fs in
    (r, st', fs', t + Z.of_nat (hd 0%nat ticks), tl ticks).
Proof. by destruct fs as [|[] fs]. Qed.

Lemma outcome_incrementHourlyStat field amount ticks st fs t :
  outcome (runTicking (incrementHourlyStat field amount) ticks st fs t)
  = run (Analytics.incrementHourlyStat t field amount) st fs.
Proof.
  unfold incrementHourlyStat. rewrite outcome_bind, runTicking_date. apply outcome_onStore.
Qed.

(** With the store answering, it goes on answering. *)
Lemma runTicking_faults_nil {A} (p : prog treq A) ticks st t :
  (outcome (runTicking p ticks st [] t)).2 = [].
Proof.
  revert ticks st t. induction p as [a|e|X q k IH]; intros ticks st t; cbn; [done..|].
  destruct (reading q t) as [r|]; [apply IH|].
  destruct (answer q _ st). apply IH.
Qed.

(** *** The two entry trackers, with their three readings of the clock *)

Definition timedEntry (event : Z → RoomEvent) (dailyField hourlyField : string)
    (h : string → prog treq unit) : prog treq unit :=
  try_catch
    (timestamp ← date;
     await (Store (RoomEvent_create (event timestamp)));;
     incrementDailyStat dailyField 1;;
     incrementHourlyStat hourlyField 1)
    h.

Lemma trackRoomCreated_timedEntry roomId userId :
  trackRoomCreated roomId userId
  = timedEntry (λ t, createdEvent t roomId userId) "roomsCreated" "roomsCreated"
      (tconsole_error "[Analytics Error] trackRoomCreated:").
Proof. reflexivity. Qed.

Lemma trackRoomJoined_timedEntry roomId userId userCount :
  trackRoomJoined roomId userId userCount
  = timedEntry (λ t, joinedEvent t roomId userId userCount) "totalConnections" "connections"
      (tconsole_error "[Analytics Error] trackRoomJoined:").
Proof. reflexivity. Qed.

(** The time after the first tick, and after the second. *)
Definition afterOne (t : Z) (ticks : list nat) : Z := t + Z.of_nat (hd 0%nat ticks).
Definition afterTwo (t : Z) (ticks : list nat) : Z :=
  afterOne t ticks + Z.of_nat (hd 0%nat (tl ticks)).

(** The event is stamped when the call begins, the daily increment reads
    the clock after the first answer of the store and the hourly increment
    after the second. *)
Lemma outcome_timedEntry event dailyField hourlyField h h' ticks st fs t :
  (∀ e, h e = Ret ()) → (∀ e, h' e = Ret ()) →
  outcome (runTicking (timedEntry event dailyField hourlyField h) ticks st fs t)
  = run (entry (afterOne t ticks) (afterTwo t ticks) (event t) dailyField hourlyField h')
      st fs.
Proof.
  intros Hh Hh'. unfold timedEntry, entry.
  rewrite outcome_try_catch by done. rewrite run_try_catch.
  rewrite outcome_bind, runTicking_date.
  rewrite outcome_bind, runTicking_await, run_bind.
  destruct (run (await (RoomEvent_create (event t))) st fs) as [[[[]|e] st1] fs1];
    cbv beta iota zeta; [|by rewrite Hh'].
  rewrite outcome_bind, runTicking_incrementDailyStat, run_bind.
  fold (afterOne t ticks).
  destruct (run (Analytics.incrementDailyStat (afterOne t ticks) dailyField 1) st1 fs1)
    as [[[[]|e] st2] fs2]; cbv beta iota zeta; [|by rewrite Hh'].
  rewrite outcome_incrementHourlyStat. fold (afterTwo t ticks).
  destruct (run (Analytics.incrementHourlyStat (afterTwo t ticks) hourlyField 1) st2 fs2)
    as [[[[]|e] st3] fs3]; [done|by rewrite Hh'].
Qed.

(** *** The calls that leave the entries alone *)

(** Whatever the ticks and the failures, [p] leaves the [created] and
    [joined] events and their counters as they are. *)
Definition harmless {A} (p : prog treq A) : Prop :=
  ∀ ticks st fs t, sameEntries st (outcome (runTicking p ticks st fs t)).1.2.

Lemma harmless_ret {A} (a : A) : harmless (Ret a : prog treq A).
Proof. intros ticks st fs t. apply sameEntries_refl. Qed.

Lemma harmless_bind {A B} (p : prog treq A) (f : A → prog treq B) :
  harmless p → (∀ a, harmless (f a)) → harmless (p ≫= f).
Proof.
  intros Hp Hf ticks st fs t. specialize (Hp ticks st fs t).
  rewrite runTicking_bind. unfold outcome in *.
  destruct (runTicking p ticks st fs t) as [[[[[a|e] st'] fs'] t'] ticks']; cbn in *;
    [|exact Hp].
  eapply sameEntries_trans; [exact Hp | apply Hf].
Qed.

Lemma harmless_try_catch {A} (p : prog treq A) h :
  harmless p → (∀ e, harmless (h e)) → harmless (try_catch p h).
Proof.
  intros Hp Hh ticks st fs t. specialize (Hp ticks st fs t).
  rewrite runTicking_try_catch. unfold outcome in *.
  destruct (runTicking p ticks st fs t) as [[[[[a|e] st'] fs'] t'] ticks']; cbn in *;
    [exact Hp|].
  eapply sameEntries_trans; [exact Hp | apply Hh].
Qed.

Lemma harmless_date : harmless date.
Proof. intros ticks st fs t. apply sameEntries_refl. Qed.

Lemma harmless_store {X} (q : req X) :
  (∀ st, sameEntries st (exec q st).2) → harmless (await (Store q)).
Proof.
  intros Hq ticks st fs t. specialize (Hq st).
  destruct fs as [|[] fs]; cbn; [|apply sameEntries_refl|];
    by destruct (exec q st) as [[x|e] st'].
Qed.

Lemma harmless_onStore {A} (p : prog req A) :
  (∀ st fs, sameEntries st (run p st fs).1.2) → harmless (onStore p).
Proof. intros Hp ticks st fs t. rewrite outcome_onStore. apply Hp. Qed.

Lemma harmless_trackRoomClosed roomId : harmless (trackRoomClosed roomId).
Proof.
  unfold trackRoomClosed.
  apply harmless_try_catch; [|intros e; apply harmless_ret].
  apply harmless_bind; [apply harmless_date | intros today].
  apply harmless_bind; [apply harmless_store; intros st; apply sameEntries_refl|].
  intros [|]; [apply harmless_ret|].
  apply harmless_bind; [apply harmless_date | intros timestamp].
  apply harmless_bind;
    [apply harmless_store; intros st; apply (sameEntries_recordClosed timestamp roomId)|].
  intros _. unfold incrementDailyStat.
  apply harmless_bind; [apply harmless_date | intros now].
  apply harmless_onStore. intros st fs.
  destruct fs as [|[] fs]; cbn;
    [apply (sameEntries_countCompleted now) | apply sameEntries_refl
    | apply (sameEntries_countCompleted now)].
Qed.

Lemma harmless_trackUserLeft roomId userId remainingUsers :
  harmless (trackUserLeft roomId userId remainingUsers).
Proof.
  unfold trackUserLeft.
  apply harmless_try_catch; [|intros e; apply harmless_ret].
  apply harmless_bind; [apply harmless_date | intros timestamp].
  apply harmless_bind;
    [apply harmless_store; intros st;
     apply (sameEntries_recordLeft timestamp roomId userId remainingUsers)|].
  intros _. destruct (Nat.eqb remainingUsers 0);
    [apply harmless_trackRoomClosed | apply harmless_ret].
Qed.

Lemma harmless_trackSignalingEvent roomId eventType :
  harmless (trackSignalingEvent roomId eventType).
Proof. apply harmless_onStore. apply sameEntries_trackSignalingEvent. Qed.

Lemma harmless_logError errorType errorMessage metadata :
  harmless (logError errorType errorMessage metadata).
Proof.
  unfold logError. apply harmless_bind; [apply harmless_date | intros timestamp].
  apply harmless_onStore. apply sameEntries_logError.
Qed.

(** *** The handlers *)

(** The calls the handlers await. *)
Inductive tracked : prog treq unit → Prop :=
  | tracked_created roomId userId : tracked (trackRoomCreated roomId userId)
  | tracked_joined roomId userId userCount :
      tracked (trackRoomJoined roomId userId userCount)
  | tracked_left roomId userId remainingUsers :
      tracked (trackUserLeft roomId userId remainingUsers)
  | tracked_signaling roomId eventType : tracked (trackSignalingEvent roomId eventType)
  | tracked_error errorType errorMessage metadata :
      tracked (logError errorType errorMessage metadata).

(** [h] leaves the store, its failures and the clock as they are. *)
Definition still {A} (h : handler A) : Prop :=
  ∀ w, db (h w).2 = db w ∧ faults (h w).2 = faults w ∧ clock (h w).2 = clock w.

(** [h] is still, and what it awaits is a tracked call followed by still
    statements. *)
Definition tame (h : handler (option suspended)) : Prop :=
  ∀ w, (db (h w).2 = db w ∧ faults (h w).2 = faults w ∧ clock (h w).2 = clock w)
       ∧ ∀ s, (h w).1 = Resolved (Some s) → tracked (awaited s) ∧ still (rest s).

Lemma still_bind {A B} (h : handler A) (f : A → handler B) :
  still h → (∀ a, still (f a)) → still (h ≫= f).
Proof.
  intros Hh Hf w. specialize (Hh w). unfold mbind, handler_bind, hbind.
  destruct (h w) as [[a|e] w1]; cbn in *; [|done].
  destruct Hh as (<- & <- & <-). apply Hf.
Qed.

Lemma still_ret {A} (a : A) : still (mret a).
Proof. by intros w. Qed.

Lemma tame_bind {A} (h : handler A) (f : A → handler (option suspended)) :
  still h → (∀ a, tame (f a)) → tame (h ≫= f).
Proof.
  intros Hh Hf w. specialize (Hh w). unfold mbind, handler_bind, hbind.
  destruct (h w) as [[a|e] w1]; cbn in *; [|done].
  destruct Hh as (<- & <- & <-). apply Hf.
Qed.

Lemma tame_await_then p k : tracked p → still k → tame (await_then p k).
Proof. intros Hp Hk w. split; [done|]. intros s [= <-]. done. Qed.

Lemma tame_returns : tame returns.
Proof. intros w. split; [done|]. by intros s [=]. Qed.

(** What is pending is handed on after still statements. *)
Lemma tame_pending {B} (h : handler (option suspended)) (k : handler B) :
  tame h → still k → tame (pending ← h; k;; mret pending).
Proof.
  intros Hh Hk w. specialize (Hh w). unfold mbind, handler_bind, hbind.
  destruct (h w) as [[a|e] w1]; cbn in *; [|by destruct Hh].
  destruct Hh as [(<- & <- & <-) Hs]. specialize (Hk w1).
  destruct (k w1) as [[b|e] w2]; cbn in *; [|done].
  split; [done|]. intros s [= ->]. by apply Hs.
Qed.

(** The registry, adapter and emit operations leave the store and the
    clock alone. *)
Ltac still_prim :=
  let w := fresh "w" in
  intros w;
  unfold roomUsers_has, roomUsers_get, roomUsers_set, roomUsers_delete,
    roomUserSet_add, roomUserSet_delete, roomUserSet_size,
    userRoomMap_get, userRoomMap_set, userRoomMap_delete,
    socket_join, socket_leave, socket_leaveAll,
    socket_emit, socket_to_emit, io_to_emit, emit, getRoomOccupancy;
  cbn; repeat case_match; cbn; done.

Ltac still_step :=
  first
    [ apply still_bind; [| intros ?]
    | apply still_ret
    | match goal with
      | |- still (if ?b then _ else _) => destruct b
      | |- still (match ?o with _ => _ end) => destruct o
      end
    | still_prim ].

Ltac tame_step :=
  first
    [ apply tame_await_then; [constructor | repeat still_step]
    | apply tame_returns
    | apply tame_pending; [| repeat still_step]
    | apply tame_bind; [repeat still_step | intros ?]
    | match goal with
      | |- tame (if ?b then _ else _) => destruct b
      | |- tame (match ?o with _ => _ end) => destruct o
      end ].

(** The handlers touch the store and the clock through the calls they
    await only; the clock itself moves with [Tick]. *)
Lemma start_tame e : (∀ dt, e ≠ Tick dt) → tame (start e).
Proof.
  intros He. destruct e; [..|by destruct (He dt)]; cbn [start];
    unfold connection, create_room, join_room, leave_room, on_offer, on_answer,
      on_ice_candidate, teardown, disconnecting, disconnect,
      deleteRoom, isRoomFull, roomExists;
    repeat tame_step.
Qed.

(** *** One event after the other *)

Lemma startOfDay_between a b c :
  a ≤ b ≤ c → startOfDay c = startOfDay a → startOfDay b = startOfDay a.
Proof.
  unfold startOfDay. intros [Hab Hbc].
  assert (Hm : 0 < msPerDay) by done. revert Hm. generalize msPerDay as m.
  intros m Hm Hday. rewrite !Z.mod_eq in * by lia.
  pose proof (Z.div_le_mono a b m Hm Hab) as H1.
  pose proof (Z.div_le_mono b c m Hm Hbc) as H2.
  assert (c / m = a / m) as H3 by nia.
  assert (b / m = a / m) as -> by lia. lia.
Qed.

Lemma afterOne_within t ticks : t ≤ afterOne t ticks ≤ t + Z.of_nat (sum_list ticks).
Proof. unfold afterOne. destruct ticks as [|a ticks]; cbn; lia. Qed.

Lemma afterTwo_within t ticks : t ≤ afterTwo t ticks ≤ t + Z.of_nat (sum_list ticks).
Proof. unfold afterTwo, afterOne. destruct ticks as [|a [|b ticks]]; cbn; lia. Qed.

(** An entry tracker whose ticks stay within the day reads the clock on
    the day of its event. *)
Lemma readings_on_the_day t ticks :
  startOfDay (t + Z.of_nat (sum_list ticks)) = startOfDay t →
  startOfDay (afterOne t ticks) = startOfDay t
  ∧ startOfDay (afterTwo t ticks) = startOfDay t.
Proof.
  intros Hday. split; eapply startOfDay_between; try exact Hday.
  - apply afterOne_within.
  - apply afterTwo_within.
Qed.

Section Kept.
Variable I : store → list bool → Prop.

Hypothesis calls : ∀ p, tracked p → ∀ ticks st fs t,
  startOfDay (t + Z.of_nat (sum_list ticks)) = startOfDay t →
  I st fs →
  I (outcome (runTicking p ticks st fs t)).1.2 (outcome (runTicking p ticks st fs t)).2.

Lemma stepTicking_keeps et w :
  startOfDay (clock w + Z.of_nat (sum_list et.2)) = startOfDay (clock w) →
  I (db w) (faults w) →
  I (db (stepTicking et w)) (faults (stepTicking et w)).
Proof using calls.
  destruct et as [e ticks]. cbn [fst snd]. intros Hday HI.
  unfold stepTicking, handleTicking. cbn [fst snd].
  destruct (match e with Tick _ => true | _ => false end) eqn:Htick.
  - destruct e; try discriminate. exact HI.
  - assert (∀ dt, e ≠ Tick dt) as He by (intros dt ->; discriminate).
    destruct (start_tame e He w) as [(Hdb & Hfs & Hck) Hs].
    destruct (start e w) as [[[s|]|err] w1]; cbn in Hdb, Hfs, Hck, Hs |- *;
      [|by rewrite Hdb, Hfs..].
    destruct (Hs s eq_refl) as [Hp Hk].
    pose proof (calls _ Hp ticks (db w1) (faults w1) (clock w1)) as Hc.
    rewrite Hdb, Hfs, Hck in Hc |- *. specialize (Hc Hday HI). unfold outcome in Hc.
    destruct (runTicking (awaited s) ticks (db w) (faults w) (clock w))
      as [[[[r st] fs] t] k]. cbn in Hc.
    destruct r as [[]|err]; [|exact Hc].
    by destruct (Hk (withClock (withDb w1 st fs) t)) as (-> & -> & _).
Qed.

Lemma runOneByOne_keeps es w :
  noMidnightWaiting es w → I (db w) (faults w) →
  I (db (runOneByOne es w)) (faults (runOneByOne es w)).
Proof using calls.
  revert w. induction es as [|et es IH]; intros w Hn HI; [done|].
  destruct Hn as [Hday Hn]. apply (IH (stepTicking et w) Hn).
  by apply stepTicking_keeps.
Qed.

End Kept.

Lemma tracked_matching p ticks st t :
  tracked p →
  startOfDay (t + Z.of_nat (sum_list ticks)) = startOfDay t →
  keyed st → balanced st →
  keyed (outcome (runTicking p ticks st [] t)).1.2
  ∧ balanced (outcome (runTicking p ticks st [] t)).1.2.
Proof.
  intros Hp Hday Hk Hb. destruct (readings_on_the_day t ticks Hday) as [H1 H2].
  assert (Hharmless : harmless p →
           keyed (outcome (runTicking p ticks st [] t)).1.2
           ∧ balanced (outcome (runTicking p ticks st [] t)).1.2).
  { intros Hs. specialize (Hs ticks st [] t).
    split; [by apply Hs | by eapply balanced_sameEntries]. }
  destruct Hp as [roomId userId|roomId userId userCount|roomId userId remainingUsers
                 |roomId eventType|errorType errorMessage metadata].
  - rewrite trackRoomCreated_timedEntry.
    rewrite (outcome_timedEntry _ _ _ _ (console_error "")) by done.
    rewrite run_entry_reachable by done.
    apply (balanced_entry t); [left; by repeat split | done..].
  - rewrite trackRoomJoined_timedEntry.
    rewrite (outcome_timedEntry _ _ _ _ (console_error "")) by done.
    rewrite run_entry_reachable by done.
    apply (balanced_entry t); [right; by repeat split | done..].
  - apply Hharmless, harmless_trackUserLeft.
  - apply Hharmless, harmless_trackSignalingEvent.
  - apply Hharmless, harmless_logError.
Qed.

Lemma tracked_behind p ticks st fs t :
  tracked p →
  startOfDay (t + Z.of_nat (sum_list ticks)) = startOfDay t →
  keyed st → neverAhead st →
  keyed (outcome (runTicking p ticks st fs t)).1.2
  ∧ neverAhead (outcome (runTicking p ticks st fs t)).1.2.
Proof.
  intros Hp Hday Hk Hb. destruct (readings_on_the_day t ticks Hday) as [H1 H2].
  assert (Hharmless : harmless p →
           keyed (outcome (runTicking p ticks st fs t)).1.2
           ∧ neverAhead (outcome (runTicking p ticks st fs t)).1.2).
  { intros Hs. specialize (Hs ticks st fs t).
    split; [by apply Hs | by eapply neverAhead_sameEntries]. }
  destruct Hp as [roomId userId|roomId userId userCount|roomId userId remainingUsers
                 |roomId eventType|errorType errorMessage metadata].
  - rewrite trackRoomCreated_timedEntry.
    rewrite (outcome_timedEntry _ _ _ _ (console_error "")) by done.
    apply (neverAhead_entry t); [left; by repeat split | done..].
  - rewrite trackRoomJoined_timedEntry.
    rewrite (outcome_timedEntry _ _ _ _ (console_error "")) by done.
    apply (neverAhead_entry t); [right; by repeat split | done..].
  - apply Hharmless, harmless_trackUserLeft.
  - apply Hharmless, harmless_trackSignalingEvent.
  - apply Hharmless, harmless_logError.
Qed.

(** A room is created one second before midnight, the store taking 5 ms
    for each answer; two seconds pass; a second socket joins, the store
    taking 1, 2 and 3 ms. *)
Definition lateEvening : Z := msPerDay - 1000.

Definition twoDays : list (event * list nat) :=
  [(Connection "A", []); (Connection "B", []);
   (Create_room "A" firstRoom, [5; 5; 5; 5; 5]%nat);
   (Tick 2000, []);
   (Join_room "B" roomA, [1; 2; 3]%nat)].

(** The run as turns of the event loop: each tick is taken before the
    answer of the store it delays. *)
Definition twoDaysTurns : list turn :=
  [Deliver (Connection "A"); Deliver (Connection "B");
   Deliver (Create_room "A" firstRoom);
   Deliver (Tick 5); Serve 0; Deliver (Tick 5); Serve 0;
   Deliver (Tick 5); Serve 0; Deliver (Tick 5); Serve 0;
   Deliver (Tick 2000);
   Deliver (Join_room "B" roomA);
   Deliver (Tick 1); Serve 1; Deliver (Tick 2); Serve 1;
   Deliver (Tick 3); Serve 1; Serve 1].

Lemma two_days_scheduled :
  state (schedule twoDaysTurns (boot (initial emptyStore [] lateEvening)))
  = runOneByOne twoDays (initial emptyStore [] lateEvening)
  ∧ inFlight (schedule twoDaysTurns (boot (initial emptyStore [] lateEvening)))
    = [None; None].
Proof. vm_compute. split; reflexivity. Qed.

(** The room is created on the first day and joined on the second; the
    store fails nothing, or the daily and the hourly increment of the
    creation. *)
Lemma two_days_values :
  let st := db (runOneByOne twoDays (initial emptyStore [] lateEvening)) in
  let st' := db (runOneByOne twoDays
                   (initial emptyStore [false; true; false; false; true] lateEvening)) in
  (eventsOn st "created" 0 = 1 ∧ dailyValue st 0 "roomsCreated" = 1
   ∧ hourlyTotal st 0 "roomsCreated" = 1
   ∧ eventsOn st "joined" msPerDay = 1 ∧ dailyValue st msPerDay "totalConnections" = 1
   ∧ hourlyTotal st msPerDay "connections" = 1)
  ∧ (eventsOn st' "created" 0 = 1 ∧ dailyValue st' 0 "roomsCreated" = 0
     ∧ hourlyTotal st' 0 "roomsCreated" = 0
     ∧ eventsOn st' "joined" msPerDay = 1 ∧ dailyValue st' msPerDay "totalConnections" = 1
     ∧ hourlyTotal st' msPerDay "connections" = 1).
Proof. vm_compute. repeat split; reflexivity. Qed.

(** A midnight passing while the tracker waits: the store takes two
    seconds to record the event of a room created one second before
    midnight. The event is of the first day and the two increments are of
    the second, whose counters are then ahead of its events. *)
Definition pastMidnight : list (event * list nat) :=
  [(Connection "A", []); (Create_room "A" firstRoom, [2000; 5; 5; 5]%nat)].

Lemma counters_ahead_past_midnight :
  let st := db (runOneByOne pastMidnight (initial emptyStore [] lateEvening)) in
  ¬ noMidnightWaiting pastMidnight (initial emptyStore [] lateEvening)
  ∧ eventsOn st "created" 0 = 1
  ∧ dailyValue st 0 "roomsCreated" = 0 ∧ hourlyTotal st 0 "roomsCreated" = 0
  ∧ eventsOn st "created" msPerDay = 0
  ∧ dailyValue st msPerDay "roomsCreated" = 1
  ∧ hourlyTotal st msPerDay "roomsCreated" = 1.
Proof.
  split; [|vm_compute; repeat split; reflexivity].
  intros (_ & H & _). vm_compute in H. discriminate H.
Qed.

(** X12. Events handled one after the other, each handler to its end,
    the clock moving on while a handler waits for the store but not past a
    midnight. With the store answering every call, in every state the
    server reaches from an empty store the counters agree with the events on
    record: for each day, the [roomsCreated] counter and the sum of the
    hourly [roomsCreated] buckets equal the number of [created] events of
    that day, and the [totalConnections] counter and the sum of the hourly
    [connections] buckets equal the number of [joined] events. *)
Theorem counters_match_events (es : list (event * list nat)) (t : Z) (day : Z) :
  noMidnightWaiting es (initial emptyStore [] t) →
  let st := db (runOneByOne es (initial emptyStore [] t)) in
  dailyValue st day "roomsCreated" = eventsOn st "created" day
  ∧ hourlyTotal st day "roomsCreated" = eventsOn st "created" day
  ∧ dailyValue st day "totalConnections" = eventsOn st "joined" day
  ∧ hourlyTotal st day "connections" = eventsOn st "joined" day.
Proof.
  intros Hn st. subst st.
  enough (H : (λ st fs, fs = [] ∧ keyed st ∧ balanced st)
                (db (runOneByOne es (initial emptyStore [] t)))
                (faults (runOneByOne es (initial emptyStore [] t))))
    by (destruct H as (_ & _ & H); apply H).
  apply runOneByOne_keeps; [|exact Hn|].
  - intros p Hp ticks st fs t0 Hday (-> & Hk & Hb).
    split; [apply runTicking_faults_nil | by apply tracked_matching].
  - cbn. split; [done|]. split; [apply keyed_empty | apply balanced_empty].
Qed.

Lemma counters_match_events_two_days :
  noMidnightWaiting twoDays (initial emptyStore [] lateEvening)
  ∧ let st := db (runOneByOne twoDays (initial emptyStore [] lateEvening)) in
    dailyValue st msPerDay "roomsCreated" = eventsOn st "created" msPerDay
    ∧ hourlyTotal st msPerDay "roomsCreated" = eventsOn st "created" msPerDay
    ∧ dailyValue st msPerDay "totalConnections" = eventsOn st "joined" msPerDay
    ∧ hourlyTotal st msPerDay "connections" = eventsOn st "joined" msPerDay.
Proof.
  assert (Hn : noMidnightWaiting twoDays (initial emptyStore [] lateEvening))
    by (vm_compute; repeat split).
  split; [exact Hn|].
  exact (counters_match_events twoDays lateEvening msPerDay Hn).
Defined.

(** X13. Events handled one after the other, each handler to its end,
    the clock moving on while a handler waits for the store but not past a
    midnight. Whatever calls on the store fail, in every state the server
    reaches from an empty store no counter is ahead of the events on
    record: for each day, the [roomsCreated] counter and the sum of its
    hourly buckets are at most the number of [created] events, and
    [totalConnections] and the sum of the hourly [connections] buckets are
    at most the number of [joined] events. *)
Theorem counters_never_ahead (es : list (event * list nat)) (fs : list bool)
    (t : Z) (day : Z) :
  noMidnightWaiting es (initial emptyStore fs t) →
  let st := db (runOneByOne es (initial emptyStore fs t)) in
  dailyValue st day "roomsCreated" ≤ eventsOn st "created" day
  ∧ hourlyTotal st day "roomsCreated" ≤ eventsOn st "created" day
  ∧ dailyValue st day "totalConnections" ≤ eventsOn st "joined" day
  ∧ hourlyTotal st day "connections" ≤ eventsOn st "joined" day.
Proof.
  intros Hn st. subst st.
  enough (H : (λ st (_ : list bool), keyed st ∧ neverAhead st)
                (db (runOneByOne es (initial emptyStore fs t)))
                (faults (runOneByOne es (initial emptyStore fs t))))
    by (destruct H as (_ & H); apply H).
  apply (runOneByOne_keeps (λ st (_ : list bool), keyed st ∧ neverAhead st));
    [|exact Hn|].
  - intros p Hp ticks st fs0 t0 Hday (Hk & Hb). by apply tracked_behind.
  - cbn. split; [apply keyed_empty | apply neverAhead_empty].
Qed.

(** The same run, the store failing its second and its fifth call. *)
Lemma counters_never_ahead_two_days :
  noMidnightWaiting twoDays
    (initial emptyStore [false; true; false; false; true] lateEvening)
  ∧ let st := db (runOneByOne twoDays
                    (initial emptyStore [false; true; false; false; true] lateEvening)) in
    dailyValue st 0 "roomsCreated" ≤ eventsOn st "created" 0
    ∧ hourlyTotal st 0 "roomsCreated" ≤ eventsOn st "created" 0
    ∧ dailyValue st 0 "totalConnections" ≤ eventsOn st "joined" 0
    ∧ hourlyTotal st 0 "connections" ≤ eventsOn st "joined" 0.
Proof.
  assert (Hn : noMidnightWaiting twoDays
                 (initial emptyStore [false; true; false; false; true] lateEvening))
    by (vm_compute; repeat split).
  split; [exact Hn|].
  exact (counters_never_ahead twoDays [false; true; false; false; true] lateEvening 0 Hn).
Defined.

(** *** The clock standing still

    With no tick the handlers of [Scheduling], run one at a time, are the
    handlers of [Server]. *)

(** [p'] is [p] with every reading of the clock answered [t]. *)
Inductive sameAt {A} (t : Z) : prog treq A → prog req A → Prop :=
  | sameAt_ret a : sameAt t (Ret a) (Ret a)
  | sameAt_throw e : sameAt t (Throw e) (Throw e)
  | sameAt_now k p' : sameAt t (k (Resolved t)) p' → sameAt t (Call Date_now k) p'
  | sameAt_call {X} (q : req X) k k' :
      (∀ r, sameAt t (k r) (k' r)) → sameAt t (Call (Store q) k) (Call q k').

Lemma runTicking_sameAt {A} t (p : prog treq A) p' st fs :
  sameAt t p p' → runTicking p [] st fs t = (run p' st fs, t, []).
Proof.
  intros Hp. revert st fs. induction Hp as [a|e|k p' _ IH|X q k k' _ IH]; intros st fs;
    cbn; [done..|apply IH|].
  rewrite Z.add_0_r.
  destruct fs as [|[] fs]; [destruct (exec q st)| |destruct (exec q st)]; apply IH.
Qed.

Lemma sameAt_bind {A B} t (p : prog treq A) p' (f : A → prog treq B) f' :
  sameAt t p p' → (∀ a, sameAt t (f a) (f' a)) → sameAt t (p ≫= f) (p' ≫= f').
Proof.
  intros Hp Hf. induction Hp as [a|e|k p' _ IH|X q k k' _ IH]; cbn.
  - apply Hf.
  - constructor.
  - constructor. apply IH.
  - constructor. intros r. apply IH.
Qed.

Lemma sameAt_try_catch {A} t (p : prog treq A) p' h h' :
  sameAt t p p' → (∀ e, sameAt t (h e) (h' e)) → sameAt t (try_catch p h) (try_catch p' h').
Proof.
  intros Hp Hh. induction Hp as [a|e|k p' _ IH|X q k k' _ IH]; cbn.
  - constructor.
  - apply Hh.
  - constructor. apply IH.
  - constructor. intros r. apply IH.
Qed.

Lemma sameAt_date {A} t (f : Z → prog treq A) p' :
  sameAt t (f t) p' → sameAt t (date ≫= f) p'.
Proof. intros Hf. by constructor. Qed.

Lemma sameAt_await {X} t (q : req X) : sameAt t (await (Store q)) (await q).
Proof. constructor. intros [x|e]; constructor. Qed.

Lemma sameAt_onStore {A} t (p : prog req A) : sameAt t (onStore p) p.
Proof. induction p as [a|e|X q k IH]; cbn; constructor. exact IH. Qed.

Lemma sameAt_incrementDailyStat t field amount :
  sameAt t (incrementDailyStat field amount) (Analytics.incrementDailyStat t field amount).
Proof. apply sameAt_date, sameAt_onStore. Qed.

Lemma sameAt_incrementHourlyStat t field amount :
  sameAt t (incrementHourlyStat field amount) (Analytics.incrementHourlyStat t field amount).
Proof. apply sameAt_date, sameAt_onStore. Qed.

Lemma sameAt_logError t errorType errorMessage metadata :
  sameAt t (logError errorType errorMessage metadata)
    (Analytics.logError t errorType errorMessage metadata).
Proof. apply sameAt_date, sameAt_onStore. Qed.

Lemma sameAt_trackSignalingEvent t roomId eventType :
  sameAt t (trackSignalingEvent roomId eventType)
    (Analytics.trackSignalingEvent roomId eventType).
Proof. apply sameAt_onStore. Qed.

Lemma sameAt_trackRoomCreated t roomId userId :
  sameAt t (trackRoomCreated roomId userId) (Analytics.trackRoomCreated t roomId userId).
Proof.
  apply sameAt_try_catch; [|intros e; constructor]. apply sameAt_date.
  apply sameAt_bind; [apply sameAt_await | intros _].
  apply sameAt_bind; [apply sameAt_incrementDailyStat | intros _].
  apply sameAt_incrementHourlyStat.
Qed.

Lemma sameAt_trackRoomJoined t roomId userId userCount :
  sameAt t (trackRoomJoined roomId userId userCount)
    (Analytics.trackRoomJoined t roomId userId userCount).
Proof.
  apply sameAt_try_catch; [|intros e; constructor]. apply sameAt_date.
  apply sameAt_bind; [apply sameAt_await | intros _].
  apply sameAt_bind; [apply sameAt_incrementDailyStat | intros _].
  apply sameAt_incrementHourlyStat.
Qed.

Lemma sameAt_trackRoomClosed t roomId :
  sameAt t (trackRoomClosed roomId) (Analytics.trackRoomClosed t roomId).
Proof.
  apply sameAt_try_catch; [|intros e; constructor]. apply sameAt_date.
  apply sameAt_bind; [apply sameAt_await | intros [|]]; [constructor|].
  apply sameAt_date.
  apply sameAt_bind; [apply sameAt_await | intros _].
  apply sameAt_incrementDailyStat.
Qed.

Lemma sameAt_trackUserLeft t roomId userId remainingUsers :
  sameAt t (trackUserLeft roomId userId remainingUsers)
    (Analytics.trackUserLeft t roomId userId remainingUsers).
Proof.
  apply sameAt_try_catch; [|intros e; constructor]. apply sameAt_date.
  apply sameAt_bind; [apply sameAt_await | intros _].
  destruct (Nat.eqb remainingUsers 0); [apply sameAt_trackRoomClosed | constructor].
Qed.

(** [g] is [h] with its [await] waited out on the spot. *)
Definition waitedOut (h : handler (option suspended)) (g : handler unit) : Prop :=
  ∀ w, match h w with
       | (Resolved (Some s), w1) =>
           ∃ p, (∀ t, sameAt t (awaited s) (p t)) ∧ g w = (awaitP p;; rest s) w1
       | (Resolved None, w1) => g w = (Resolved (), w1)
       | (Rejected e, w1) => g w = (Rejected e, w1)
       end.

Lemma waitedOut_bind {A} (k : handler A) f g :
  (∀ a, waitedOut (f a) (g a)) → waitedOut (k ≫= f) (k ≫= g).
Proof.
  intros Hf w. unfold mbind, handler_bind, hbind.
  destruct (k w) as [[a|e] w1]; [apply Hf | done].
Qed.

Lemma waitedOut_await p' k p :
  (∀ t, sameAt t p' (p t)) → waitedOut (await_then p' k) (awaitP p;; k).
Proof. intros Hp w. by exists p. Qed.

Lemma waitedOut_await_last p' p :
  (∀ t, sameAt t p' (p t)) → waitedOut (await_then p' (mret ())) (awaitP p).
Proof.
  intros Hp w. exists p. split; [done|]. cbn.
  unfold mbind, handler_bind, hbind, awaitP.
  by destruct (run (p (clock w)) (db w) (faults w)) as [[[[]|e] st] fs].
Qed.

Lemma waitedOut_returns : waitedOut returns (mret ()).
Proof. by intros w. Qed.

Create HintDb same discriminated.
#[local] Hint Resolve sameAt_trackRoomCreated sameAt_trackRoomJoined sameAt_trackUserLeft
  sameAt_trackSignalingEvent sameAt_logError : same.

Ltac waitedOut_step :=
  first
    [ apply waitedOut_await; intros ?; auto with same
    | apply waitedOut_await_last; intros ?; auto with same
    | apply waitedOut_returns
    | apply waitedOut_bind; intros ?
    | match goal with
      | |- waitedOut (if ?b then _ else _) _ => destruct b
      | |- waitedOut (match ?o with _ => _ end) _ => destruct o
      end ].

(** The ["disconnecting"] handler stops where [disconnecting_begin]
    does, awaiting what [disconnecting_resume] goes on with. *)
Lemma disconnecting_begins id w :
  match disconnecting_begin id w with
  | (Resolved (Some (roomId, remainingOccupancy)), w1) =>
      disconnecting id w
      = (Resolved (Some {| awaited := trackUserLeft roomId id remainingOccupancy;
                           rest := if Nat.eqb remainingOccupancy 0 then deleteRoom roomId
                                   else socket_to_emit id roomId
                                          (user_left id remainingOccupancy
                                             MAX_ROOM_CAPACITY) |}), w1)
  | (Resolved None, w1) => disconnecting id w = (Resolved None, w1)
  | (Rejected e, w1) => disconnecting id w = (Rejected e, w1)
  end.
Proof.
  unfold disconnecting, disconnecting_begin, await_then, returns.
  unfold mbind, handler_bind, hbind, mret, handler_ret, hret.
  destruct (userRoomMap_get id w) as [[[roomId|]|e] w0]; [|done..].
  destruct (roomUsers_has roomId w0) as [[has|e] w1]; [|done].
  destruct (truthy roomId && has); [|done].
  destruct (roomUserSet_delete roomId id w1) as [[[]|e] w2]; [|done].
  destruct (userRoomMap_delete id w2) as [[[]|e] w3]; [|done].
  by destruct (roomUserSet_size roomId w3) as [[n|e] w4].
Qed.

Lemma teardown_waitedOut id : waitedOut (teardown id) (Server.teardown id).
Proof.
  intros w. unfold teardown, Server.teardown, mbind, handler_bind, hbind.
  pose proof (disconnecting_begins id w) as Hb.
  destruct (disconnecting_begin id w) as [[[[roomId n]|]|e] w1]; rewrite Hb; [| |done].
  - destruct (socket_leaveAll id w1) as [[[]|e] w2]; [|done].
    destruct (disconnect id w2) as [[[]|e] w3]; [|done].
    exists (λ now, Analytics.trackUserLeft now roomId id n).
    split; [intros t; apply sameAt_trackUserLeft | done].
  - destruct (socket_leaveAll id w1) as [[[]|e] w2]; [|done].
    by destruct (disconnect id w2) as [[[]|e] w3].
Qed.

Lemma start_waitedOut e : waitedOut (start e) (handle e).
Proof.
  destruct e; cbn [start handle].
  - by intros w.
  - unfold create_room, Server.create_room. repeat waitedOut_step.
  - unfold join_room, Server.join_room. repeat waitedOut_step.
  - unfold leave_room, Server.leave_room. repeat waitedOut_step.
  - unfold on_offer, Server.on_offer. repeat waitedOut_step.
  - unfold on_answer, Server.on_answer. repeat waitedOut_step.
  - unfold on_ice_candidate, Server.on_ice_candidate. repeat waitedOut_step.
  - apply teardown_waitedOut.
  - by intros w.
Qed.

(** With no tick, an event handled by [Scheduling] to its end is the event
    handled by [Server]. *)
Lemma handleTicking_still e w : handleTicking e [] w = handle e w.
Proof.
  unfold handleTicking. pose proof (start_waitedOut e w) as Hs.
  destruct (start e w) as [[[s|]|err] w1]; [|done..].
  destruct Hs as (p & Hp & ->).
  rewrite (runTicking_sameAt _ _ _ _ _ (Hp (clock w1))).
  unfold mbind, handler_bind, hbind, awaitP.
  by destruct (run (p (clock w1)) (db w1) (faults w1)) as [[[[]|e'] st] fs].
Qed.

Lemma runOneByOne_still es w : runOneByOne ((λ e, (e, [])) <$> es) w = runEvents es w.
Proof.
  revert w. induction es as [|e es IH]; intros w; [done|].
  cbn. unfold stepTicking, step. cbn [fst snd]. rewrite handleTicking_still. apply IH.
Qed.

Lemma noMidnightWaiting_still es w : noMidnightWaiting ((λ e, (e, [])) <$> es) w.
Proof.
  revert w. induction es as [|e es IH]; intros w; [done|].
  split; [|apply IH]. cbn. by rewrite Z.add_0_r.
Qed.

End OneByOne.

(* ===================================================================== *)
(** ** The CORS policies *)
(* ===================================================================== *)

Module CorsFacts.
Import Server Cors.

Lemma stripTrailingSlash_snoc (s : string) : stripTrailingSlash (s +:+ "/") = s.
Proof.
  induction s as [|a s IH]; [done|]. destruct s as [|b t]; [done|].
  change (String a (String b t) +:+ "/") with (String a (String b (t +:+ "/"))).
  change (stripTrailingSlash (String a (String b (t +:+ "/"))))
    with (String a (stripTrailingSlash (String b (t +:+ "/")))).
  f_equal. exact IH.
Qed.

Lemma stripTrailingSlash_id (s : string) : endsWithSlash s = false → stripTrailingSlash s = s.
Proof.
  induction s as [|a s IH]; [done|]. cbn. destruct s as [|b s].
  - by intros ->.
  - intros H. by rewrite IH.
Qed.

Lemma truthy_snoc (s : string) : truthy (s +:+ "/") = true.
Proof. by destruct s. Qed.

(** X15. The decision of the main policy does not depend on a trailing
    slash, neither in the request nor in the configured list: for an origin
    written without a trailing slash, if the list has it with or without one,
    requests that send it with or without one are both allowed. *)
Theorem cors_trailing_slash_insensitive (rawAllowedOrigins : list string) (s : string) :
  s ≠ "" → endsWithSlash s = false →
  s ∈ rawAllowedOrigins ∨ (s +:+ "/") ∈ rawAllowedOrigins →
  corsOrigin rawAllowedOrigins (Some s) = Resolved true
  ∧ corsOrigin rawAllowedOrigins (Some (s +:+ "/")) = Resolved true.
Proof.
  intros Hne Hs Hin.
  assert (s ∈ allowedOrigins rawAllowedOrigins) as Hmem.
  { unfold allowedOrigins. apply list_elem_of_fmap. destruct Hin as [Hin|Hin].
    - exists s. by rewrite stripTrailingSlash_id.
    - exists (s +:+ "/"). by rewrite stripTrailingSlash_snoc. }
  assert (truthy s = true) as Ht by (by destruct s).
  unfold corsOrigin. rewrite Ht, truthy_snoc. cbn [negb].
  rewrite stripTrailingSlash_snoc, (stripTrailingSlash_id s) by done.
  by rewrite bool_decide_eq_true_2.
Qed.

Lemma cors_trailing_slash_example :
  corsOrigin ["https://swoosh-transfer.vercel.app/"] (Some "https://swoosh-transfer.vercel.app")
    = Resolved true
  ∧ corsOrigin ["https://swoosh-transfer.vercel.app/"]
      (Some ("https://swoosh-transfer.vercel.app" +:+ "/")) = Resolved true.
Proof.
  apply (cors_trailing_slash_insensitive ["https://swoosh-transfer.vercel.app/"]
           "https://swoosh-transfer.vercel.app").
  - discriminate.
  - reflexivity.
  - right. apply list_elem_of_singleton. reflexivity.
Defined.

(** X16. The main policy never allows a request that has no [Origin]
    header or an empty one, whatever the configured list, even a list that
    holds the empty string; its answer is never [callback(null, false)]. The
    [origin] function of the policy of [/ping] refuses nothing, whatever
    [PING_ALLOWED_ORIGINS] holds; but the route stands behind the main
    policy: a [GET] request for [/ping] is answered exactly when the main
    policy allows its origin, it is refused with the error of the main policy
    otherwise, and a request with no [Origin] header never reaches the
    route. *)
Theorem cors_missing_origin_and_ping (rawAllowedOrigins : list string)
    (pingAllowedOrigins : option (list string)) (origin : option string) :
  corsOrigin rawAllowedOrigins None = Rejected "Origin header required"
  ∧ corsOrigin rawAllowedOrigins (Some "") = Rejected "Origin header required"
  ∧ (corsOrigin rawAllowedOrigins origin = Resolved true
     ∨ ∃ m, corsOrigin rawAllowedOrigins origin = Rejected m)
  ∧ pingCorsOrigin pingAllowedOrigins origin = Resolved true
  ∧ (ping rawAllowedOrigins pingAllowedOrigins origin = Pong
     ↔ corsOrigin rawAllowedOrigins origin = Resolved true)
  ∧ (∀ m, corsOrigin rawAllowedOrigins origin = Rejected m →
          ping rawAllowedOrigins pingAllowedOrigins origin = Refused m)
  ∧ ping rawAllowedOrigins pingAllowedOrigins None = Refused "Origin header required"
  ∧ ping rawAllowedOrigins pingAllowedOrigins (Some "") = Refused "Origin header required".
Proof.
  assert (Hmain : corsOrigin rawAllowedOrigins origin = Resolved true
                  ∨ ∃ m, corsOrigin rawAllowedOrigins origin = Rejected m).
  { unfold corsOrigin.
    destruct origin as [o|]; [|eauto]. destruct (negb (truthy o)); [eauto|].
    cbn zeta. case_bool_decide; eauto. }
  assert (Hping : ∀ o, pingCorsOrigin pingAllowedOrigins o = Resolved true).
  { intros o. unfold pingCorsOrigin. destruct pingAllowedOrigins as [l|]; [|done].
    destruct o as [o|]; [|done]. destruct (negb (truthy o)); [done|].
    cbn zeta. by case_bool_decide. }
  split; [done|]. split; [done|]. split; [exact Hmain|]. split; [apply Hping|].
  unfold ping. rewrite Hping.
  split; [|split; [|done]].
  - destruct Hmain as [-> | [m ->]]; [done|]. split; discriminate.
  - intros m ->. reflexivity.
Qed.

End CorsFacts.

(* ===================================================================== *)
(** ** Transfer sessions and the summary *)
(* ===================================================================== *)

Module TransferFacts.
Import Clock ClockFacts Analytics Server Containment Concurrent Counters Closure
  Tallies Transfers.
Local Open Scope Z_scope.
#[local] Arguments pretty : simpl never.
#[local] Arguments incrementDailyStat : simpl never.
#[local] Arguments incrementHourlyStat : simpl never.
#[local] Arguments trackSignalingEvent : simpl never.

(** *** Sequential runs, piece by piece *)

Lemma xrun_bind {A B} (p : prog xreq A) (f : A → prog xreq B) xs fs :
  xrun (p ≫= f) xs fs
  = match xrun p xs fs with
    | (Resolved a, xs', fs') => xrun (f a) xs' fs'
    | (Rejected e, xs', fs') => (Rejected e, xs', fs')
    end.
Proof.
  revert xs fs. induction p as [a|e|X q k IH]; intros xs fs; cbn; [done..|].
  destruct fs as [|[] fs]; [destruct (xexec q xs)| |destruct (xexec q xs)]; apply IH.
Qed.

Lemma xrun_try_catch {A} (p : prog xreq A) h xs fs :
  xrun (try_catch p h) xs fs
  = match xrun p xs fs with
    | (Resolved a, xs', fs') => (Resolved a, xs', fs')
    | (Rejected e, xs', fs') => xrun (h e) xs' fs'
    end.
Proof.
  revert xs fs. induction p as [a|e|X q k IH]; intros xs fs; cbn; [done..|].
  destruct fs as [|[] fs]; [destruct (xexec q xs)| |destruct (xexec q xs)]; apply IH.
Qed.

(** A tracking function runs on the base collections. *)
Lemma xrun_lift {A} (p : prog req A) xs fs :
  xrun (lift p) xs fs
  = let '(r, st, fs') := run p (base xs) fs in (r, withBase xs st, fs').
Proof.
  revert xs fs. induction p as [a|e|X q k IH]; intros xs fs; cbn.
  - by destruct xs.
  - by destruct xs.
  - destruct fs as [|[] fs].
    + destruct (exec q (base xs)) as [r st]. rewrite IH. done.
    + rewrite IH. done.
    + destruct (exec q (base xs)) as [r st]. rewrite IH. done.
Qed.

Lemma xrun_incrementDailyStat now field amount xs :
  xrun (lift (incrementDailyStat now field amount)) xs []
  = (Resolved (), withBase xs (dailyStep now field amount (base xs)), []).
Proof. rewrite xrun_lift. reflexivity. Qed.

Lemma xrun_incrementHourlyStat now field amount xs :
  keyed (base xs) →
  xrun (lift (incrementHourlyStat now field amount)) xs []
  = (Resolved (), withBase xs (hourlyStep now field amount (base xs)), []).
Proof. intros Hk. rewrite xrun_lift, run_incrementHourlyStat_reachable by done. done. Qed.

(** *** Data transfer reports *)

(** X17. A data-transfer report whose byte count is missing, not a
    number, zero or negative is dropped: no call is made on the store,
    whether it answers or not, and nothing is recorded. *)
Theorem data_transfer_without_bytes (t : ReportTimes) (roomId : string)
    (bytes : option Z) (sessionId : option string) (xs : xstore) (fs : list bool) :
  default 0 bytes ≤ 0 →
  xrun (recordDataTransferred t roomId bytes sessionId) xs fs = (Resolved None, xs, fs)
  ∧ xrun (on_data_transfer t roomId bytes sessionId) xs fs = (Resolved (), xs, fs).
Proof.
  intros Hb.
  assert (Hr : xrun (recordDataTransferred t roomId bytes sessionId) xs fs
               = (Resolved None, xs, fs)).
  { unfold recordDataTransferred. rewrite xrun_try_catch.
    replace (Z.max 0 (default 0 bytes)) with 0 by lia. done. }
  split; [exact Hr|].
  unfold on_data_transfer. rewrite xrun_try_catch, xrun_bind, Hr. done.
Qed.

(** A report whose five readings of the clock are a second apart, from
    noon on. *)
Definition fromNoon : ReportTimes :=
  {| at_bytes := noon; at_count := noon + 1000; at_hour := noon + 2000;
     at_update := noon + 3000; at_create := noon + 4000 |}.

Lemma data_transfer_without_bytes_example :
  xrun (recordDataTransferred fromNoon "AAAAAA" (Some (-5)) (Some "s1")) emptyXstore
         [false; true]
    = (Resolved None, emptyXstore, [false; true])
  ∧ xrun (on_data_transfer fromNoon "AAAAAA" (Some (-5)) (Some "s1")) emptyXstore
           [false; true]
    = (Resolved (), emptyXstore, [false; true]).
Proof.
  apply (data_transfer_without_bytes fromNoon "AAAAAA" (Some (-5)) (Some "s1") emptyXstore
           [false; true]).
  cbn. lia.
Defined.

(** The session calls leave the events, the daily documents and the error
    records as they are. *)
Definition sameLedger (xs xs' : xstore) : Prop :=
  roomEvents (base xs') = roomEvents (base xs)
  ∧ dailyStats (base xs') = dailyStats (base xs)
  ∧ errorLogs (base xs') = errorLogs (base xs).

Lemma sameLedger_refl xs : sameLedger xs xs.
Proof. by repeat split. Qed.

Lemma sameLedger_trans xs1 xs2 xs3 :
  sameLedger xs1 xs2 → sameLedger xs2 xs3 → sameLedger xs1 xs3.
Proof. intros (?&?&?) (?&?&?). repeat split; congruence. Qed.

Lemma xexec_create_sameLedger roomId sessionId status startTime d xs :
  sameLedger xs (xexec (TransferSession_create roomId sessionId status startTime d) xs).2.
Proof.
  cbn. destruct (negb (truthy roomId) || negb (truthy sessionId)); [by repeat split|].
  destruct (findSession xs sessionId); by repeat split.
Qed.

Lemma xexec_update_sameLedger sessionId u xs :
  sameLedger xs (xexec (TransferSession_findOneAndUpdate sessionId u) xs).2.
Proof.
  cbn. destruct (findSession xs sessionId) as [[i s]|]; by repeat split.
Qed.

(** The counters after a report of [amount] bytes, the store answering. *)
Definition tallied (t : ReportTimes) (amount : Z) (st : store) : store :=
  hourlyStep (at_hour t) "transfers" 1
    (dailyStep (at_count t) "transfersCompleted" 1
       (dailyStep (at_bytes t) "totalBytesTransferred" amount st)).

(** The session a report names, if it is on record. *)
Definition named (xs : xstore) (sessionId : option string) : option (nat * TransferSession) :=
  match sessionId with
  | Some sessionId => if truthy sessionId then findSession xs sessionId else None
  | None => None
  end.

Definition completion (now amount : Z) : Updates :=
  {| set_status := Some "completed"; set_fileCount := None;
     set_totalBytes := None; set_startTime := None;
     set_endTime := Some now; set_durationMs := None;
     set_receiverId := None; inc_totalBytes := Some amount |}.

Definition minimalSession (now amount : Z) (roomId : string) (id : nat) : Session :=
  ({| ts_id := id; ts_roomId := roomId; ts_sessionId := roomId +:+ "-" +:+ pretty now;
      ts_status := "completed"; ts_startTime := now; ts_signalingEventsCount := ∅ |},
   {| td_initiatorId := None; td_receiverId := None; td_fileCount := 0;
      td_totalBytes := amount; td_endTime := Some now; td_durationMs := Some 0 |}).

Lemma findSession_withBase xs st sessionId :
  transferSessions st = transferSessions (base xs) →
  findSession (withBase xs st) sessionId = findSession xs sessionId.
Proof. unfold findSession. cbn. by intros ->. Qed.

(** The id of a minimal session is never empty. *)
Lemma truthy_minimalSessionId (roomId : string) (now : Z) :
  truthy (roomId +:+ "-" +:+ pretty now) = true.
Proof. by destruct roomId. Qed.

Lemma run_recordDataTransferred t roomId amount sessionId xs :
  keyed (base xs) → 0 < amount →
  let xs3 := withBase xs (tallied t amount (base xs)) in
  xrun (recordDataTransferred t roomId (Some amount) sessionId) xs []
  = match named xs sessionId with
    | Some (i, s) =>
        let doc := applyUpdates (completion (at_update t) amount)
                     (s, detailsOf xs (ts_id s)) in
        (Resolved (Some doc),
         {| base := withTransferSessions (base xs3)
                      (<[i := doc.1]> (transferSessions (base xs)));
            details := <[ts_id s := doc.2]> (details xs) |}, [])
    | None =>
        if truthy roomId then
          match findSession xs (roomId +:+ "-" +:+ pretty (at_create t)) with
          | Some _ => (Resolved None, xs3, [])
          | None =>
              let doc := minimalSession (at_create t) amount roomId
                           (freshId (transferSessions (base xs))) in
              (Resolved (Some doc),
               {| base := withTransferSessions (base xs3)
                            (transferSessions (base xs) ++ [doc.1]);
                  details := <[ts_id doc.1 := doc.2]> (details xs) |}, [])
          end
        else (Resolved None, xs3, [])
    end.
Proof.
  intros Hk Hpos xs3. unfold recordDataTransferred.
  rewrite xrun_try_catch. cbv zeta. change (default 0 (Some amount)) with amount.
  replace (Z.max 0 amount) with amount by lia.
  destruct (Z.eqb_spec amount 0) as [?|_]; [lia|]. cbv iota.
  rewrite xrun_bind, xrun_incrementDailyStat.
  rewrite xrun_bind, xrun_incrementDailyStat.
  rewrite xrun_bind, xrun_incrementHourlyStat
    by (cbn [base withBase]; by do 2 apply keyed_updateOne).
  cbn [base withBase]. fold (tallied t amount (base xs)).
  change (withBase (withBase (withBase xs _) _) (tallied t amount (base xs))) with xs3.
  assert (Hfind : ∀ sid, findSession xs3 sid = findSession xs sid).
  { intros sid. by apply findSession_withBase. }
  rewrite xrun_bind.
  assert (Hcreate :
    xrun (created ← await (TransferSession_create roomId
                             (roomId +:+ "-" +:+ pretty (at_create t))
                             "completed" (at_create t)
                             {| td_initiatorId := None; td_receiverId := None;
                                td_fileCount := 0; td_totalBytes := amount;
                                td_endTime := Some (at_create t);
                                td_durationMs := Some 0 |});
          Ret (Some created)) xs3 []
    = if truthy roomId then
        match findSession xs (roomId +:+ "-" +:+ pretty (at_create t)) with
        | Some _ => (Rejected "E11000 duplicate key error", xs3, [])
        | None =>
            let doc := minimalSession (at_create t) amount roomId
                         (freshId (transferSessions (base xs))) in
            (Resolved (Some doc),
             {| base := withTransferSessions (base xs3)
                          (transferSessions (base xs) ++ [doc.1]);
                details := <[ts_id doc.1 := doc.2]> (details xs) |}, [])
        end
      else (Rejected "ValidationError", xs3, [])).
  { cbn [xrun mbind prog_bind bind await xexec].
    rewrite truthy_minimalSessionId, Hfind.
    destruct (truthy roomId); cbn [negb orb]; [|done].
    destruct (findSession xs _) as [[i0 s0]|]; done. }
  assert (Hend :
    (match (if truthy roomId then
              match findSession xs (roomId +:+ "-" +:+ pretty (at_create t)) with
              | Some _ => (Rejected "E11000 duplicate key error", xs3, [])
              | None =>
                  let doc := minimalSession (at_create t) amount roomId
                               (freshId (transferSessions (base xs))) in
                  (Resolved (Some doc),
                   {| base := withTransferSessions (base xs3)
                                (transferSessions (base xs) ++ [doc.1]);
                      details := <[ts_id doc.1 := doc.2]> (details xs) |}, [])
              end
            else (Rejected "ValidationError", xs3, []))
     with
     | (Resolved a, xs', fs') => (Resolved a, xs', fs')
     | (Rejected e, xs', fs') =>
         xrun (xconsole_error "[Analytics Error] recordDataTransferred:" e;; Ret None) xs' fs'
     end)
    = if truthy roomId then
        match findSession xs (roomId +:+ "-" +:+ pretty (at_create t)) with
        | Some _ => (Resolved None, xs3, [])
        | None =>
            let doc := minimalSession (at_create t) amount roomId
                         (freshId (transferSessions (base xs))) in
            (Resolved (Some doc),
             {| base := withTransferSessions (base xs3)
                          (transferSessions (base xs) ++ [doc.1]);
                details := <[ts_id doc.1 := doc.2]> (details xs) |}, [])
        end
      else (Resolved None, xs3, [])).
  { destruct (truthy roomId); [|done]. by destruct (findSession xs _) as [[i0 s0]|]. }
  unfold named. destruct sessionId as [sid|]; [destruct (truthy sid)|].
  - cbn [xrun await xexec]. rewrite Hfind.
    destruct (findSession xs sid) as [[i s]|]; cbv beta iota zeta.
    + done.
    + cbn [xrun]. rewrite Hcreate. exact Hend.
  - cbn [xrun]. rewrite Hcreate. exact Hend.
  - cbn [xrun]. rewrite Hcreate. exact Hend.
Qed.

Lemma counted_transfers : counted "transfers".
Proof. right. by right. Qed.

Lemma tallied_values t amount st :
  dailyValue (tallied t amount st) (startOfDay (at_bytes t)) "totalBytesTransferred"
    = dailyValue st (startOfDay (at_bytes t)) "totalBytesTransferred" + amount
  ∧ dailyValue (tallied t amount st) (startOfDay (at_count t)) "transfersCompleted"
    = dailyValue st (startOfDay (at_count t)) "transfersCompleted" + 1
  ∧ hourlyValue (tallied t amount st) (startOfDay (at_hour t)) (getHours (at_hour t))
      "transfers"
    = hourlyValue st (startOfDay (at_hour t)) (getHours (at_hour t)) "transfers" + 1.
Proof.
  unfold tallied. repeat split.
  - rewrite dailyValue_hourlyStep, !dailyValue_dailyStep.
    repeat case_decide; destruct_and?; try discriminate; try lia;
      exfalso; match goal with H : ¬ (_ ∧ _) |- _ => by apply H end.
  - rewrite dailyValue_hourlyStep, !dailyValue_dailyStep.
    repeat case_decide; destruct_and?; try discriminate; try lia;
      exfalso; match goal with H : ¬ (_ ∧ _) |- _ => by apply H end.
  - rewrite hourlyValue_hourlyStep by apply counted_transfers.
    rewrite !hourlyValue_dailyStep. by rewrite decide_True.
Qed.

(** X18. With the store answering, a data-transfer report of a
    positive whole number of bytes adds the bytes to
    [totalBytesTransferred] of the day on which that increment reads the
    clock, one to [transfersCompleted] of the day on which that increment
    reads it, and one to [transfers] of the bucket of the hour in which the
    hourly increment reads it, whatever becomes of its session record; the
    events and the error records are untouched. The three counters and the
    three sums are within the whole numbers that the source holds exactly. *)
Theorem data_transfer_counted (t : ReportTimes) (roomId : string) (amount : Z)
    (sessionId : option string) (xs : xstore) :
  keyed (base xs) → 0 < amount →
  exactSum (dailyValue (base xs) (startOfDay (at_bytes t)) "totalBytesTransferred") amount →
  exactSum (dailyValue (base xs) (startOfDay (at_count t)) "transfersCompleted") 1 →
  exactSum (hourlyValue (base xs) (startOfDay (at_hour t)) (getHours (at_hour t))
              "transfers") 1 →
  ∃ r xs',
    xrun (recordDataTransferred t roomId (Some amount) sessionId) xs [] = (Resolved r, xs', [])
    ∧ dailyValue (base xs') (startOfDay (at_bytes t)) "totalBytesTransferred"
      = dailyValue (base xs) (startOfDay (at_bytes t)) "totalBytesTransferred" + amount
    ∧ dailyValue (base xs') (startOfDay (at_count t)) "transfersCompleted"
      = dailyValue (base xs) (startOfDay (at_count t)) "transfersCompleted" + 1
    ∧ hourlyValue (base xs') (startOfDay (at_hour t)) (getHours (at_hour t)) "transfers"
      = hourlyValue (base xs) (startOfDay (at_hour t)) (getHours (at_hour t)) "transfers" + 1
    ∧ roomEvents (base xs') = roomEvents (base xs)
    ∧ errorLogs (base xs') = errorLogs (base xs).
Proof.
  intros Hk Hpos _ _ _. rewrite run_recordDataTransferred by done.
  destruct (tallied_values t amount (base xs)) as (H1 & H2 & H3).
  destruct (named xs sessionId) as [[i s]|];
    [|destruct (truthy roomId);
      [destruct (findSession xs (roomId +:+ "-" +:+ pretty (at_create t))) as [[i0 s0]|]|]];
    eexists _, _; (split; [reflexivity|]); cbn [base withBase];
    repeat split; assumption.
Qed.

(** A report that begins before midnight and ends after it. *)
Definition overMidnight : ReportTimes :=
  {| at_bytes := msPerDay - 2; at_count := msPerDay - 1; at_hour := msPerDay + 1;
     at_update := msPerDay + 2; at_create := msPerDay + 3 |}.

Lemma exactSum_zero (b : Z) : 0 ≤ b ≤ 2 ^ 53 → exactSum 0 b.
Proof. unfold exactSum, exact. lia. Qed.

Lemma data_transfer_counted_example :
  ∃ r xs',
    xrun (recordDataTransferred overMidnight "AAAAAA" (Some 1024) None) emptyXstore []
      = (Resolved r, xs', [])
    ∧ dailyValue (base xs') (startOfDay (at_bytes overMidnight)) "totalBytesTransferred"
      = dailyValue (base emptyXstore) (startOfDay (at_bytes overMidnight))
          "totalBytesTransferred" + 1024
    ∧ dailyValue (base xs') (startOfDay (at_count overMidnight)) "transfersCompleted"
      = dailyValue (base emptyXstore) (startOfDay (at_count overMidnight))
          "transfersCompleted" + 1
    ∧ hourlyValue (base xs') (startOfDay (at_hour overMidnight))
        (getHours (at_hour overMidnight)) "transfers"
      = hourlyValue (base emptyXstore) (startOfDay (at_hour overMidnight))
          (getHours (at_hour overMidnight)) "transfers" + 1
    ∧ roomEvents (base xs') = roomEvents (base emptyXstore)
    ∧ errorLogs (base xs') = errorLogs (base emptyXstore).
Proof.
  apply (data_transfer_counted overMidnight "AAAAAA" 1024 None emptyXstore).
  - intros k d. cbn. rewrite lookup_empty. discriminate.
  - lia.
  - apply exactSum_zero. lia.
  - apply exactSum_zero. lia.
  - apply exactSum_zero. lia.
Defined.

Lemma detailsOf_insert b m k d :
  detailsOf {| base := b; details := <[k := d]> m |} k = d.
Proof. unfold detailsOf. cbn. by rewrite lookup_insert_eq. Qed.

(** X19. The session record of a data-transfer report of a positive
    whole number of bytes, the store answering. When the report names a
    session on record, that session becomes [completed] with the bytes
    added to its [totalBytes], both and their sum within the whole numbers
    that the source holds exactly, and no session is created. Otherwise,
    for a room id that is not empty, a session is created under the id made
    of the room id and the time, holding the bytes; but when that id is
    taken, or when the room id is empty, which the schema does not accept,
    no session is written and the report answers [null], its bytes counted
    all the same. *)
Theorem data_transfer_session (t : ReportTimes) (roomId : string) (amount : Z)
    (sessionId : option string) (xs : xstore) :
  keyed (base xs) → 0 < amount → exact amount →
  let result := xrun (recordDataTransferred t roomId (Some amount) sessionId) xs [] in
  let xs' := result.1.2 in
  let sessions := transferSessions (base xs) in
  let minimalSessionId := roomId +:+ "-" +:+ pretty (at_create t) in
  (∀ i s, named xs sessionId = Some (i, s) →
     exactSum (td_totalBytes (detailsOf xs (ts_id s))) amount →
     ∃ s', result.1.1 = Resolved (Some (s', detailsOf xs' (ts_id s)))
       ∧ transferSessions (base xs') = <[i := s']> sessions
       ∧ ts_status s' = "completed" ∧ ts_sessionId s' = ts_sessionId s
       ∧ ts_id s' = ts_id s ∧ ts_roomId s' = ts_roomId s
       ∧ td_totalBytes (detailsOf xs' (ts_id s))
         = td_totalBytes (detailsOf xs (ts_id s)) + amount
       ∧ td_endTime (detailsOf xs' (ts_id s)) = Some (at_update t))
  ∧ (named xs sessionId = None → roomId ≠ "" →
     findSession xs minimalSessionId = None →
     ∃ s', result.1.1 = Resolved (Some (s', detailsOf xs' (ts_id s')))
       ∧ transferSessions (base xs') = sessions ++ [s']
       ∧ ts_status s' = "completed" ∧ ts_roomId s' = roomId
       ∧ ts_sessionId s' = minimalSessionId
       ∧ ts_startTime s' = at_create t
       ∧ td_totalBytes (detailsOf xs' (ts_id s')) = amount
       ∧ td_endTime (detailsOf xs' (ts_id s')) = Some (at_create t))
  ∧ (named xs sessionId = None →
     roomId = "" ∨ is_Some (findSession xs minimalSessionId) →
     result.1.1 = Resolved None
     ∧ transferSessions (base xs') = sessions ∧ details xs' = details xs).
Proof.
  intros Hk Hpos _ result xs' sessions minimalSessionId.
  subst result xs' sessions minimalSessionId.
  rewrite run_recordDataTransferred by done. split; [|split].
  - intros i s -> _. cbn -[pretty]. eexists. rewrite !detailsOf_insert. cbn.
    repeat split.
  - intros -> Hroom ->.
    assert (truthy roomId = true) as -> by (by destruct roomId).
    cbn -[pretty].
    exists (minimalSession (at_create t) amount roomId
              (freshId (transferSessions (base xs)))).1.
    cbn -[pretty]. rewrite !detailsOf_insert. cbn. repeat split.
  - intros -> [-> | [[i0 s0] ->]]; [done|]. by destruct (truthy roomId).
Qed.

Lemma data_transfer_session_example :
  let result := xrun (recordDataTransferred fromNoon "AAAAAA" (Some 1024) (Some "s1"))
                  emptyXstore [] in
  let xs' := result.1.2 in
  let sessions := transferSessions (base emptyXstore) in
  let minimalSessionId := "AAAAAA" +:+ "-" +:+ pretty (at_create fromNoon) in
  (∀ i s, named emptyXstore (Some "s1") = Some (i, s) →
     exactSum (td_totalBytes (detailsOf emptyXstore (ts_id s))) 1024 →
     ∃ s', result.1.1 = Resolved (Some (s', detailsOf xs' (ts_id s)))
       ∧ transferSessions (base xs') = <[i := s']> sessions
       ∧ ts_status s' = "completed" ∧ ts_sessionId s' = ts_sessionId s
       ∧ ts_id s' = ts_id s ∧ ts_roomId s' = ts_roomId s
       ∧ td_totalBytes (detailsOf xs' (ts_id s))
         = td_totalBytes (detailsOf emptyXstore (ts_id s)) + 1024
       ∧ td_endTime (detailsOf xs' (ts_id s)) = Some (at_update fromNoon))
  ∧ (named emptyXstore (Some "s1") = None → "AAAAAA" ≠ "" →
     findSession emptyXstore minimalSessionId = None →
     ∃ s', result.1.1 = Resolved (Some (s', detailsOf xs' (ts_id s')))
       ∧ transferSessions (base xs') = sessions ++ [s']
       ∧ ts_status s' = "completed" ∧ ts_roomId s' = "AAAAAA"
       ∧ ts_sessionId s' = minimalSessionId
       ∧ ts_startTime s' = at_create fromNoon
       ∧ td_totalBytes (detailsOf xs' (ts_id s')) = 1024
       ∧ td_endTime (detailsOf xs' (ts_id s')) = Some (at_create fromNoon))
  ∧ (named emptyXstore (Some "s1") = None →
     "AAAAAA" = "" ∨ is_Some (findSession emptyXstore minimalSessionId) →
     result.1.1 = Resolved None
     ∧ transferSessions (base xs') = sessions ∧ details xs' = details emptyXstore).
Proof.
  apply (data_transfer_session fromNoon "AAAAAA" 1024 (Some "s1") emptyXstore).
  - intros k d. cbn. rewrite lookup_empty. discriminate.
  - lia.
  - unfold exact. lia.
Defined.

(** A report for a room id that is empty creates no session. *)
Lemma data_transfer_empty_room :
  let result := xrun (recordDataTransferred fromNoon "" (Some 1024) None) emptyXstore [] in
  result.1.1 = Resolved None
  ∧ transferSessions (base result.1.2) = []
  ∧ dailyValue (base result.1.2) (startOfDay noon) "totalBytesTransferred" = 1024.
Proof. vm_compute. repeat split; reflexivity. Qed.

(** *** The transfer events *)

Definition started (now fileCount totalBytes : Z) : Updates :=
  {| set_status := Some "transferring"; set_fileCount := Some fileCount;
     set_totalBytes := Some totalBytes; set_startTime := Some now;
     set_endTime := None; set_durationMs := None;
     set_receiverId := None; inc_totalBytes := None |}.

Definition completedBy (now : Z) (id : string) (s : TransferSession) : Updates :=
  {| set_status := Some "completed"; set_fileCount := None;
     set_totalBytes := None; set_startTime := None;
     set_endTime := Some now; set_durationMs := Some (now - ts_startTime s);
     set_receiverId := Some id; inc_totalBytes := None |}.

(** The store after an update of the session at index [i]. *)
Definition updated (u : Updates) (i : nat) (s : TransferSession) (xs : xstore) : xstore :=
  let doc := applyUpdates u (s, detailsOf xs (ts_id s)) in
  {| base := withTransferSessions (base xs) (<[i := doc.1]> (transferSessions (base xs)));
     details := <[ts_id s := doc.2]> (details xs) |}.

Lemma xrun_updateTransferSession sessionId u xs :
  xrun (updateTransferSession sessionId u) xs []
  = match findSession xs sessionId with
    | Some (i, s) =>
        (Resolved (Some (applyUpdates u (s, detailsOf xs (ts_id s)))), updated u i s xs, [])
    | None => (Resolved None, xs, [])
    end.
Proof.
  unfold updateTransferSession. rewrite xrun_try_catch. cbn [xrun await xexec].
  destruct (findSession xs sessionId) as [[i s]|]; done.
Qed.

Lemma findSession_updated u i s xs sessionId :
  findSession xs sessionId = Some (i, s) →
  findSession (updated u i s xs) sessionId = Some (i, (applyUpdates u (s, detailsOf xs (ts_id s))).1).
Proof.
  unfold findSession. intros Hf. apply list_find_Some in Hf as (Hi & Hs & Hfirst).
  apply list_find_Some. cbn. repeat split.
  - apply list_lookup_insert_eq. by eapply lookup_lt_Some.
  - done.
  - intros j y Hj Hlt. rewrite list_lookup_insert_ne in Hj by lia. by eapply Hfirst.
Qed.

Lemma detailsOf_updated u i s xs :
  detailsOf (updated u i s xs) (ts_id s) = (applyUpdates u (s, detailsOf xs (ts_id s))).2.
Proof. unfold updated. apply detailsOf_insert. Qed.

(** [transfer-complete] for a session on record, the store answering. *)
Lemma run_transfer_complete t id roomId sessionId xs i s :
  findSession xs sessionId = Some (i, s) →
  xrun (on_transfer_complete t id roomId sessionId) xs []
  = (Resolved (),
     withBase (updated (completedBy (at_ended t) id s) i s xs)
       (dailyStep (at_summed t) "totalBytesTransferred"
          (td_totalBytes (detailsOf xs (ts_id s)))
          (dailyStep (at_counted t) "transfersCompleted" 1
             (base (updated (completedBy (at_ended t) id s) i s xs)))),
     []).
Proof.
  intros Hf. unfold on_transfer_complete. rewrite xrun_try_catch, xrun_bind.
  cbn [xrun await xexec]. rewrite Hf. cbn [fmap option_fmap option_map].
  cbv beta iota zeta.
  rewrite xrun_bind, xrun_updateTransferSession, Hf. cbv beta iota.
  fold (completedBy (at_ended t) id s).
  rewrite xrun_bind, xrun_incrementDailyStat.
  rewrite xrun_bind, xrun_incrementDailyStat. done.
Qed.

(** X20. [transfer-complete] for a session id that is not on record
    writes nothing, whether the store answers or not. *)
Theorem transfer_complete_unknown_session (t : CompleteTimes) (id roomId sessionId : string)
    (xs : xstore) (fs : list bool) :
  findSession xs sessionId = None →
  (xrun (on_transfer_complete t id roomId sessionId) xs fs).1 = (Resolved (), xs).
Proof.
  intros Hf. unfold on_transfer_complete. rewrite xrun_try_catch, xrun_bind.
  destruct fs as [|[] fs]; cbn [xrun await xexec]; rewrite ?Hf; done.
Qed.

(** A completion whose three readings of the clock are a second apart. *)
Definition completionFrom (now : Z) : CompleteTimes :=
  {| at_ended := now; at_counted := now + 1000; at_summed := now + 2000 |}.

Lemma transfer_complete_unknown_example :
  (xrun (on_transfer_complete (completionFrom noon) "B" "AAAAAA" "s1") emptyXstore
     [false; true]).1
  = (Resolved (), emptyXstore).
Proof.
  apply (transfer_complete_unknown_session (completionFrom noon) "B" "AAAAAA" "s1"
           emptyXstore [false; true]).
  reflexivity.
Defined.

(** The store after [transfer-complete] was handled once for each element
    of [times], with these readings of the clock. *)
Definition completedAt (id roomId sessionId : string) (times : list CompleteTimes)
    (xs : xstore) : xstore :=
  foldl (λ xs t, (xrun (on_transfer_complete t id roomId sessionId) xs []).1.2) xs times.

Lemma exactSum_smaller (a b c : Z) : exactSum a b → 0 ≤ c ≤ b ∨ b ≤ c ≤ 0 → exactSum a c.
Proof. unfold exactSum, exact. lia. Qed.

(** X21. [transfer-complete] does not look at the status of the
    session: handled again for a session on record, it counts the transfer
    again. After it was handled [n] times, the store answering and each time
    with the two increments reading the clock on one day,
    [transfersCompleted] of the day has grown by [n] and
    [totalBytesTransferred] by [n] times the session's [totalBytes], a whole
    number; the counters, what is added to them and the sums are within the
    whole numbers that the source holds exactly. *)
Theorem transfer_complete_counts_each_time (id roomId sessionId : string)
    (times : list CompleteTimes) (day : Z) (xs : xstore) (i : nat) (s : TransferSession) :
  findSession xs sessionId = Some (i, s) →
  Forall (λ t, startOfDay (at_counted t) = day ∧ startOfDay (at_summed t) = day) times →
  let xs' := completedAt id roomId sessionId times xs in
  let n := Z.of_nat (length times) in
  exactSum (dailyValue (base xs) day "transfersCompleted") n →
  exactSum (dailyValue (base xs) day "totalBytesTransferred")
    (n * td_totalBytes (detailsOf xs (ts_id s))) →
  dailyValue (base xs') day "transfersCompleted"
    = dailyValue (base xs) day "transfersCompleted" + n
  ∧ dailyValue (base xs') day "totalBytesTransferred"
    = dailyValue (base xs) day "totalBytesTransferred"
      + n * td_totalBytes (detailsOf xs (ts_id s)).
Proof.
  intros Hf Hday. cbv zeta. intros _ _.
  revert xs s Hf. induction Hday as [|t times [Hc Hs] Htimes IH]; intros xs s Hf.
  - cbn. lia.
  - cbn [completedAt foldl]. fold (completedAt id roomId sessionId times).
    rewrite (run_transfer_complete t id roomId sessionId xs i s Hf). cbn [fst snd].
    set (xs1 := withBase _ _).
    assert (Hf1 : findSession xs1 sessionId
                  = Some (i, (applyUpdates (completedBy (at_ended t) id s)
                                (s, detailsOf xs (ts_id s))).1)).
    { subst xs1. rewrite findSession_withBase by done. by apply findSession_updated. }
    destruct (IH xs1 _ Hf1) as [H1 H2]. unfold completedAt in H1, H2.
    rewrite H1, H2. clear IH H1 H2.
    assert (Hd : td_totalBytes (detailsOf xs1 (ts_id s)) = td_totalBytes (detailsOf xs (ts_id s))).
    { subst xs1. unfold withBase, detailsOf. cbn. rewrite lookup_insert_eq. cbn.
      fold (detailsOf xs (ts_id s)). lia. }
    cbn [applyUpdates fst ts_id]. rewrite Hd.
    subst xs1. cbn [base withBase]. rewrite !dailyValue_dailyStep, Hc, Hs.
    change (dailyValue (base (updated ?u ?i ?s ?xs))) with (dailyValue (base xs)).
    rewrite length_cons, Nat2Z.inj_succ.
    repeat case_decide; destruct_and?; try discriminate; try lia;
      exfalso; match goal with H : ¬ (_ ∧ _) |- _ => by apply H end.
Qed.

(** A start whose two readings of the clock are a second apart. *)
Definition startFrom (now : Z) : StartTimes :=
  {| at_created := now; at_started := now + 1000 |}.

Definition startedOnce : xstore :=
  (xrun (on_transfer_start (startFrom noon) "A" "AAAAAA" "s1" 2 4096) emptyXstore []).1.2.

Definition threeTimes : list CompleteTimes :=
  [ completionFrom (noon + 5000); completionFrom (noon + 6000); completionFrom (noon + 7000) ].

Lemma transfer_complete_counts_example :
  let s := {| ts_id := 1; ts_roomId := "AAAAAA"; ts_sessionId := "s1";
              ts_status := "transferring"; ts_startTime := noon + 1000;
              ts_signalingEventsCount := ∅ |} in
  let xs' := completedAt "B" "AAAAAA" "s1" threeTimes startedOnce in
  let n := Z.of_nat (length threeTimes) in
  dailyValue (base xs') 0 "transfersCompleted"
    = dailyValue (base startedOnce) 0 "transfersCompleted" + n
  ∧ dailyValue (base xs') 0 "totalBytesTransferred"
    = dailyValue (base startedOnce) 0 "totalBytesTransferred"
      + n * td_totalBytes (detailsOf startedOnce (ts_id s)).
Proof.
  apply (transfer_complete_counts_each_time "B" "AAAAAA" "s1" threeTimes
           0 startedOnce 0
           {| ts_id := 1; ts_roomId := "AAAAAA"; ts_sessionId := "s1";
              ts_status := "transferring"; ts_startTime := noon + 1000;
              ts_signalingEventsCount := ∅ |}).
  - vm_compute. reflexivity.
  - repeat constructor.
  - vm_compute. repeat split; discriminate.
  - vm_compute. repeat split; discriminate.
Defined.

Definition newSession (now : Z) (roomId sessionId : string) (id : nat) : TransferSession :=
  {| ts_id := id; ts_roomId := roomId; ts_sessionId := sessionId;
     ts_status := "initiated"; ts_startTime := now; ts_signalingEventsCount := ∅ |}.

Definition initiatedBy (id : string) : Details :=
  {| td_initiatorId := Some id; td_receiverId := None; td_fileCount := 0;
     td_totalBytes := 0; td_endTime := None; td_durationMs := None |}.

(** The store after a session was created. *)
Definition created (s : TransferSession) (d : Details) (xs : xstore) : xstore :=
  {| base := withTransferSessions (base xs) (transferSessions (base xs) ++ [s]);
     details := <[ts_id s := d]> (details xs) |}.

Lemma findSession_created s d xs :
  findSession xs (ts_sessionId s) = None →
  findSession (created s d xs) (ts_sessionId s)
  = Some (length (transferSessions (base xs)), s).
Proof.
  unfold findSession, created. cbn. intros Hf.
  rewrite list_find_snoc, Hf. by rewrite decide_True.
Qed.

(** [transfer-start], the store answering. *)
Lemma run_transfer_start t id roomId sessionId fileCount totalBytes xs :
  xrun (on_transfer_start t id roomId sessionId fileCount totalBytes) xs []
  = (Resolved (),
     match findSession xs sessionId with
     | Some (i, s) => updated (started (at_started t) fileCount totalBytes) i s xs
     | None =>
         if truthy roomId && truthy sessionId then
           let s := newSession (at_created t) roomId sessionId
                      (freshId (transferSessions (base xs))) in
           updated (started (at_started t) fileCount totalBytes)
             (length (transferSessions (base xs))) s (created s (initiatedBy id) xs)
         else xs
     end, []).
Proof.
  unfold on_transfer_start. rewrite xrun_try_catch, xrun_bind.
  unfold createTransferSession. rewrite xrun_try_catch, xrun_bind.
  cbn [xrun await xexec].
  destruct (findSession xs sessionId) as [[i s]|] eqn:Hf; cbv beta iota zeta.
  - assert (Hrej : ∃ e,
      (if negb (truthy roomId) || negb (truthy sessionId)
       then (Rejected "ValidationError", xs)
       else (Rejected "E11000 duplicate key error", xs))
      = (@Rejected Session e, xs)).
    { destruct (negb (truthy roomId) || negb (truthy sessionId)); eauto. }
    destruct Hrej as [e ->].
    cbn [xrun xconsole_error mbind prog_bind bind]. rewrite xrun_bind.
    fold (started (at_started t) fileCount totalBytes).
    rewrite xrun_updateTransferSession, Hf. done.
  - destruct (truthy roomId), (truthy sessionId); cbn [negb orb andb].
    + cbn [xrun]. rewrite xrun_bind.
      fold (started (at_started t) fileCount totalBytes).
      fold (newSession (at_created t) roomId sessionId
              (freshId (transferSessions (base xs)))).
      fold (initiatedBy id).
      set (s := newSession (at_created t) roomId sessionId
                  (freshId (transferSessions (base xs)))).
      change {| base := _; details := _ |} with (created s (initiatedBy id) xs).
      rewrite xrun_updateTransferSession.
      pose proof (findSession_created s (initiatedBy id) xs Hf) as Hc.
      change (ts_sessionId s) with sessionId in Hc. rewrite Hc. done.
    + cbn [xrun xconsole_error mbind prog_bind bind]. rewrite xrun_bind.
      rewrite xrun_updateTransferSession, Hf. done.
    + cbn [xrun xconsole_error mbind prog_bind bind]. rewrite xrun_bind.
      rewrite xrun_updateTransferSession, Hf. done.
    + cbn [xrun xconsole_error mbind prog_bind bind]. rewrite xrun_bind.
      rewrite xrun_updateTransferSession, Hf. done.
Qed.

Lemma truthy_nonempty (s : string) : s ≠ "" → truthy s = true.
Proof. by destruct s. Qed.

(** X22. [transfer-start], the store answering. For a session id not
    on record it creates one session, initiated by the socket, in the room
    named, [transferring], with the file count and the bytes announced,
    when neither the room id nor the session id is empty; when one of them
    is, the schema does not accept the session and nothing is written. For a
    session id on record it creates nothing: that session is set back to
    [transferring] with the new start time, file count and bytes, and it
    keeps its room and its initiator. The events, the counters and the
    error records are untouched. *)
Theorem transfer_start_session (t : StartTimes) (id roomId sessionId : string)
    (fileCount totalBytes : Z) (xs : xstore) :
  let xs' := (xrun (on_transfer_start t id roomId sessionId fileCount totalBytes) xs []).1.2 in
  let sessions := transferSessions (base xs) in
  (findSession xs sessionId = None → roomId ≠ "" → sessionId ≠ "" →
     ∃ s', transferSessions (base xs') = sessions ++ [s']
       ∧ ts_roomId s' = roomId ∧ ts_sessionId s' = sessionId
       ∧ ts_status s' = "transferring" ∧ ts_startTime s' = at_started t
       ∧ detailsOf xs' (ts_id s')
         = {| td_initiatorId := Some id; td_receiverId := None;
              td_fileCount := fileCount; td_totalBytes := totalBytes;
              td_endTime := None; td_durationMs := None |})
  ∧ (findSession xs sessionId = None → roomId = "" ∨ sessionId = "" → xs' = xs)
  ∧ (∀ i s, findSession xs sessionId = Some (i, s) →
       ∃ s', transferSessions (base xs') = <[i := s']> sessions
         ∧ ts_roomId s' = ts_roomId s ∧ ts_sessionId s' = sessionId
         ∧ ts_status s' = "transferring" ∧ ts_startTime s' = at_started t
         ∧ td_fileCount (detailsOf xs' (ts_id s)) = fileCount
         ∧ td_totalBytes (detailsOf xs' (ts_id s)) = totalBytes
         ∧ td_initiatorId (detailsOf xs' (ts_id s)) = td_initiatorId (detailsOf xs (ts_id s)))
  ∧ sameLedger xs xs'.
Proof.
  intros xs' sessions. subst xs' sessions. rewrite run_transfer_start. cbn [fst snd].
  split; [|split; [|split]].
  - intros -> Hr Hs. rewrite (truthy_nonempty _ Hr), (truthy_nonempty _ Hs).
    cbn [andb]. cbv zeta.
    set (s := newSession (at_created t) roomId sessionId
                (freshId (transferSessions (base xs)))).
    exists (applyUpdates (started (at_started t) fileCount totalBytes)
              (s, detailsOf (created s (initiatedBy id) xs) (ts_id s))).1.
    cbn [updated base withTransferSessions transferSessions created applyUpdates fst snd
         ts_id ts_roomId ts_sessionId ts_status ts_startTime started set_status
         set_startTime default from_option].
    split.
    + rewrite insert_app_r_alt by done. by rewrite Nat.sub_diag.
    + repeat split. rewrite detailsOf_updated. unfold created.
      rewrite detailsOf_insert. cbn. f_equal; lia.
  - intros -> [-> | ->]; [done|]. by rewrite andb_false_r.
  - intros i s Hf. rewrite Hf.
    exists (applyUpdates (started (at_started t) fileCount totalBytes)
              (s, detailsOf xs (ts_id s))).1.
    rewrite detailsOf_updated. cbn. apply list_find_Some in Hf as (_ & Hs & _).
    repeat split; try done; lia.
  - destruct (findSession xs sessionId) as [[i s]|]; [by repeat split|].
    destruct (truthy roomId && truthy sessionId); by repeat split.
Qed.

(** A session id that is empty: nothing is written. *)
Lemma transfer_start_empty_session_id :
  (xrun (on_transfer_start (startFrom noon) "A" "AAAAAA" "" 2 4096) emptyXstore []).1
  = (Resolved (), emptyXstore).
Proof. vm_compute. reflexivity. Qed.

(** *** Signaling events and transfer sessions *)

Definition signaled (roomId eventType : string) (st : store) : store :=
  match latest (filter (λ s, isActive roomId s = true) (transferSessions st)) with
  | Some s =>
      withTransferSessions st
        (incSignal (ts_id s) ("signalingEventsCount." +:+ eventType +:+ "s") 1
           <$> transferSessions st)
  | None => st
  end.

Lemma run_trackSignalingEvent_reachable roomId eventType st :
  run (trackSignalingEvent roomId eventType) st [] = (Resolved (), signaled roomId eventType st, []).
Proof.
  unfold trackSignalingEvent, signaled. rewrite run_try_catch.
  cbn -[latest filter String.append].
  by destruct (latest _) as [s0|].
Qed.

Lemma xrun_trackSignalingEvent roomId eventType xs :
  xrun (lift (trackSignalingEvent roomId eventType)) xs []
  = (Resolved (), withBase xs (signaled roomId eventType (base xs)), []).
Proof. by rewrite xrun_lift, run_trackSignalingEvent_reachable. Qed.

Lemma freshId_above (l : list TransferSession) s :
  s ∈ l → (ts_id s < freshId l)%nat.
Proof.
  unfold freshId. induction l as [|x l IH]; [by intros ?%elem_of_nil|].
  intros [-> | Hs]%elem_of_cons; cbn; [lia|]. specialize (IH Hs). lia.
Qed.

Lemma incSignal_others id field amount (l : list TransferSession) :
  (∀ s, s ∈ l → ts_id s ≠ id) → incSignal id field amount <$> l = l.
Proof.
  intros Hl. induction l as [|x l IH]; [done|]. cbn. rewrite IH.
  - unfold incSignal. rewrite (proj2 (Nat.eqb_neq _ _)); [done|]. apply Hl. by left.
  - intros s Hs. apply Hl. by right.
Qed.

Lemma filter_inactive roomId (l : list TransferSession) :
  (∀ s, s ∈ l → isActive roomId s = false) →
  filter (λ s, isActive roomId s = true) l = [].
Proof.
  intros Hl. induction l as [|s l IH]; [done|].
  rewrite filter_cons, decide_False.
  - apply IH. intros s' Hs'. apply Hl. by right.
  - rewrite (Hl s) by left. done.
Qed.

Lemma insert_last {A} (l : list A) (x y : A) : <[length l := y]> (l ++ [x]) = l ++ [y].
Proof. rewrite insert_app_r_alt by done. by rewrite Nat.sub_diag. Qed.

(** X23. Signaling events are counted on a session from its
    [transfer-start] to its [transfer-complete]. In a room with no session
    under way, the store answering, neither the room id nor the session id
    empty: after [transfer-start] for a new session id, a signaling event of
    the room sets the session's counter of that kind of event to one and
    leaves the other sessions as they are; after [transfer-complete] the
    session is [completed], and a further signaling event of the room writes
    nothing. *)
Theorem signaling_counted_while_transferring (t : StartTimes) (t' : CompleteTimes)
    (id id' roomId sessionId eventType : string) (fileCount totalBytes : Z) (xs : xstore) :
  roomId ≠ "" → sessionId ≠ "" →
  findSession xs sessionId = None →
  (∀ s, s ∈ transferSessions (base xs) → isActive roomId s = false) →
  let field := "signalingEventsCount." +:+ eventType +:+ "s" in
  let xs1 := (xrun (on_transfer_start t id roomId sessionId fileCount totalBytes) xs []).1.2 in
  let xs2 := (xrun (lift (trackSignalingEvent roomId eventType)) xs1 []).1.2 in
  let xs3 := (xrun (on_transfer_complete t' id' roomId sessionId) xs2 []).1.2 in
  let xs4 := (xrun (lift (trackSignalingEvent roomId eventType)) xs3 []).1.2 in
  (∃ s2, transferSessions (base xs2) = transferSessions (base xs) ++ [s2]
     ∧ ts_sessionId s2 = sessionId ∧ ts_status s2 = "transferring"
     ∧ ts_signalingEventsCount s2 !! field = Some 1)
  ∧ (∃ s3, transferSessions (base xs3) = transferSessions (base xs) ++ [s3]
       ∧ ts_sessionId s3 = sessionId ∧ ts_status s3 = "completed"
       ∧ ts_signalingEventsCount s3 !! field = Some 1)
  ∧ base xs4 = base xs3 ∧ details xs4 = details xs3.
Proof.
  intros Hroom Hsid Hf Hin field xs1 xs2 xs3 xs4.
  set (l := transferSessions (base xs)) in *.
  set (s0 := newSession (at_created t) roomId sessionId (freshId l)).
  set (s1 := (applyUpdates (started (at_started t) fileCount totalBytes)
                (s0, detailsOf (created s0 (initiatedBy id) xs) (ts_id s0))).1).
  assert (H1 : transferSessions (base xs1) = l ++ [s1]).
  { subst xs1. rewrite run_transfer_start, Hf.
    rewrite (truthy_nonempty _ Hroom), (truthy_nonempty _ Hsid).
    cbn [fst snd andb]. cbv zeta. fold l. fold s0.
    unfold updated. cbn [base withTransferSessions transferSessions created].
    fold l. fold s1. apply insert_last. }
  set (s2 := incSignal (ts_id s1) field 1 s1).
  assert (Hact : filter (λ s, isActive roomId s = true) (l ++ [s1]) = [s1]).
  { rewrite filter_app, (filter_inactive roomId l Hin), app_nil_l.
    rewrite filter_cons, decide_True; [done|].
    unfold isActive. cbn. by rewrite String.eqb_refl. }
  assert (H2 : transferSessions (base xs2) = l ++ [s2]).
  { subst xs2. rewrite xrun_trackSignalingEvent. cbn [fst snd base withBase].
    unfold signaled. rewrite H1, Hact. cbn [latest transferSessions withTransferSessions].
    rewrite fmap_app. fold field. cbn [fmap list_fmap]. fold s2.
    rewrite incSignal_others; [done|].
    intros s Hs Heq. apply freshId_above in Hs. fold l in Hs.
    cbn in Heq. lia. }
  assert (Hs2 : ts_sessionId s2 = sessionId ∧ ts_status s2 = "transferring"
                ∧ ts_signalingEventsCount s2 !! field = Some 1).
  { subst s2. unfold incSignal. rewrite Nat.eqb_refl. cbn.
    rewrite lookup_insert_eq. done. }
  assert (Hf2 : findSession xs2 sessionId = Some (length l, s2)).
  { unfold findSession. rewrite H2, list_find_snoc.
    unfold findSession in Hf. fold l in Hf. rewrite Hf.
    rewrite decide_True; [done|]. apply Hs2. }
  set (s3 := (applyUpdates (completedBy (at_ended t') id' s2)
                (s2, detailsOf xs2 (ts_id s2))).1).
  assert (H3 : transferSessions (base xs3) = l ++ [s3]).
  { subst xs3. rewrite (run_transfer_complete t' id' roomId sessionId xs2 _ _ Hf2).
    cbn [fst snd base withBase]. unfold updated, dailyStep.
    cbn [exec snd withDailyStats transferSessions base withTransferSessions].
    rewrite H2. fold s3. apply insert_last. }
  assert (Hs3 : ts_sessionId s3 = sessionId ∧ ts_status s3 = "completed"
                ∧ ts_signalingEventsCount s3 !! field = Some 1).
  { subst s3. cbn. destruct Hs2 as (? & _ & ?). done. }
  split; [by exists s2|]. split; [by exists s3|].
  subst xs4. rewrite xrun_trackSignalingEvent. cbn [fst snd base withBase details].
  split; [|done]. unfold signaled. rewrite H3.
  rewrite filter_app, (filter_inactive roomId l Hin), app_nil_l.
  rewrite filter_cons, decide_False; [done|].
  unfold isActive. destruct Hs3 as (_ & -> & _). cbn.
  rewrite andb_false_r. done.
Qed.

Lemma signaling_counted_example :
  let field := "signalingEventsCount." +:+ "offer" +:+ "s" in
  let xs1 := (xrun (on_transfer_start (startFrom noon) "A" "AAAAAA" "s1" 2 4096)
                emptyXstore []).1.2 in
  let xs2 := (xrun (lift (trackSignalingEvent "AAAAAA" "offer")) xs1 []).1.2 in
  let xs3 := (xrun (on_transfer_complete (completionFrom (noon + 5000)) "B" "AAAAAA" "s1")
                xs2 []).1.2 in
  let xs4 := (xrun (lift (trackSignalingEvent "AAAAAA" "offer")) xs3 []).1.2 in
  (∃ s2, transferSessions (base xs2) = transferSessions (base emptyXstore) ++ [s2]
     ∧ ts_sessionId s2 = "s1" ∧ ts_status s2 = "transferring"
     ∧ ts_signalingEventsCount s2 !! field = Some 1)
  ∧ (∃ s3, transferSessions (base xs3) = transferSessions (base emptyXstore) ++ [s3]
       ∧ ts_sessionId s3 = "s1" ∧ ts_status s3 = "completed"
       ∧ ts_signalingEventsCount s3 !! field = Some 1)
  ∧ base xs4 = base xs3 ∧ details xs4 = details xs3.
Proof.
  apply (signaling_counted_while_transferring (startFrom noon) (completionFrom (noon + 5000))
           "A" "B" "AAAAAA" "s1" "offer" 2 4096 emptyXstore).
  - discriminate.
  - discriminate.
  - reflexivity.
  - intros s Hs. by apply elem_of_nil in Hs.
Defined.

(** [transfer-paused] and [transfer-resumed] set the status. *)
Definition statusOnly (status : string) : Updates :=
  {| set_status := Some status; set_fileCount := None; set_totalBytes := None;
     set_startTime := None; set_endTime := None; set_durationMs := None;
     set_receiverId := None; inc_totalBytes := None |}.

Lemma run_transfer_paused roomId sessionId xs i s :
  findSession xs sessionId = Some (i, s) →
  xrun (on_transfer_paused roomId sessionId) xs []
  = (Resolved (), updated (statusOnly "paused") i s xs, []).
Proof.
  intros Hf. unfold on_transfer_paused. rewrite xrun_try_catch, xrun_bind.
  fold (statusOnly "paused"). by rewrite xrun_updateTransferSession, Hf.
Qed.

Lemma run_transfer_resumed roomId sessionId xs i s :
  findSession xs sessionId = Some (i, s) →
  xrun (on_transfer_resumed roomId sessionId) xs []
  = (Resolved (), updated (statusOnly "transferring") i s xs, []).
Proof.
  intros Hf. unfold on_transfer_resumed. rewrite xrun_try_catch, xrun_bind.
  fold (statusOnly "transferring"). by rewrite xrun_updateTransferSession, Hf.
Qed.

Lemma filter_insert_only roomId (l : list TransferSession) i x y :
  l !! i = Some y →
  (∀ j s', l !! j = Some s' → j ≠ i → isActive roomId s' = false) →
  filter (λ s, isActive roomId s = true) (<[i := x]> l)
  = if isActive roomId x then [x] else [].
Proof.
  intros Hi Hl.
  rewrite insert_take_drop by (by eapply lookup_lt_Some).
  rewrite filter_app, filter_cons.
  rewrite (filter_inactive roomId (take i l)), (filter_inactive roomId (drop (S i) l)).
  - destruct (isActive roomId x) eqn:Ex.
    + by rewrite decide_True.
    + by rewrite decide_False.
  - intros s' Hs'. apply list_elem_of_lookup in Hs' as [j Hj].
    rewrite lookup_drop in Hj. apply (Hl _ _ Hj). lia.
  - intros s' Hs'. apply list_elem_of_lookup in Hs' as [j Hj].
    apply lookup_take_Some in Hj as [Hj Hlt]. apply (Hl _ _ Hj). lia.
Qed.

(** X24. Signaling events are not counted on a paused session. For a
    session of the room on record, no other session of the room under way,
    the store answering: after [transfer-paused] a signaling event of the
    room writes nothing; after [transfer-resumed] the session is
    [transferring] again, and a signaling event adds one to its counter of
    that kind of event. *)
Theorem signaling_not_counted_while_paused (roomId sessionId eventType : string)
    (xs : xstore) (i : nat) (s : TransferSession) :
  findSession xs sessionId = Some (i, s) → ts_roomId s = roomId →
  (∀ j s', transferSessions (base xs) !! j = Some s' → j ≠ i → isActive roomId s' = false) →
  let field := "signalingEventsCount." +:+ eventType +:+ "s" in
  let xs1 := (xrun (on_transfer_paused roomId sessionId) xs []).1.2 in
  let xs2 := (xrun (lift (trackSignalingEvent roomId eventType)) xs1 []).1.2 in
  let xs3 := (xrun (on_transfer_resumed roomId sessionId) xs2 []).1.2 in
  let xs4 := (xrun (lift (trackSignalingEvent roomId eventType)) xs3 []).1.2 in
  (∃ s1, transferSessions (base xs1) !! i = Some s1 ∧ ts_status s1 = "paused")
  ∧ base xs2 = base xs1
  ∧ ∃ s4, transferSessions (base xs4) !! i = Some s4
      ∧ ts_status s4 = "transferring"
      ∧ or0 (ts_signalingEventsCount s4 !! field)
        = or0 (ts_signalingEventsCount s !! field) + 1.
Proof.
  intros Hf Hroom Hothers field xs1 xs2 xs3 xs4.
  set (l := transferSessions (base xs)) in *.
  assert (Hi : l !! i = Some s).
  { unfold findSession in Hf. fold l in Hf. by apply list_find_Some in Hf as (? & _). }
  assert (Hlt : (i < length l)%nat) by (by eapply lookup_lt_Some).
  set (s1 := (applyUpdates (statusOnly "paused") (s, detailsOf xs (ts_id s))).1).
  assert (E1 : xs1 = updated (statusOnly "paused") i s xs).
  { subst xs1. by rewrite (run_transfer_paused roomId sessionId xs i s Hf). }
  assert (H1 : transferSessions (base xs1) = <[i := s1]> l) by (by rewrite E1).
  assert (E2 : base xs2 = base xs1).
  { subst xs2. rewrite xrun_trackSignalingEvent. cbn [fst snd base withBase].
    unfold signaled. rewrite H1, (filter_insert_only roomId l i s1 s Hi Hothers).
    replace (isActive roomId s1) with false; [done|].
    unfold isActive. cbn. by rewrite andb_false_r. }
  assert (Hf2 : findSession xs2 sessionId = Some (i, s1)).
  { unfold findSession. rewrite E2. fold (findSession xs1 sessionId). rewrite E1.
    by apply findSession_updated. }
  set (s3 := (applyUpdates (statusOnly "transferring") (s1, detailsOf xs2 (ts_id s1))).1).
  assert (H3 : transferSessions (base xs3) = <[i := s3]> l).
  { subst xs3. rewrite (run_transfer_resumed roomId sessionId xs2 i s1 Hf2).
    cbn [fst snd]. unfold updated at 1. cbn [base withTransferSessions transferSessions].
    fold s3. rewrite E2, H1. apply list_insert_insert_eq. }
  assert (Hact : isActive roomId s3 = true).
  { unfold isActive. cbn. rewrite Hroom, String.eqb_refl. done. }
  split; [exists s1; split; [|done]; rewrite H1; by apply list_lookup_insert_eq|].
  split; [done|].
  exists (incSignal (ts_id s3) field 1 s3).
  subst xs4. rewrite xrun_trackSignalingEvent. cbn [fst snd base withBase].
  unfold signaled. rewrite H3, (filter_insert_only roomId l i s3 s Hi Hothers), Hact.
  cbn [latest transferSessions withTransferSessions]. fold field.
  split; [|split].
  - rewrite list_lookup_fmap, list_lookup_insert_eq by done. done.
  - unfold incSignal. by rewrite Nat.eqb_refl.
  - unfold incSignal. rewrite Nat.eqb_refl. cbn. by rewrite lookup_insert_eq.
Qed.

Lemma signaling_paused_example :
  let s := {| ts_id := 1; ts_roomId := "AAAAAA"; ts_sessionId := "s1";
              ts_status := "transferring"; ts_startTime := noon + 1000;
              ts_signalingEventsCount := ∅ |} in
  let field := "signalingEventsCount." +:+ "offer" +:+ "s" in
  let xs1 := (xrun (on_transfer_paused "AAAAAA" "s1") startedOnce []).1.2 in
  let xs2 := (xrun (lift (trackSignalingEvent "AAAAAA" "offer")) xs1 []).1.2 in
  let xs3 := (xrun (on_transfer_resumed "AAAAAA" "s1") xs2 []).1.2 in
  let xs4 := (xrun (lift (trackSignalingEvent "AAAAAA" "offer")) xs3 []).1.2 in
  (∃ s1, transferSessions (base xs1) !! 0%nat = Some s1 ∧ ts_status s1 = "paused")
  ∧ base xs2 = base xs1
  ∧ ∃ s4, transferSessions (base xs4) !! 0%nat = Some s4
      ∧ ts_status s4 = "transferring"
      ∧ or0 (ts_signalingEventsCount s4 !! field)
        = or0 (ts_signalingEventsCount s !! field) + 1.
Proof.
  apply (signaling_not_counted_while_paused "AAAAAA" "s1" "offer" startedOnce 0
           {| ts_id := 1; ts_roomId := "AAAAAA"; ts_sessionId := "s1";
              ts_status := "transferring"; ts_startTime := noon + 1000;
              ts_signalingEventsCount := ∅ |}).
  - vm_compute. reflexivity.
  - reflexivity.
  - intros [|j] s' Hj Hne; [done|]. vm_compute in Hj. discriminate Hj.
Defined.

(** *** The analytics summary *)

(** X25. The summary endpoint never answers with status 500: the
    summary function catches every failure of the store itself and answers
    [null], which the endpoint sends as the body. The body is [null] exactly
    when one of the three queries was rejected; the three are always issued,
    and the store is left as it was. *)
Theorem summary_endpoint_never_fails (now : Z) (parsed : option Z) (xs : xstore)
    (fs : list bool) :
  ∃ body, xrun (summaryEndpoint now parsed) xs fs = (Resolved (Json body), xs, drop 3 fs)
    ∧ (body = None ↔ true ∈ take 3 fs).
Proof.
  unfold summaryEndpoint, getAnalyticsSummary, all3.
  destruct fs as [|[] [|[] [|[] fs]]]; cbn -[pretty String.append];
    eexists; (split; [reflexivity|]); split; intros H; try done;
    try (by repeat constructor);
    repeat (apply elem_of_cons in H as [H|H]; [discriminate|]);
    by apply elem_of_nil in H.
Qed.

(** The events and the error records of the window. *)
Definition eventsSince (since : Z) (st : store) : nat :=
  length (List.filter (λ e, since <=? ev_timestamp e) (roomEvents st)).

Definition errorsSince (since : Z) (errorType : string) (st : store) : nat :=
  length (List.filter (λ e, (since <=? el_timestamp e) && String.eqb (el_errorType e) errorType)
            (errorLogs st)).

Lemma groupByType_count (l : list ErrorLog) errorType :
  default 0%nat (groupByType l !! errorType)
  = length (List.filter (λ e, String.eqb (el_errorType e) errorType) l).
Proof.
  induction l as [|e l IH]; [done|]. cbn [groupByType foldr List.filter].
  fold (groupByType l). destruct (String.eqb_spec (el_errorType e) errorType) as [-> | Hne].
  - rewrite lookup_insert_eq. cbn. by rewrite IH.
  - by rewrite lookup_insert_ne.
Qed.

Lemma filter_filter_and {A} (f g : A → bool) (l : list A) :
  List.filter g (List.filter f l) = List.filter (λ x, f x && g x) l.
Proof.
  induction l as [|x l IH]; [done|]. cbn. destruct (f x); cbn; [|done].
  destruct (g x); by rewrite IH.
Qed.

Fixpoint descending (l : list DailyStats) : Prop :=
  match l with
  | [] => True
  | d :: l' => Forall (λ d', ds_date d' ≤ ds_date d) l' ∧ descending l'
  end.

Lemma elem_of_insertByDate d d' l : d' ∈ insertByDate d l ↔ d' = d ∨ d' ∈ l.
Proof.
  induction l as [|x l IH]; cbn.
  - rewrite list_elem_of_singleton. split; [auto|]. by intros [?|?%elem_of_nil].
  - destruct (ds_date x <=? ds_date d).
    + apply elem_of_cons.
    + rewrite !elem_of_cons, IH. tauto.
Qed.

Lemma descending_insertByDate d l : descending l → descending (insertByDate d l).
Proof.
  induction l as [|x l IH]; cbn.
  - intros _. by split.
  - intros [Hx Hl]. destruct (Z.leb_spec (ds_date x) (ds_date d)).
    + cbn. repeat split; [|done..]. constructor; [done|].
      eapply Forall_impl; [exact Hx|]. cbn. intros. lia.
    + cbn. split; [|by apply IH]. apply Forall_forall. intros d' Hd'.
      apply elem_of_insertByDate in Hd' as [-> | Hd']; [lia|].
      rewrite Forall_forall in Hx. by apply Hx.
Qed.

Lemma descending_sortByDateDesc l : descending (sortByDateDesc l).
Proof. induction l as [|x l IH]; cbn; [done|]. by apply descending_insertByDate. Qed.

Lemma elem_of_sortByDateDesc d l : d ∈ sortByDateDesc l ↔ d ∈ l.
Proof.
  induction l as [|x l IH]; cbn; [done|].
  rewrite elem_of_insertByDate, elem_of_cons, IH. done.
Qed.

Lemma descending_lookup l i j d1 d2 :
  descending l → (i < j)%nat → l !! i = Some d1 → l !! j = Some d2 →
  ds_date d2 ≤ ds_date d1.
Proof.
  revert i j. induction l as [|x l IH]; intros i j Hl Hij Hi Hj; [done|].
  destruct Hl as [Hx Hl]. destruct j as [|j]; [lia|]. destruct i as [|i]; cbn in *.
  - injection Hi as ->. rewrite Forall_forall in Hx. apply Hx.
    by eapply list_elem_of_lookup_2.
  - apply (IH i j); [done | lia | done | done].
Qed.

(** X26. The summary, the store answering, for a number of days that
    leaves the start of the window a valid date: the date [days] days before
    now and its midnight are both within the range of [Date]. The window
    starts at that midnight, where [days] is what the query gives, and 7 when
    the query gives no number or 0. [totalEvents] is the number of events
    recorded in the window; the count of each error type is the number of
    error records of that type in the window; [dailyStats] holds the daily
    documents dated in the window, the latest first; [period] names the
    number of days. *)
Theorem summary_window (now : Z) (parsed : option Z) (xs : xstore) :
  let days := queryDays parsed in
  let since := startOfDay (now - days * msPerDay) in
  validDate (now - days * msPerDay) → validDate since →
  ∃ sm, xrun (summaryEndpoint now parsed) xs [] = (Resolved (Json (Some sm)), xs, [])
    ∧ days = match parsed with Some 0 | None => 7 | Some d => d end
    ∧ sm_totalEvents sm = eventsSince since (base xs)
    ∧ (∀ errorType,
         default 0%nat (sm_errors sm !! errorType) = errorsSince since errorType (base xs))
    ∧ (∀ d, d ∈ sm_dailyStats sm
            ↔ (∃ k, dailyStats (base xs) !! k = Some d) ∧ since ≤ ds_date d)
    ∧ (∀ i j d1 d2, (i < j)%nat →
         sm_dailyStats sm !! i = Some d1 → sm_dailyStats sm !! j = Some d2 →
         ds_date d2 ≤ ds_date d1)
    ∧ sm_period sm = "Last " +:+ pretty days +:+ " days".
Proof.
  intros days since _ _. eexists. split; [reflexivity|]. cbn [sm_totalEvents sm_errors
    sm_dailyStats sm_period].
  split; [|split; [|split; [|split; [|split]]]].
  - subst days. unfold queryDays. destruct parsed as [[|p|p]|]; done.
  - done.
  - intros errorType. rewrite groupByType_count, filter_filter_and. done.
  - intros d. rewrite elem_of_sortByDateDesc.
    rewrite list_elem_of_In, List.filter_In, <- list_elem_of_In, Z.leb_le.
    rewrite list_elem_of_fmap. fold since. split.
    + intros [([k d'] & -> & Hin%elem_of_map_to_list) Hle]. split; [by exists k | done].
    + intros [[k Hk] Hle]. split; [|done]. exists (k, d). split; [done|].
      by apply elem_of_map_to_list.
  - intros i j d1 d2. apply descending_lookup, descending_sortByDateDesc.
  - done.
Qed.

(** The store after a creation, a join and a refused join handled one after
    the other some days apart. *)
Definition someDays : xstore :=
  withBase emptyXstore
    (run (trackRoomCreated (3 * msPerDay + noon) "AAAAAA" "A";;
          trackRoomJoined (9 * msPerDay + noon) "AAAAAA" "B" 2;;
          logError (10 * msPerDay) "room_full" "Room is full"
            {| md_roomId := Some "AAAAAA"; md_userId := Some "C";
               md_occupancy := Some 3%nat |})
       emptyStore []).1.2.

Lemma summary_window_example :
  let now := 10 * msPerDay + noon in
  let days := queryDays (Some 3) in
  let since := startOfDay (now - days * msPerDay) in
  ∃ sm, xrun (summaryEndpoint now (Some 3)) someDays [] = (Resolved (Json (Some sm)), someDays, [])
    ∧ days = 3
    ∧ sm_totalEvents sm = eventsSince since (base someDays)
    ∧ (∀ errorType,
         default 0%nat (sm_errors sm !! errorType)
         = errorsSince since errorType (base someDays))
    ∧ (∀ d, d ∈ sm_dailyStats sm
            ↔ (∃ k, dailyStats (base someDays) !! k = Some d) ∧ since ≤ ds_date d)
    ∧ (∀ i j d1 d2, (i < j)%nat →
         sm_dailyStats sm !! i = Some d1 → sm_dailyStats sm !! j = Some d2 →
         ds_date d2 ≤ ds_date d1)
    ∧ sm_period sm = "Last " +:+ pretty days +:+ " days".
Proof.
  apply (summary_window (10 * msPerDay + noon) (Some 3) someDays).
  - vm_compute. split; discriminate.
  - vm_compute. split; discriminate.
Defined.

(** What the summary of the example holds: the one event and the one error
    of the last three days, and the one daily document. *)
Lemma summary_window_example_values :
  ∃ sm, xrun (summaryEndpoint (10 * msPerDay + noon) (Some 3)) someDays []
        = (Resolved (Json (Some sm)), someDays, [])
    ∧ sm_totalEvents sm = 1%nat
    ∧ sm_errors sm !! "room_full" = Some 1%nat
    ∧ ds_date <$> sm_dailyStats sm = [9 * msPerDay]
    ∧ eventsSince 0 (base someDays) = 2%nat.
Proof. eexists. split; [reflexivity|]. vm_compute. repeat split; reflexivity. Qed.

End TransferFacts.

(* ===================================================================== *)
(** ** The earlier version of the server *)
(* ===================================================================== *)

Module LegacyFacts.
Import Clock Analytics Containment Tallies Legacy.
Local Open Scope Z_scope.
#[local] Arguments logError : simpl never.
#[local] Arguments trackRoomJoined : simpl never.
#[local] Arguments trackRoomCreated : simpl never.
#[local] Arguments trackUserLeft : simpl never.
#[local] Arguments trackSignalingEvent : simpl never.
#[local] Arguments generateRoomId : simpl never.

(** [h] run in [w] returns normally, in a world and with a value that satisfy [Q]. *)
Definition wp {A} (h : handler A) (w : world) (Q : A → world → Prop) : Prop :=
  ∃ a w', h w = (Resolved a, w') ∧ Q a w'.

Lemma lwp_bind {A B} (h : handler A) (f : A → handler B) w Q :
  wp h w (λ a w', wp (f a) w' Q) → wp (h ≫= f) w Q.
Proof.
  intros (a & w' & Hh & b & w'' & Hf & HQ). exists b, w''. split; [|done].
  unfold mbind, handler_bind, hbind. by rewrite Hh.
Qed.

Lemma lwp_ret {A} (a : A) w (Q : A → world → Prop) : Q a w → wp (mret a) w Q.
Proof. intros HQ. by exists a, w. Qed.

Lemma lwp_pure {A} (h : handler A) w a w' (Q : A → world → Prop) :
  h w = (Resolved a, w') → Q a w' → wp h w Q.
Proof. intros. by exists a, w'. Qed.

Lemma lwp_awaitP (p : Z → prog req unit) w (Q : unit → world → Prop) :
  (∀ now, neverThrows (p now)) →
  (∀ st fs, Q () (withDb w st fs)) → wp (awaitP p) w Q.
Proof.
  intros Hp HQ. unfold wp, awaitP.
  destruct (run_neverThrows _ (Hp (clock w)) (db w) (faults w)) as ([] & st & fs & ->).
  eauto.
Qed.

Lemma lwp_value {A} (h : handler A) w Q :
  wp h w Q → ∃ a, h w = (Resolved a, (h w).2) ∧ Q a (h w).2.
Proof. intros (a & w' & Hh & HQ). exists a. by rewrite Hh. Qed.

Ltac lwp_step :=
  first
    [ apply lwp_bind
    | apply lwp_ret
    | apply lwp_awaitP;
      [ intros;
        first [ apply trackRoomCreated_contained | apply trackRoomJoined_contained
              | apply trackUserLeft_contained | apply trackSignalingEvent_contained
              | apply logError_contained ]
      | intros ? ? ]
    | eapply lwp_pure; [reflexivity |] ].

Ltac lwp_exec := repeat (lwp_step; cbn beta).

(** Every count on record is 1 or 2. *)
Definition countsInRange (m : gmap string Z) : Prop :=
  ∀ roomId n, m !! roomId = Some n → 1 ≤ n ≤ 2.

Lemma countsInRange_insert m roomId n :
  1 ≤ n ≤ 2 → countsInRange m → countsInRange (<[roomId := n]> m).
Proof.
  intros Hn Hm r k. destruct (decide (r = roomId)) as [-> | Hne].
  - rewrite lookup_insert_eq. by intros [= <-].
  - rewrite lookup_insert_ne by done. apply Hm.
Qed.

Lemma countsInRange_delete m roomId : countsInRange m → countsInRange (delete roomId m).
Proof. intros Hm r k Hr. apply lookup_delete_Some in Hr as [_ Hr]. by eapply Hm. Qed.

Lemma disconnecting_rooms_counts id rooms w :
  countsInRange (roomOccupancy w) →
  wp (disconnecting_rooms id rooms) w (λ _ w', countsInRange (roomOccupancy w')).
Proof.
  revert w. induction rooms as [|roomId rooms IH]; intros w Hw; cbn [disconnecting_rooms].
  - by apply lwp_ret.
  - lwp_step. lwp_step. cbn beta. lwp_step.
    destruct (negb (String.eqb roomId id)); cbn [andb]; [|lwp_step; by apply IH].
    destruct (roomOccupancy w !! roomId) as [n|] eqn:E.
    + rewrite bool_decide_eq_true_2 by eauto. lwp_step. lwp_step. cbn beta.
      rewrite E.
      lwp_step. lwp_step. cbn beta. specialize (Hw _ _ E) as Hn.
      destruct (Z.leb_spec (n - 1) 0).
      * lwp_step. cbn. apply IH. cbn. by apply countsInRange_delete.
      * lwp_exec. cbn. apply IH. cbn. apply countsInRange_insert; [lia | done].
    + rewrite bool_decide_eq_false_2 by (by intros [? ?]). lwp_step. by apply IH.
Qed.

Lemma handle_counts e w :
  countsInRange (roomOccupancy w) →
  wp (handle e) w (λ _ w', countsInRange (roomOccupancy w')).
Proof.
  intros Hw. destruct e as [id|id rnd|id roomId|id payload roomId|id payload roomId
                           |id payload roomId|id|dt]; cbn [handle].
  - unfold connection. lwp_exec. unfold socket_join. cbn. by case_bool_decide.
  - unfold create_room. lwp_exec. cbn. unfold socket_join. cbn.
    apply countsInRange_insert; [lia|]. by case_bool_decide.
  - unfold join_room. lwp_step. lwp_step. cbn beta.
    destruct (roomOccupancy w !! roomId) as [n|] eqn:E; cbn.
    + specialize (Hw _ _ E) as Hn.
      destruct (Z.eqb_spec n 0); [lia|]. destruct (Z.leb_spec 2 n).
      * lwp_exec. done.
      * lwp_exec. cbn. unfold socket_join. cbn.
        apply countsInRange_insert; [lia|]. by case_bool_decide.
    + lwp_exec. done.
  - unfold on_offer. lwp_exec. done.
  - unfold on_answer. lwp_exec. done.
  - unfold on_ice_candidate. lwp_exec. done.
  - unfold teardown. lwp_step. lwp_step. cbn beta. lwp_step. lwp_step. cbn beta.
    by apply disconnecting_rooms_counts.
  - unfold tick. lwp_exec. done.
Qed.

Lemma legacy_runEvents_snoc es e w : runEvents (es ++ [e]) w = step e (runEvents es w).
Proof. unfold runEvents. by rewrite foldl_app. Qed.

(** X27. In the earlier version of the server the capacity holds: in
    every state reached from the empty registry, handlers run one at a time,
    the count of every room on record is 1 or 2. *)
Theorem legacy_counts_in_range (es : list event) (st : store) (fs : list bool) (t : Z)
    (roomId : string) (n : Z) :
  roomOccupancy (runEvents es (initial st fs t)) !! roomId = Some n → 1 ≤ n ≤ 2.
Proof.
  revert roomId n. change (countsInRange (roomOccupancy (runEvents es (initial st fs t)))).
  induction es as [|e es IH] using rev_ind.
  - intros r n. cbn. by rewrite lookup_empty.
  - rewrite legacy_runEvents_snoc. unfold step.
    destruct (lwp_value _ _ _ (handle_counts e _ IH)) as (_ & _ & H). exact H.
Qed.

Lemma legacy_full_room_refused_aux (w : world) (id roomId : string) (n : Z) :
  roomOccupancy w !! roomId = Some n → 2 ≤ n →
  roomOccupancy (step (Join_room id roomId) w) = roomOccupancy w
  ∧ socketRooms (step (Join_room id roomId) w) = socketRooms w
  ∧ emitted (Join_room id roomId) w
    = [{| recipients := {[id]}; payload := error "Room is full." |}].
Proof.
  intros E Hn.
  unfold emitted, step, handle, join_room, roomOccupancy_getOr0, mbind, handler_bind, hbind.
  cbn. rewrite E.
  destruct (Z.eqb_spec n 0); [lia|]. destruct (Z.leb_spec 2 n); [|lia]. cbn.
  unfold awaitP. cbn [db faults clock withOutbox].
  rewrite !run_logError. done.
Qed.

(** A creates a room and B joins it. *)
Definition legacyPair : world :=
  runEvents [Connection "A"; Connection "B"; Connection "C";
             Create_room "A" (λ _, 0%nat); Join_room "B" "AAAAAA"]
    (initial emptyStore [] 0).

Lemma legacy_counts_example :
  roomOccupancy legacyPair !! "AAAAAA" = Some 2 ∧ 1 ≤ 2 ≤ 2.
Proof.
  split; [vm_compute; reflexivity|].
  apply (legacy_counts_in_range
           [Connection "A"; Connection "B"; Connection "C";
            Create_room "A" (λ _, 0%nat); Join_room "B" "AAAAAA"]
           emptyStore [] 0 "AAAAAA" 2).
  vm_compute. reflexivity.
Defined.

Definition send (to : gset string) (m : message) : emission :=
  {| recipients := to; payload := m |}.

(** Whether the store answers the next call. *)
Definition storeAnswers (w : world) : bool :=
  match faults w with
  | true :: _ => false
  | _ => true
  end.

(** X28. In the earlier version a join to a room counted 2 or more is
    refused: the count and the rooms of every socket are unchanged, the
    requester alone is sent the error [Room is full.], and one [room_full]
    error record naming the room and the socket is stored if the store
    answers. *)
Theorem legacy_full_room_refused (w : world) (id roomId : string) (n : Z) :
  roomOccupancy w !! roomId = Some n → 2 ≤ n →
  let w' := step (Join_room id roomId) w in
  roomOccupancy w' = roomOccupancy w ∧ socketRooms w' = socketRooms w
  ∧ emitted (Join_room id roomId) w = [send {[id]} (error "Room is full.")]
  ∧ db w' =
      (if storeAnswers w then
         withErrorLogs (db w) (errorLogs (db w) ++
           [{| el_errorType := "room_full"; el_errorMessage := "Room is full";
               el_metadata := {| md_roomId := Some roomId; md_userId := Some id;
                                 md_occupancy := None |};
               el_roomId := Some roomId; el_userId := Some id;
               el_timestamp := clock w |}])
       else db w).
Proof.
  intros E Hn w'. subst w'.
  unfold emitted, step, handle, join_room, roomOccupancy_getOr0, mbind, handler_bind, hbind.
  cbn. rewrite E.
  destruct (Z.eqb_spec n 0); [lia|]. destruct (Z.leb_spec 2 n); [|lia]. cbn.
  unfold awaitP. cbn [db faults clock withOutbox].
  rewrite !run_logError. unfold storeAnswers.
  destruct (faults w) as [|[] fs]; cbn; by destruct (db w).
Qed.

Lemma legacy_full_room_example :
  let w' := step (Join_room "C" "AAAAAA") legacyPair in
  roomOccupancy w' = roomOccupancy legacyPair ∧ socketRooms w' = socketRooms legacyPair
  ∧ emitted (Join_room "C" "AAAAAA") legacyPair = [send {["C"]} (error "Room is full.")]
  ∧ db w' =
      (if storeAnswers legacyPair then
         withErrorLogs (db legacyPair) (errorLogs (db legacyPair) ++
           [{| el_errorType := "room_full"; el_errorMessage := "Room is full";
               el_metadata := {| md_roomId := Some "AAAAAA"; md_userId := Some "C";
                                 md_occupancy := None |};
               el_roomId := Some "AAAAAA"; el_userId := Some "C";
               el_timestamp := clock legacyPair |}])
       else db legacyPair).
Proof.
  apply (legacy_full_room_refused legacyPair "C" "AAAAAA" 2).
  - vm_compute. reflexivity.
  - lia.
Defined.

(** X29. The earlier version counts joins, not sockets. A socket that
    is already in a room counted 1 (its creator, for one) and joins it again
    raises the count to 2 while the rooms of every socket stay as they are;
    from then on every join to the room, by any socket, is refused as
    full. *)
Theorem legacy_rejoin_fills_room (w : world) (id roomId : string) :
  roomOccupancy w !! roomId = Some 1 → roomId ∈ roomsOf w id →
  let w' := step (Join_room id roomId) w in
  roomOccupancy w' !! roomId = Some 2
  ∧ socketRooms w' = socketRooms w
  ∧ ∀ other, roomOccupancy (step (Join_room other roomId) w') = roomOccupancy w'
             ∧ socketRooms (step (Join_room other roomId) w') = socketRooms w'
             ∧ emitted (Join_room other roomId) w' = [send {[other]} (error "Room is full.")].
Proof.
  intros E Hin w'.
  assert (H2 : roomOccupancy w' !! roomId = Some 2 ∧ socketRooms w' = socketRooms w).
  { subst w'. unfold step. cbn [handle].
    assert (Hwp : wp (join_room id roomId) w (λ _ w1,
              roomOccupancy w1 !! roomId = Some 2 ∧ socketRooms w1 = socketRooms w)).
    { unfold join_room. lwp_step. lwp_step. cbn beta. rewrite E. cbn.
      lwp_exec. cbn. unfold socket_join. cbn. rewrite bool_decide_eq_true_2 by done.
      cbn. by rewrite lookup_insert_eq. }
    destruct (lwp_value _ _ _ Hwp) as (_ & _ & H). exact H. }
  destruct H2 as [Hc Hs]. split; [done|]. split; [done|].
  intros other.
  destruct (legacy_full_room_refused_aux w' other roomId 2 Hc ltac:(lia)) as (?&?&?).
  done.
Qed.

Lemma legacy_rejoin_example :
  let w := runEvents [Connection "A"; Connection "B"; Create_room "A" (λ _, 0%nat)]
             (initial emptyStore [] 0) in
  let w' := step (Join_room "A" "AAAAAA") w in
  roomOccupancy w' !! "AAAAAA" = Some 2
  ∧ socketRooms w' = socketRooms w
  ∧ ∀ other, roomOccupancy (step (Join_room other "AAAAAA") w') = roomOccupancy w'
             ∧ socketRooms (step (Join_room other "AAAAAA") w') = socketRooms w'
             ∧ emitted (Join_room other "AAAAAA") w' = [send {[other]} (error "Room is full.")].
Proof.
  apply (legacy_rejoin_fills_room
           (runEvents [Connection "A"; Connection "B"; Create_room "A" (λ _, 0%nat)]
              (initial emptyStore [] 0)) "A" "AAAAAA").
  - vm_compute. reflexivity.
  - apply (bool_decide_unpack _). vm_compute. exact I.
Defined.

End LegacyFacts.
